(** * Tab Search popup: a shallow embedding of [TabSearcher]

    The repository holds two copies of the [TabSearcher] class: the one in
    [popup.js] and a later one, with the exact-match toggle, that follows
    the README under [build/].  Both are embedded here, in the modules [Popup] and
    [BuildPopup], on top of a model of the host facilities they call:
    JavaScript strings ([JS]), the regular-expression engine ([RegExp]) and
    the text serialisation of the DOM ([DOM]).

    Strings are sequences of UTF-16 code units, written as [list N].  The
    case tables of [JS] cover Basic Latin and the Latin-1 Supplement
    (U+0000 to U+00FF); code units above that range are left unchanged by
    the case mappings of this development. *)

From Stdlib Require Import List NArith ZArith Bool Lia Ascii String.
Import ListNotations.

Set Implicit Arguments.

(* ================================================================== *)
(** * JavaScript strings and values *)
(* ================================================================== *)

Module JS.

Definition code_unit := N.
Definition jsstring := list code_unit.

(** String literals of this file denote their ASCII code units. *)
Definition js (s : string) : jsstring :=
  map N_of_ascii (list_ascii_of_string s).

Definition dquote : code_unit := 34%N.

Fixpoint str_eqb (a b : jsstring) : bool :=
  match a, b with
  | [], [] => true
  | c :: a', d :: b' => N.eqb c d && str_eqb a' b'
  | _, _ => false
  end.

(** [!s] on a string: only the empty string is falsy. *)
Definition is_empty (s : jsstring) : bool :=
  match s with [] => true | _ => false end.

(** [s || d] on a string. *)
Definition or_default (s d : jsstring) : jsstring :=
  if is_empty s then d else s.

Definition in_range (lo hi c : N) : bool := (N.leb lo c && N.leb c hi)%bool.

(** [String.prototype.toLowerCase], one code unit at a time: A-Z and the
    Latin-1 capitals (U+00C0 to U+00DE, the multiplication sign apart). *)
Definition lower_cu (c : code_unit) : code_unit :=
  if in_range 65 90 c || (in_range 192 222 c && negb (N.eqb c 215))
  then (c + 32)%N else c.

Definition toLowerCase (s : jsstring) : jsstring := map lower_cu s.

(** [String.prototype.toUpperCase]: a-z and the Latin-1 small letters; the
    sharp s becomes two letters, the micro sign and y-diaeresis leave
    Latin-1. *)
Definition upper_cu (c : code_unit) : jsstring :=
  if in_range 97 122 c || (in_range 224 254 c && negb (N.eqb c 247))
  then [(c - 32)%N]
  else if N.eqb c 223 then [83%N; 83%N]
  else if N.eqb c 181 then [924%N]
  else if N.eqb c 255 then [376%N]
  else [c].


(** WhiteSpace and LineTerminator code units, as stripped by [trim] and
    matched by the class escape [\s]. *)
Definition isWhiteSpace (c : code_unit) : bool :=
  existsb (N.eqb c)
    [9; 10; 11; 12; 13; 32; 160; 5760; 8232; 8233; 8239; 8287; 12288; 65279]%N
  || in_range 8192 8202 c.

Fixpoint trimStart (s : jsstring) : jsstring :=
  match s with
  | [] => []
  | c :: s' => if isWhiteSpace c then trimStart s' else s
  end.

Definition trimEnd (s : jsstring) : jsstring := rev (trimStart (rev s)).

Definition trim (s : jsstring) : jsstring := trimEnd (trimStart s).

Fixpoint startsWith (s q : jsstring) : bool :=
  match q, s with
  | [], _ => true
  | _ :: _, [] => false
  | c :: q', d :: s' => N.eqb c d && startsWith s' q'
  end.

(** [String.prototype.includes]: some index of [s] starts a copy of [q]. *)
Fixpoint includes (s q : jsstring) : bool :=
  startsWith s q ||
  match s with
  | [] => false
  | _ :: s' => includes s' q
  end.

(** [s.replace(/c/g, by)] for a pattern that is one literal character and a
    replacement without [$]: every occurrence of [c] becomes [by]. *)
Definition replace_char (c : code_unit) (by_ : jsstring) (s : jsstring)
  : jsstring :=
  flat_map (fun x => if N.eqb x c then by_ else [x]) s.

(** The values a caller can hand to a method: the primitives, with numbers
    restricted to integers (printed in decimal, as JavaScript does below
    10^21). *)
Inductive value :=
| VUndefined
| VNull
| VBool (b : bool)
| VNumber (z : Z)
| VString (s : jsstring).

Fixpoint dec_digits (fuel : nat) (n : N) (acc : jsstring) : jsstring :=
  match fuel with
  | O => acc
  | S f =>
      let acc' := (48 + n mod 10)%N :: acc in
      if (n <? 10)%N then acc' else dec_digits f (n / 10)%N acc'
  end.

Definition N_to_string (n : N) : jsstring :=
  dec_digits (S (N.to_nat (N.log2 n))) n [].

Definition Z_to_string (z : Z) : jsstring :=
  match z with
  | Zneg p => 45%N :: N_to_string (Npos p)
  | _ => N_to_string (Z.to_N z)
  end.

Definition nat_to_string (n : nat) : jsstring := N_to_string (N.of_nat n).

(** [String(v)]. *)
Definition ToString (v : value) : jsstring :=
  match v with
  | VUndefined => js "undefined"
  | VNull => js "null"
  | VBool true => js "true"
  | VBool false => js "false"
  | VNumber z => Z_to_string z
  | VString s => s
  end.

(** Completion of a call: it returns, it throws, or it leaves what this
    development models (a pattern the [RegExp] module does not cover). *)
Inductive error :=
| SyntaxError (msg : string)
| HostError (msg : string).

Inductive completion (A : Type) :=
| Normal (a : A)
| Throw (e : error)
| Unmodelled.
Arguments Throw {A} e.
Arguments Unmodelled {A}.

End JS.

Import JS.

(* ================================================================== *)
(** * The host's regular expressions

    Patterns are those of ECMAScript without the [u] flag, with the
    web-compatibility extensions of Annex B.  The parser answers [Invalid]
    where [new RegExp] throws a SyntaxError and [Unsupported] for the
    constructs this development does not model: back-references and legacy
    octal escapes, a quantifier after a lookahead, and the groups opening
    with [(?<] (named groups and lookbehinds) or with a modifier ([(?i],
    [(?m], [(?s], [(?-]).  Any other character after [(?], apart from the
    colon, the equals sign and the exclamation mark, makes the pattern one
    that [new RegExp] rejects as an invalid group. *)
(* ================================================================== *)

Module RegExp.

Inductive class_item :=
| CChar (c : code_unit)
| CRange (lo hi : code_unit)
| CDigit (complement : bool)
| CSpace (complement : bool)
| CWord (complement : bool).

Inductive regex :=
| Empty
| Char (c : code_unit)
| Dot
| Class (invert : bool) (items : list class_item)
| Seq (r1 r2 : regex)
| Alt (r1 r2 : regex)
| Group (idx : nat) (r : regex)
| Quant (min : N) (max : option N) (greedy : bool) (r : regex)
| AssertStart
| AssertEnd
| WordBoundary (invert : bool)
| Lookahead (invert : bool) (r : regex).

Inductive parse_result (A : Type) :=
| Parsed (a : A)
| Invalid (msg : string)
| Unsupported.
Arguments Invalid {A} msg.
Arguments Unsupported {A}.

(** ** Character classification *)

Definition isDecimalDigit (c : code_unit) : bool := in_range 48 57 c.

Definition isAsciiLetter (c : code_unit) : bool :=
  in_range 65 90 c || in_range 97 122 c.

Definition isWordChar (c : code_unit) : bool :=
  isAsciiLetter c || isDecimalDigit c || N.eqb c 95.

Definition isLineTerminator (c : code_unit) : bool :=
  existsb (N.eqb c) [10; 13; 8232; 8233]%N.

(** SyntaxCharacter: the characters a pattern cannot use as themselves
    (Annex B lets the closing bracket and the braces through). *)
Definition syntax_chars : list code_unit :=
  [94; 36; 92; 46; 42; 43; 63; 40; 41; 91; 93; 123; 125; 124]%N.

Definition is_syntax_char (c : code_unit) : bool :=
  existsb (N.eqb c) syntax_chars.

Definition hex_value (c : code_unit) : option N :=
  if isDecimalDigit c then Some (c - 48)%N
  else if in_range 97 102 c then Some (c - 87)%N
  else if in_range 65 70 c then Some (c - 55)%N
  else None.

(** ** Quantifiers *)

Fixpoint take_digits (s : jsstring) : jsstring * jsstring :=
  match s with
  | [] => ([], [])
  | c :: s' =>
      if isDecimalDigit c
      then let (d, r) := take_digits s' in (c :: d, r)
      else ([], s)
  end.

Definition digits_value (d : jsstring) : N :=
  fold_left (fun acc c => (acc * 10 + (c - 48))%N) d 0%N.

(** The text after an opening brace, when it completes a quantifier
    [{n}], [{n,}] or [{n,m}]. *)
Definition parse_braces (s : jsstring) : option (N * option N * jsstring) :=
  match take_digits s with
  | ([], _) => None
  | (_, []) => None
  | (d1, c :: r2) =>
      let v1 := digits_value d1 in
      if N.eqb c 125 then Some (v1, Some v1, r2)
      else if N.eqb c 44 then
        match r2 with
        | [] => None
        | c2 :: r3 =>
            if N.eqb c2 125 then Some (v1, None, r3)
            else
              match take_digits r2 with
              | ([], _) => None
              | (_, []) => None
              | (d2, c3 :: r5) =>
                  if N.eqb c3 125
                  then Some (v1, Some (digits_value d2), r5)
                  else None
              end
        end
      else None
  end.

Definition parse_quantifier_prefix (s : jsstring)
  : parse_result (option (N * option N) * jsstring) :=
  match s with
  | [] => Parsed (None, s)
  | c :: r =>
      if N.eqb c 42 then Parsed (Some (0%N, None), r)
      else if N.eqb c 43 then Parsed (Some (1%N, None), r)
      else if N.eqb c 63 then Parsed (Some (0%N, Some 1%N), r)
      else if N.eqb c 123 then
        match parse_braces r with
        | Some (mn, Some mx, r') =>
            if (mx <? mn)%N
            then Invalid "numbers out of order in {} quantifier"
            else Parsed (Some (mn, Some mx), r')
        | Some (mn, None, r') => Parsed (Some (mn, None), r')
        | None => Parsed (None, s)
        end
      else Parsed (None, s)
  end.

(** An atom followed by its optional quantifier and laziness mark. *)
Definition parse_quantified (atom : regex) (s : jsstring)
  : parse_result (regex * jsstring) :=
  match parse_quantifier_prefix s with
  | Parsed (None, r) => Parsed (atom, r)
  | Parsed (Some (mn, mx), r) =>
      match r with
      | c :: r' =>
          if N.eqb c 63 then Parsed (Quant mn mx false atom, r')
          else Parsed (Quant mn mx true atom, r)
      | [] => Parsed (Quant mn mx true atom, r)
      end
  | Invalid msg => Invalid msg
  | Unsupported => Unsupported
  end.

(** ** Escapes *)

Inductive escape :=
| EChar (c : code_unit)
| ESet (i : class_item).

Definition hex2 (s : jsstring) : option (code_unit * jsstring) :=
  match s with
  | a :: b :: r =>
      match hex_value a, hex_value b with
      | Some x, Some y => Some ((x * 16 + y)%N, r)
      | _, _ => None
      end
  | _ => None
  end.

Definition hex4 (s : jsstring) : option (code_unit * jsstring) :=
  match hex2 s with
  | Some (hi, r) =>
      match hex2 r with
      | Some (lo, r') => Some ((hi * 256 + lo)%N, r')
      | None => None
      end
  | None => None
  end.

(** The escape after a backslash whose first character is [c]; [in_class]
    tells the two contexts apart ([\b] is a backspace inside a class, and
    the control letters of a class include digits and the underscore).
    [\b] and [\B] outside a class are assertions and are not handled
    here. *)
Definition parse_escape (in_class : bool) (c : code_unit) (r : jsstring)
  : parse_result (escape * jsstring) :=
  if N.eqb c 100 then Parsed (ESet (CDigit false), r)
  else if N.eqb c 68 then Parsed (ESet (CDigit true), r)
  else if N.eqb c 115 then Parsed (ESet (CSpace false), r)
  else if N.eqb c 83 then Parsed (ESet (CSpace true), r)
  else if N.eqb c 119 then Parsed (ESet (CWord false), r)
  else if N.eqb c 87 then Parsed (ESet (CWord true), r)
  else if N.eqb c 102 then Parsed (EChar 12%N, r)
  else if N.eqb c 110 then Parsed (EChar 10%N, r)
  else if N.eqb c 114 then Parsed (EChar 13%N, r)
  else if N.eqb c 116 then Parsed (EChar 9%N, r)
  else if N.eqb c 118 then Parsed (EChar 11%N, r)
  else if in_class && N.eqb c 98 then Parsed (EChar 8%N, r)
  else if N.eqb c 99 then
    match r with
    | l :: r' =>
        if isAsciiLetter l || (in_class && (isDecimalDigit l || N.eqb l 95))
        then Parsed (EChar (l mod 32)%N, r')
        else Parsed (EChar 92%N, c :: r)
    | [] => Parsed (EChar 92%N, c :: r)
    end
  else if N.eqb c 48 then
    match r with
    | d :: _ => if isDecimalDigit d then Unsupported else Parsed (EChar 0%N, r)
    | [] => Parsed (EChar 0%N, r)
    end
  else if isDecimalDigit c then Unsupported
  else if N.eqb c 120 then
    match hex2 r with
    | Some (v, r') => Parsed (EChar v, r')
    | None => Parsed (EChar c, r)
    end
  else if N.eqb c 117 then
    match hex4 r with
    | Some (v, r') => Parsed (EChar v, r')
    | None => Parsed (EChar c, r)
    end
  else Parsed (EChar c, r).

(** ** Character classes *)

Definition read_class_atom (s : jsstring) : parse_result (escape * jsstring) :=
  match s with
  | [] => Invalid "Unterminated character class"
  | c :: r =>
      if N.eqb c 92 then
        match r with
        | [] => Invalid "\ at end of pattern"
        | e :: r' => parse_escape true e r'
        end
      else Parsed (EChar c, r)
  end.

Definition escape_item (e : escape) : class_item :=
  match e with
  | EChar c => CChar c
  | ESet i => i
  end.

(** The items of a class up to its closing bracket; [s] starts after the
    opening bracket and the optional caret. *)
Fixpoint parse_class_items (fuel : nat) (s : jsstring) (acc : list class_item)
  : parse_result (list class_item * jsstring) :=
  match fuel with
  | O => Invalid "Unterminated character class"
  | S fuel' =>
      match s with
      | [] => Invalid "Unterminated character class"
      | c :: r =>
          if N.eqb c 93 then Parsed (rev acc, r)
          else
            match read_class_atom s with
            | Parsed (a, r1) =>
                match r1 with
                | dash :: ((nxt :: _) as r2) =>
                    if N.eqb dash 45 && negb (N.eqb nxt 93) then
                      match read_class_atom r2 with
                      | Parsed (b, r3) =>
                          match a, b with
                          | EChar lo, EChar hi =>
                              if (hi <? lo)%N
                              then Invalid "Range out of order in character class"
                              else parse_class_items fuel' r3 (CRange lo hi :: acc)
                          | _, _ =>
                              parse_class_items fuel' r3
                                (escape_item b :: CChar 45%N :: escape_item a :: acc)
                          end
                      | Invalid msg => Invalid msg
                      | Unsupported => Unsupported
                      end
                    else parse_class_items fuel' r1 (escape_item a :: acc)
                | _ => parse_class_items fuel' r1 (escape_item a :: acc)
                end
            | Invalid msg => Invalid msg
            | Unsupported => Unsupported
            end
      end
  end.

Definition parse_class (s : jsstring) : parse_result (regex * jsstring) :=
  let (invert, body) :=
    match s with
    | c :: r => if N.eqb c 94 then (true, r) else (false, s)
    | [] => (false, s)
    end in
  match parse_class_items (S (List.length body)) body [] with
  | Parsed (items, r) => Parsed (Class invert items, r)
  | Invalid msg => Invalid msg
  | Unsupported => Unsupported
  end.

(** ** Patterns *)

Inductive group_kind :=
| GCapture (idx : nat)
| GNonCapture
| GLookahead (invert : bool).

Definition mkSeq (rs : list regex) : regex := fold_right Seq Empty rs.

Fixpoint mkAlt (rs : list regex) : regex :=
  match rs with
  | [] => Empty
  | [r] => r
  | r :: rs' => Alt r (mkAlt rs')
  end.

(** A disjunction while it is read: the alternatives completed so far and
    the terms of the current one, both latest first. *)
Record disj := { alts_rev : list regex; terms_rev : list regex }.

Definition empty_disj : disj := {| alts_rev := []; terms_rev := [] |}.

Definition close_disj (d : disj) : regex :=
  mkAlt (rev (mkSeq (rev (terms_rev d)) :: alts_rev d)).

Definition push_term (r : regex) (d : disj) : disj :=
  {| alts_rev := alts_rev d; terms_rev := r :: terms_rev d |}.

Definition next_alt (d : disj) : disj :=
  {| alts_rev := mkSeq (rev (terms_rev d)) :: alts_rev d; terms_rev := [] |}.

(** The parser's state: the innermost open disjunction, the enclosing
    groups with what was read of each before its group opened, and the
    number of capturing parentheses met. *)
Record pstate := {
  cur : disj;
  stack : list (group_kind * disj);
  ngroups : nat
}.

Definition init_pstate : pstate :=
  {| cur := empty_disj; stack := []; ngroups := 0 |}.

Definition add_term (st : pstate) (r : regex) : pstate :=
  {| cur := push_term r (cur st); stack := stack st; ngroups := ngroups st |}.

Definition add_atom (st : pstate) (res : parse_result (regex * jsstring))
  : parse_result (pstate * jsstring) :=
  match res with
  | Parsed (a, r) => Parsed (add_term st a, r)
  | Invalid msg => Invalid msg
  | Unsupported => Unsupported
  end.

Definition open_group (st : pstate) (k : group_kind) : pstate :=
  {| cur := empty_disj;
     stack := (k, cur st) :: stack st;
     ngroups := match k with GCapture _ => S (ngroups st) | _ => ngroups st end |}.

(** One term (or one bar or parenthesis) of the pattern, whose first
    character is [c]. *)
Definition parse_step (st : pstate) (c : code_unit) (r : jsstring)
  : parse_result (pstate * jsstring) :=
  if negb (is_syntax_char c) then add_atom st (parse_quantified (Char c) r)
  else if N.eqb c 124 then
    Parsed ({| cur := next_alt (cur st); stack := stack st;
               ngroups := ngroups st |}, r)
  else if N.eqb c 40 then
    match r with
    | q :: r1 =>
        if N.eqb q 63 then
          match r1 with
          | k :: r2 =>
              if N.eqb k 58 then Parsed (open_group st GNonCapture, r2)
              else if N.eqb k 61 then Parsed (open_group st (GLookahead false), r2)
              else if N.eqb k 33 then Parsed (open_group st (GLookahead true), r2)
              else if existsb (N.eqb k) [60; 105; 109; 115; 45]%N then Unsupported
              else Invalid "Invalid group"
          | [] => Invalid "Invalid group"
          end
        else Parsed (open_group st (GCapture (ngroups st)), r)
    | [] => Parsed (open_group st (GCapture (ngroups st)), r)
    end
  else if N.eqb c 41 then
    match stack st with
    | [] => Invalid "Unmatched ')'"
    | (k, parent) :: stk =>
        let outer := {| cur := parent; stack := stk; ngroups := ngroups st |} in
        let body := close_disj (cur st) in
        match k with
        | GCapture i => add_atom outer (parse_quantified (Group i body) r)
        | GNonCapture => add_atom outer (parse_quantified body r)
        | GLookahead inv =>
            match parse_quantifier_prefix r with
            | Parsed (None, _) => Parsed (add_term outer (Lookahead inv body), r)
            | Parsed (Some _, _) => Unsupported
            | Invalid msg => Invalid msg
            | Unsupported => Unsupported
            end
        end
    end
  else if N.eqb c 42 || N.eqb c 43 || N.eqb c 63 then Invalid "Nothing to repeat"
  else if N.eqb c 123 then
    match parse_braces r with
    | Some _ => Invalid "Nothing to repeat"
    | None => add_atom st (parse_quantified (Char c) r)
    end
  else if N.eqb c 125 || N.eqb c 93 then
    add_atom st (parse_quantified (Char c) r)
  else if N.eqb c 94 then Parsed (add_term st AssertStart, r)
  else if N.eqb c 36 then Parsed (add_term st AssertEnd, r)
  else if N.eqb c 46 then add_atom st (parse_quantified Dot r)
  else if N.eqb c 91 then
    match parse_class r with
    | Parsed (cls, r') => add_atom st (parse_quantified cls r')
    | Invalid msg => Invalid msg
    | Unsupported => Unsupported
    end
  else
    match r with
    | [] => Invalid "\ at end of pattern"
    | e :: r' =>
        if N.eqb e 98 then Parsed (add_term st (WordBoundary false), r')
        else if N.eqb e 66 then Parsed (add_term st (WordBoundary true), r')
        else
          match parse_escape false e r' with
          | Parsed (EChar ch, r2) => add_atom st (parse_quantified (Char ch) r2)
          | Parsed (ESet i, r2) =>
              add_atom st (parse_quantified (Class false [i]) r2)
          | Invalid msg => Invalid msg
          | Unsupported => Unsupported
          end
    end.

Fixpoint parse_loop (fuel : nat) (st : pstate) (s : jsstring)
  : parse_result (regex * nat) :=
  match s with
  | [] =>
      match stack st with
      | [] => Parsed (close_disj (cur st), ngroups st)
      | _ :: _ => Invalid "Unterminated group"
      end
  | c :: r =>
      match fuel with
      | O => Unsupported
      | S fuel' =>
          match parse_step st c r with
          | Parsed (st', r') => parse_loop fuel' st' r'
          | Invalid msg => Invalid msg
          | Unsupported => Unsupported
          end
      end
  end.

(** The pattern as a term and its number of capturing groups; every step
    consumes a character, so the length of the pattern is fuel enough. *)
Definition parse_pattern (p : jsstring) : parse_result (regex * nat) :=
  parse_loop (List.length p) init_pstate p.

(** ** Matching *)

Record flags := { global : bool; ignoreCase : bool }.

Record MatchState := {
  endIndex : nat;
  captures : list (option (nat * nat))
}.

(** Canonicalize, without the [u] flag: the upper case of the code unit
    when that is one code unit and does not turn a non-ASCII code unit
    into an ASCII one. *)
Definition Canonicalize (ignore_case : bool) (ch : code_unit) : code_unit :=
  if ignore_case then
    match upper_cu ch with
    | [cu] => if (128 <=? ch)%N && (cu <? 128)%N then ch else cu
    | _ => ch
    end
  else ch.

(** The code units whose canonical form can be [cc]. *)
Definition canonical_sources (cc : code_unit) : list code_unit :=
  [cc; lower_cu cc; 181%N; 255%N].

Fixpoint set_nth {A : Type} (n : nat) (v : A) (l : list A) : list A :=
  match l, n with
  | [], _ => []
  | _ :: l', O => v :: l'
  | a :: l', S n' => a :: set_nth n' v l'
  end.

Fixpoint group_indices (r : regex) : list nat :=
  match r with
  | Seq r1 r2 | Alt r1 r2 => group_indices r1 ++ group_indices r2
  | Group i r' => i :: group_indices r'
  | Quant _ _ _ r' | Lookahead _ r' => group_indices r'
  | _ => []
  end.

Definition clear_captures (idxs : list nat) (x : MatchState) : MatchState :=
  {| endIndex := endIndex x;
     captures := fold_left (fun caps i => set_nth i None caps) idxs (captures x) |}.

Definition pred_max (mx : option N) : option N :=
  match mx with
  | Some n => Some (N.pred n)
  | None => None
  end.

Section Matcher.

Variable ignore_case : bool.
Variable Input : jsstring.

Definition in_item (a : code_unit) (i : class_item) : bool :=
  match i with
  | CChar c => N.eqb a c
  | CRange lo hi => in_range lo hi a
  | CDigit compl => xorb compl (isDecimalDigit a)
  | CSpace compl => xorb compl (isWhiteSpace a)
  | CWord compl => xorb compl (isWordChar a)
  end.

(** Whether some member of the set has the canonical form of [ch]. *)
Definition set_has (member : code_unit -> bool) (ch : code_unit) : bool :=
  if ignore_case then
    let cc := Canonicalize true ch in
    existsb (fun a => member a && N.eqb (Canonicalize true a) cc)
            (ch :: canonical_sources cc)
  else member ch.

Definition CharacterSetMatcher (member : code_unit -> bool) (invert : bool)
    (x : MatchState) (k : MatchState -> option MatchState)
  : option MatchState :=
  match nth_error Input (endIndex x) with
  | None => None
  | Some ch =>
      if xorb invert (set_has member ch)
      then k {| endIndex := S (endIndex x); captures := captures x |}
      else None
  end.

Definition IsWordCharAt (i : nat) : bool :=
  match nth_error Input i with
  | Some c => isWordChar c
  | None => false
  end.

Definition IsWordCharBefore (i : nat) : bool :=
  match i with
  | O => false
  | S j => IsWordCharAt j
  end.

Fixpoint m (r : regex) (x : MatchState)
    (k : MatchState -> option MatchState) {struct r} : option MatchState :=
  match r with
  | Empty => k x
  | Char c => CharacterSetMatcher (N.eqb c) false x k
  | Dot => CharacterSetMatcher (fun a => negb (isLineTerminator a)) false x k
  | Class invert items =>
      CharacterSetMatcher (fun a => existsb (in_item a) items) invert x k
  | Seq r1 r2 => m r1 x (fun y => m r2 y k)
  | Alt r1 r2 =>
      match m r1 x k with
      | Some z => Some z
      | None => m r2 x k
      end
  | Group i r' =>
      m r' x (fun y =>
        k {| endIndex := endIndex y;
             captures := set_nth i (Some (endIndex x, endIndex y)) (captures y) |})
  | Quant mn mx greedy r' =>
      let idxs := group_indices r' in
      (fix RepeatMatcher (fuel : nat) (mn : N) (mx : option N) (x : MatchState)
         {struct fuel} : option MatchState :=
         match fuel with
         | O => None
         | S fuel' =>
             match mx with
             | Some 0%N => k x
             | _ =>
                 let d := fun y =>
                   if N.eqb mn 0 && Nat.eqb (endIndex y) (endIndex x) then None
                   else RepeatMatcher fuel' (N.pred mn) (pred_max mx) y in
                 let xr := clear_captures idxs x in
                 if negb (N.eqb mn 0) then m r' xr d
                 else if negb greedy then
                   match k x with
                   | Some z => Some z
                   | None => m r' xr d
                   end
                 else
                   match m r' xr d with
                   | Some z => Some z
                   | None => k x
                   end
             end
         end)
        (S (N.to_nat mn + (List.length Input - endIndex x))) mn mx x
  | AssertStart => if Nat.eqb (endIndex x) 0 then k x else None
  | AssertEnd => if Nat.eqb (endIndex x) (List.length Input) then k x else None
  | WordBoundary invert =>
      let a := IsWordCharBefore (endIndex x) in
      let b := IsWordCharAt (endIndex x) in
      if xorb invert (xorb a b) then k x else None
  | Lookahead invert r' =>
      match m r' x (fun y => Some y), invert with
      | Some y, false => k {| endIndex := endIndex x; captures := captures y |}
      | None, false => None
      | Some _, true => None
      | None, true => k x
      end
  end.

Variable body : regex.
Variable ncap : nat.

(** The match that starts at index [i], if there is one. *)
Definition match_at (i : nat) : option MatchState :=
  m body {| endIndex := i; captures := repeat None ncap |} (fun y => Some y).

Fixpoint scan (n : nat) (i : nat) : option (nat * MatchState) :=
  match match_at i with
  | Some y => Some (i, y)
  | None =>
      match n with
      | O => None
      | S n' => scan n' (S i)
      end
  end.

(** RegExpBuiltinExec without the sticky flag: the first index at or after
    [lastIndex] where the pattern matches. *)
Definition exec (lastIndex : nat) : option (nat * MatchState) :=
  if Nat.ltb (List.length Input) lastIndex then None
  else scan (List.length Input - lastIndex) lastIndex.

(** The successive matches a global replace collects; an empty match moves
    [lastIndex] one further. *)
Fixpoint collect (fuel : nat) (lastIndex : nat) : list (nat * MatchState) :=
  match fuel with
  | O => []
  | S fuel' =>
      match exec lastIndex with
      | None => []
      | Some (i, y) =>
          (i, y) ::
          collect fuel' (if Nat.eqb (endIndex y) i then S (endIndex y)
                         else endIndex y)
      end
  end.

Definition substring (from to : nat) : jsstring :=
  firstn (to - from) (skipn from Input).

End Matcher.

(** ** Replacement text *)

Section Substitution.

Variable matched : jsstring.
Variable str : jsstring.
Variable position : nat.
Variable caps : list (option (nat * nat)).

Definition capture_text (n : nat) : option jsstring :=
  match n with
  | O => None
  | S i =>
      match nth_error caps i with
      | Some (Some (from, to)) => Some (substring str from to)
      | Some None => Some []
      | None => None
      end
  end.

(** GetSubstitution, for a pattern without named groups: [$$], [$&],
    [$`], [$'] and the numbered references, a two-digit one falling back
    to one digit when there are not that many groups. *)
Fixpoint GetSubstitution (tmpl : jsstring) : jsstring :=
  match tmpl with
  | [] => []
  | c :: rest =>
      if negb (N.eqb c 36) then c :: GetSubstitution rest
      else
        match rest with
        | [] => [c]
        | d :: rest1 =>
            if N.eqb d 36 then 36%N :: GetSubstitution rest1
            else if N.eqb d 38 then matched ++ GetSubstitution rest1
            else if N.eqb d 96 then firstn position str ++ GetSubstitution rest1
            else if N.eqb d 39 then
              skipn (position + List.length matched) str ++ GetSubstitution rest1
            else if isDecimalDigit d then
              let one := N.to_nat (d - 48) in
              let one_digit :=
                match capture_text one with
                | Some t => t
                | None => [c; d]
                end in
              match rest1 with
              | [] => one_digit
              | d2 :: rest2 =>
                  let two := 10 * one + N.to_nat (d2 - 48) in
                  if isDecimalDigit d2 && Nat.leb two (List.length caps) then
                    match capture_text two with
                    | Some t => t
                    | None => [c; d; d2]
                    end ++ GetSubstitution rest2
                  else one_digit ++ GetSubstitution rest1
              end
            else c :: GetSubstitution rest
        end
  end.

End Substitution.

(** ** Regular-expression objects *)

Record RegExpObject := {
  re_body : regex;
  re_ncap : nat;
  re_flags : flags
}.

(** [new RegExp(pattern, flags)]. *)
Definition RegExp_new (pattern : jsstring) (f : flags)
  : parse_result RegExpObject :=
  match parse_pattern pattern with
  | Parsed (r, n) => Parsed {| re_body := r; re_ncap := n; re_flags := f |}
  | Invalid msg => Invalid msg
  | Unsupported => Unsupported
  end.

(** [re.test(s)] on an expression whose [lastIndex] is 0. *)
Definition test (re : RegExpObject) (s : jsstring) : bool :=
  match exec (ignoreCase (re_flags re)) s (re_body re) (re_ncap re) 0 with
  | Some _ => true
  | None => false
  end.

Fixpoint replace_results (s tmpl : jsstring)
    (results : list (nat * MatchState)) (next : nat) : jsstring :=
  match results with
  | [] => skipn next s
  | (pos, y) :: rest =>
      let matched := substring s pos (endIndex y) in
      if Nat.leb next pos then
        substring s next pos
        ++ GetSubstitution matched s pos (captures y) tmpl
        ++ replace_results s tmpl rest (pos + List.length matched)
      else replace_results s tmpl rest next
  end.

(** [s.replace(re, tmpl)] with a replacement string, on an expression whose
    [lastIndex] is 0. *)
Definition replace (s : jsstring) (re : RegExpObject) (tmpl : jsstring)
  : jsstring :=
  let ic := ignoreCase (re_flags re) in
  let results :=
    if global (re_flags re)
    then collect ic s (re_body re) (re_ncap re) (S (S (List.length s))) 0
    else match exec ic s (re_body re) (re_ncap re) 0 with
         | Some r => [r]
         | None => []
         end in
  replace_results s tmpl results 0.

End RegExp.

Import RegExp.

(* ================================================================== *)
(** * The DOM facilities of the popup *)
(* ================================================================== *)

Module DOM.

(** [el.textContent = v]: [null] (and [undefined], which converts to it)
    empties the element, any other value is stored as its string. *)
Definition textContent_of (v : value) : jsstring :=
  match v with
  | VNull | VUndefined => []
  | _ => ToString v
  end.

(** [el.innerHTML] of an element that holds one text node: the HTML
    serialisation of text escapes the ampersand, the no-break space and the
    two angle brackets, and nothing else. *)
Definition serialize_text (s : jsstring) : jsstring :=
  flat_map (fun c =>
    if N.eqb c 38 then js "&amp;"
    else if N.eqb c 160 then js "&nbsp;"
    else if N.eqb c 60 then js "&lt;"
    else if N.eqb c 62 then js "&gt;"
    else [c]) s.

(** The values given to [style.display]. *)
Inductive display := DisplayUnset | DisplayNone | DisplayFlex | DisplayBlock
                   | DisplayInline.

(** One [.tab-item] element of the list, as [createTabHTML] lays it out:
    the [data-tab-id] attribute, the [active] class, the favicon source
    (absent for the default icon), the two highlighted texts, and the
    [keyboard-active] class that navigation moves around. *)
Record TabItem := {
  data_tabId : Z;
  item_active : bool;
  item_favicon : option jsstring;
  item_title : jsstring;
  item_url : jsstring;
  keyboard_active : bool
}.

(** What [tabsList.innerHTML] holds: the rendered items or the error
    panel. *)
Inductive list_content :=
| Items (l : list TabItem)
| ErrorPanel (message : jsstring).

Definition tab_items (c : list_content) : list TabItem :=
  match c with
  | Items l => l
  | ErrorPanel _ => []
  end.

(** The calls made to the host, in the order they are issued. *)
Inductive host_call :=
| Confirm (message : jsstring)
| TabsQueryAll
| TabsQueryActive
| TabsUpdate (tabId : Z)
| TabsGet (tabId : Z)
| WindowsUpdate (windowId : Z)
| TabsRemove (tabId : Z)
| TabsRemoveAll (tabIds : list Z)
| WindowClose
| PreventDefault
| ScrollIntoView (index : nat).

(** The page: the elements [init] looks up, the console and the host. *)
Record Page := {
  searchInput_value : jsstring;
  tabsList_content : list_content;
  tabsList_display : display;
  tabCountEl_text : jsstring;
  matchCountEl_text : jsstring;
  matchCountEl_display : display;
  noResultsEl_display : display;
  loadingEl_display : display;
  console_errors : list jsstring;
  host_calls : list host_call
}.

Definition initial_page : Page :=
  {| searchInput_value := [];
     tabsList_content := Items [];
     tabsList_display := DisplayUnset;
     tabCountEl_text := [];
     matchCountEl_text := [];
     matchCountEl_display := DisplayUnset;
     noResultsEl_display := DisplayUnset;
     loadingEl_display := DisplayUnset;
     console_errors := [];
     host_calls := [] |}.

Definition set_searchInput_value (v : jsstring) (p : Page) : Page :=
  {| searchInput_value := v;
     tabsList_content := tabsList_content p;
     tabsList_display := tabsList_display p;
     tabCountEl_text := tabCountEl_text p;
     matchCountEl_text := matchCountEl_text p;
     matchCountEl_display := matchCountEl_display p;
     noResultsEl_display := noResultsEl_display p;
     loadingEl_display := loadingEl_display p;
     console_errors := console_errors p;
     host_calls := host_calls p |}.

Definition set_tabsList_content (v : list_content) (p : Page) : Page :=
  {| searchInput_value := searchInput_value p;
     tabsList_content := v;
     tabsList_display := tabsList_display p;
     tabCountEl_text := tabCountEl_text p;
     matchCountEl_text := matchCountEl_text p;
     matchCountEl_display := matchCountEl_display p;
     noResultsEl_display := noResultsEl_display p;
     loadingEl_display := loadingEl_display p;
     console_errors := console_errors p;
     host_calls := host_calls p |}.

Definition set_tabsList_display (v : display) (p : Page) : Page :=
  {| searchInput_value := searchInput_value p;
     tabsList_content := tabsList_content p;
     tabsList_display := v;
     tabCountEl_text := tabCountEl_text p;
     matchCountEl_text := matchCountEl_text p;
     matchCountEl_display := matchCountEl_display p;
     noResultsEl_display := noResultsEl_display p;
     loadingEl_display := loadingEl_display p;
     console_errors := console_errors p;
     host_calls := host_calls p |}.

Definition set_tabCountEl_text (v : jsstring) (p : Page) : Page :=
  {| searchInput_value := searchInput_value p;
     tabsList_content := tabsList_content p;
     tabsList_display := tabsList_display p;
     tabCountEl_text := v;
     matchCountEl_text := matchCountEl_text p;
     matchCountEl_display := matchCountEl_display p;
     noResultsEl_display := noResultsEl_display p;
     loadingEl_display := loadingEl_display p;
     console_errors := console_errors p;
     host_calls := host_calls p |}.

Definition set_matchCountEl_text (v : jsstring) (p : Page) : Page :=
  {| searchInput_value := searchInput_value p;
     tabsList_content := tabsList_content p;
     tabsList_display := tabsList_display p;
     tabCountEl_text := tabCountEl_text p;
     matchCountEl_text := v;
     matchCountEl_display := matchCountEl_display p;
     noResultsEl_display := noResultsEl_display p;
     loadingEl_display := loadingEl_display p;
     console_errors := console_errors p;
     host_calls := host_calls p |}.

Definition set_matchCountEl_display (v : display) (p : Page) : Page :=
  {| searchInput_value := searchInput_value p;
     tabsList_content := tabsList_content p;
     tabsList_display := tabsList_display p;
     tabCountEl_text := tabCountEl_text p;
     matchCountEl_text := matchCountEl_text p;
     matchCountEl_display := v;
     noResultsEl_display := noResultsEl_display p;
     loadingEl_display := loadingEl_display p;
     console_errors := console_errors p;
     host_calls := host_calls p |}.

Definition set_noResultsEl_display (v : display) (p : Page) : Page :=
  {| searchInput_value := searchInput_value p;
     tabsList_content := tabsList_content p;
     tabsList_display := tabsList_display p;
     tabCountEl_text := tabCountEl_text p;
     matchCountEl_text := matchCountEl_text p;
     matchCountEl_display := matchCountEl_display p;
     noResultsEl_display := v;
     loadingEl_display := loadingEl_display p;
     console_errors := console_errors p;
     host_calls := host_calls p |}.

Definition set_loadingEl_display (v : display) (p : Page) : Page :=
  {| searchInput_value := searchInput_value p;
     tabsList_content := tabsList_content p;
     tabsList_display := tabsList_display p;
     tabCountEl_text := tabCountEl_text p;
     matchCountEl_text := matchCountEl_text p;
     matchCountEl_display := matchCountEl_display p;
     noResultsEl_display := noResultsEl_display p;
     loadingEl_display := v;
     console_errors := console_errors p;
     host_calls := host_calls p |}.

Definition log_error (msg : jsstring) (p : Page) : Page :=
  {| searchInput_value := searchInput_value p;
     tabsList_content := tabsList_content p;
     tabsList_display := tabsList_display p;
     tabCountEl_text := tabCountEl_text p;
     matchCountEl_text := matchCountEl_text p;
     matchCountEl_display := matchCountEl_display p;
     noResultsEl_display := noResultsEl_display p;
     loadingEl_display := loadingEl_display p;
     console_errors := console_errors p ++ [msg];
     host_calls := host_calls p |}.

Definition log_call (c : host_call) (p : Page) : Page :=
  {| searchInput_value := searchInput_value p;
     tabsList_content := tabsList_content p;
     tabsList_display := tabsList_display p;
     tabCountEl_text := tabCountEl_text p;
     matchCountEl_text := matchCountEl_text p;
     matchCountEl_display := matchCountEl_display p;
     noResultsEl_display := noResultsEl_display p;
     loadingEl_display := loadingEl_display p;
     console_errors := console_errors p;
     host_calls := host_calls p ++ [c] |}.

End DOM.

Import DOM.

(* ================================================================== *)
(** * Tabs, and methods as state transformers *)
(* ================================================================== *)

Module Host.

(** A tab record as [chrome.tabs.query] returns it; every field but the
    id may be missing (booleans are read for their truthiness). *)
Record RawTab := {
  raw_id : Z;
  raw_title : option jsstring;
  raw_url : option jsstring;
  raw_favIconUrl : option jsstring;
  raw_windowId : Z;
  raw_active : bool;
  raw_pinned : bool
}.

(** A tab as [loadTabs] stores it. *)
Record Tab := {
  id : Z;
  title : jsstring;
  url : jsstring;
  favIconUrl : option jsstring;
  windowId : Z;
  active : bool;
  pinned : bool
}.

(** [x || d] for a field that may be missing. *)
Definition field_or (x : option jsstring) (d : jsstring) : jsstring :=
  match x with
  | Some s => or_default s d
  | None => d
  end.

(** The truthiness of an optional string. *)
Definition truthy (x : option jsstring) : bool :=
  match x with
  | Some s => negb (is_empty s)
  | None => false
  end.

(** [l.filter(f)] for a callback that may throw: the first exception
    ends the traversal. *)
Fixpoint filter_c {A : Type} (f : A -> completion bool) (l : list A)
  : completion (list A) :=
  match l with
  | [] => Normal []
  | a :: l' =>
      match f a with
      | Normal b =>
          match filter_c f l' with
          | Normal r => Normal (if b then a :: r else r)
          | Throw e => Throw e
          | Unmodelled => Unmodelled
          end
      | Throw e => Throw e
      | Unmodelled => Unmodelled
      end
  end.

Section Methods.

Variable S : Type.

(** A method body: from the object's state to how the call completes and
    the state it leaves. *)
Definition M (A : Type) : Type := S -> completion A * S.

Definition ret {A : Type} (a : A) : M A := fun s => (Normal a, s).

Definition lift {A : Type} (c : completion A) : M A := fun s => (c, s).

Definition bind {A B : Type} (c : M A) (f : A -> M B) : M B :=
  fun s =>
    match c s with
    | (Normal a, s') => f a s'
    | (Throw e, s') => (Throw e, s')
    | (Unmodelled, s') => (Unmodelled, s')
    end.

Definition get : M S := fun s => (Normal s, s).

Definition modify (f : S -> S) : M unit := fun s => (Normal tt, f s).

(** [try { body } catch (e) { handler e }]. *)
Definition try_catch {A : Type} (body : M A) (handler : error -> M A) : M A :=
  fun s =>
    match body s with
    | (Throw e, s') => handler e s'
    | r => r
    end.

(** [try { body } finally { fin }]: [fin] runs however [body] completes. *)
Definition try_finally {A : Type} (body : M A) (fin : M unit) : M A :=
  fun s =>
    match body s with
    | (c, s') =>
        match fin s' with
        | (Normal _, s'') => (c, s'')
        | (Throw e, s'') => (Throw e, s'')
        | (Unmodelled, s'') => (Unmodelled, s'')
        end
    end.

(** [for each x of l: f x], collecting the results. *)
Fixpoint mapM {A B : Type} (f : A -> M B) (l : list A) : M (list B) :=
  match l with
  | [] => ret []
  | a :: l' =>
      bind (f a) (fun b => bind (mapM f l') (fun bs => ret (b :: bs)))
  end.

End Methods.

Arguments ret {S A} a.
Arguments lift {S A} c.
Arguments bind {S A B} c f.
Arguments get {S}.
Arguments modify {S} f.
Arguments try_catch {S A} body handler.
Arguments try_finally {S A} body fin.
Arguments mapM {S A B} f l.

End Host.

Import Host.

Notation "x <- c ;; k" := (bind c (fun x => k))
  (at level 61, c at next level, right associativity).
Notation "c ;;; k" := (bind c (fun _ => k))
  (at level 61, right associativity).

(** The text of the markup and messages both copies share. *)
Definition highlight_template : jsstring :=
  js "<span class=" ++ [dquote] ++ js "highlight" ++ [dquote] ++ js ">$1</span>".

Definition gi_flags : flags := {| global := true; ignoreCase := true |}.
Definition i_flags : flags := {| global := false; ignoreCase := true |}.
Definition g_flags : flags := {| global := true; ignoreCase := false |}.

Definition confirm_message : jsstring :=
  js "Close all other tabs? This action cannot be undone.".

(** [${n} word${n !== 1 ? suffix : empty}]. *)
Definition count_label (n : nat) (word suffix : jsstring) : jsstring :=
  nat_to_string n ++ js " " ++ word ++ (if Nat.eqb n 1 then [] else suffix).

(** [querySelector('.tab-item.keyboard-active')] as an index into
    [querySelectorAll('.tab-item')], or -1. *)
Fixpoint active_index (items : list TabItem) : Z :=
  match items with
  | [] => (-1)%Z
  | it :: rest =>
      if keyboard_active it then 0%Z
      else let i := active_index rest in
           if (i <? 0)%Z then (-1)%Z else (i + 1)%Z
  end.

Definition set_keyboard_active (b : bool) (it : TabItem) : TabItem :=
  {| data_tabId := data_tabId it;
     item_active := item_active it;
     item_favicon := item_favicon it;
     item_title := item_title it;
     item_url := item_url it;
     keyboard_active := b |}.

(** [tabItems[index]] for an integer index: [undefined] outside the list. *)
Definition item_at (items : list TabItem) (index : Z) : option TabItem :=
  if (index <? 0)%Z then None else nth_error items (Z.to_nat index).

(* ================================================================== *)
(** * [TabSearcher], the copy in [popup.js] *)
(* ================================================================== *)

Module Popup.

Record TabSearcher := {
  tabs : list Tab;
  filteredTabs : list Tab;
  currentTabId : option Z;   (* [None] stands for [null] and [undefined] *)
  page : Page
}.

Definition new_TabSearcher : TabSearcher :=
  {| tabs := []; filteredTabs := []; currentTabId := None;
     page := initial_page |}.

Definition with_tabs (v : list Tab) (s : TabSearcher) : TabSearcher :=
  {| tabs := v; filteredTabs := filteredTabs s;
     currentTabId := currentTabId s; page := page s |}.

Definition with_filteredTabs (v : list Tab) (s : TabSearcher) : TabSearcher :=
  {| tabs := tabs s; filteredTabs := v;
     currentTabId := currentTabId s; page := page s |}.

Definition with_currentTabId (v : option Z) (s : TabSearcher) : TabSearcher :=
  {| tabs := tabs s; filteredTabs := filteredTabs s;
     currentTabId := v; page := page s |}.

Definition on_page (f : Page -> Page) (s : TabSearcher) : TabSearcher :=
  {| tabs := tabs s; filteredTabs := filteredTabs s;
     currentTabId := currentTabId s; page := f (page s) |}.

Definition method := M TabSearcher.

(** A call to the host that is awaited: it is recorded, and completes as
    the host decides. *)
Definition await {A : Type} (c : host_call) (outcome : completion A)
  : method A :=
  fun s => (outcome, on_page (log_call c) s).

Definition call (c : host_call) : method unit :=
  modify (on_page (log_call c)).

Definition console_error (label : jsstring) : method unit :=
  modify (on_page (log_error label)).

(** [tab.id === this.currentTabId]. *)
Definition is_current (s : TabSearcher) (t : Tab) : bool :=
  match currentTabId s with
  | Some c => Z.eqb (id t) c
  | None => false
  end.

Definition escapeHtml (text : value) : jsstring :=
  serialize_text (textContent_of text).

Definition highlightText (text query : jsstring) : completion jsstring :=
  if is_empty query then Normal (escapeHtml (VString text))
  else
    let escapedText := escapeHtml (VString text) in
    let escapedQuery := escapeHtml (VString query) in
    match RegExp_new (js "(" ++ escapedQuery ++ js ")") gi_flags with
    | Parsed regex => Normal (replace escapedText regex highlight_template)
    | Invalid msg => Throw (SyntaxError msg)
    | Unsupported => Unmodelled
    end.

Section WithURL.

(** [new URL(url)]: the hostname and the pathname of a string the host
    parses as a URL, [None] when the constructor throws. *)
Variable new_URL : jsstring -> option (jsstring * jsstring).

Definition formatUrl (url : jsstring) : jsstring :=
  match new_URL url with
  | Some (hostname, pathname) => hostname ++ pathname
  | None => url
  end.

Definition showLoading (show : bool) : method unit :=
  modify (on_page (fun p =>
    set_tabsList_display (if show then DisplayNone else DisplayBlock)
      (set_loadingEl_display (if show then DisplayFlex else DisplayNone) p))).

Definition showNoResults (show : bool) : method unit :=
  modify (on_page (fun p =>
    set_tabsList_display (if show then DisplayNone else DisplayBlock)
      (set_noResultsEl_display (if show then DisplayFlex else DisplayNone) p))).

Definition showError (message : jsstring) : method unit :=
  modify (on_page (set_tabsList_content (ErrorPanel message))).

Definition createTabHTML (tab : Tab) : method TabItem :=
  self <- get ;;
  let isActive := is_current self tab in
  let query := trim (toLowerCase (searchInput_value (page self))) in
  highlightedTitle <- lift (highlightText (title tab) query) ;;
  highlightedUrl <- lift (highlightText (formatUrl (url tab)) query) ;;
  ret {| data_tabId := id tab;
         item_active := isActive;
         item_favicon := if truthy (favIconUrl tab) then favIconUrl tab else None;
         item_title := highlightedTitle;
         item_url := highlightedUrl;
         keyboard_active := false |}.

Definition updateStats : method unit :=
  self <- get ;;
  modify (on_page (set_tabCountEl_text
    (count_label (List.length (tabs self)) (js "tab") (js "s")))) ;;;
  let query := trim (searchInput_value (page self)) in
  if negb (is_empty query)
     && negb (Nat.eqb (List.length (filteredTabs self)) (List.length (tabs self)))
  then
    modify (on_page (set_matchCountEl_text
      (count_label (List.length (filteredTabs self)) (js "match") (js "es")))) ;;;
    modify (on_page (set_matchCountEl_display DisplayInline))
  else modify (on_page (set_matchCountEl_display DisplayNone)).

Definition renderTabs : method unit :=
  self <- get ;;
  if Nat.eqb (List.length (filteredTabs self)) 0
     && negb (is_empty (trim (searchInput_value (page self))))
  then showNoResults true
  else
    showNoResults false ;;;
    tabsHtml <- mapM createTabHTML (filteredTabs self) ;;
    modify (on_page (set_tabsList_content (Items tabsHtml))).

Definition updateUI : method unit := updateStats ;;; renderTabs.

Definition store_tab (tab : RawTab) : Tab :=
  {| id := raw_id tab;
     title := field_or (raw_title tab) (js "Untitled");
     url := field_or (raw_url tab) [];
     favIconUrl := raw_favIconUrl tab;
     windowId := raw_windowId tab;
     active := raw_active tab;
     pinned := raw_pinned tab |}.

(** [loadTabs], given how the two queries complete. *)
Definition loadTabs (all_tabs active_tabs : completion (list RawTab))
  : method unit :=
  showLoading true ;;;
  try_finally
    (try_catch
       (tabs <- await TabsQueryAll all_tabs ;;
        found <- await TabsQueryActive active_tabs ;;
        modify (with_currentTabId (option_map raw_id (hd_error found))) ;;;
        modify (with_tabs (map store_tab tabs)) ;;;
        modify (fun s => with_filteredTabs (Popup.tabs s) s) ;;;
        updateUI)
       (fun _ =>
          console_error (js "Error loading tabs:") ;;;
          showError (js "Failed to load tabs")))
    (showLoading false).

Definition filterTabs : method unit :=
  self <- get ;;
  let query := trim (toLowerCase (searchInput_value (page self))) in
  (if is_empty query
   then modify (with_filteredTabs (tabs self))
   else modify (with_filteredTabs
          (filter (fun tab =>
             let titleMatch := includes (toLowerCase (title tab)) query in
             let urlMatch := includes (toLowerCase (url tab)) query in
             titleMatch || urlMatch) (tabs self)))) ;;;
  updateUI.

(** [switchToTab], given how the three host calls complete. *)
Definition switchToTab (tabId : Z) (updated : completion unit)
    (got : completion RawTab) (focused : completion unit) : method unit :=
  try_catch
    (await (TabsUpdate tabId) updated ;;;
     tab <- await (TabsGet tabId) got ;;
     await (WindowsUpdate (raw_windowId tab)) focused ;;;
     call WindowClose)
    (fun _ => console_error (js "Error switching to tab:")).

(** [closeTab], given how the removal completes. *)
Definition closeTab (tabId : Z) (removed : completion unit) : method unit :=
  try_catch
    (await (TabsRemove tabId) removed ;;;
     modify (fun s =>
       with_tabs (filter (fun tab => negb (Z.eqb (id tab) tabId)) (tabs s)) s) ;;;
     modify (fun s =>
       with_filteredTabs
         (filter (fun tab => negb (Z.eqb (id tab) tabId)) (filteredTabs s)) s) ;;;
     updateUI)
    (fun _ => console_error (js "Error closing tab:")).

(** [closeOtherTabs], given the user's answer and how the host calls
    complete. *)
Definition closeOtherTabs (confirmed : bool) (removed : completion unit)
    (all_tabs active_tabs : completion (list RawTab)) : method unit :=
  call (Confirm confirm_message) ;;;
  if negb confirmed then ret tt
  else
    try_catch
      (self <- get ;;
       let tabsToClose :=
         map id (filter (fun tab => negb (is_current self tab) && negb (pinned tab))
                        (tabs self)) in
       if Nat.ltb 0 (List.length tabsToClose) then
         await (TabsRemoveAll tabsToClose) removed ;;;
         loadTabs all_tabs active_tabs
       else ret tt)
      (fun _ => console_error (js "Error closing other tabs:")).

Definition highlightTab (index : Z) : method unit :=
  self <- get ;;
  let tabItems := map (set_keyboard_active false)
                      (tab_items (tabsList_content (page self))) in
  match tabsList_content (page self), item_at tabItems index with
  | Items _, Some it =>
      modify (on_page (set_tabsList_content
        (Items (set_nth (Z.to_nat index) (set_keyboard_active true it) tabItems)))) ;;;
      call (ScrollIntoView (Z.to_nat index))
  | Items _, None => modify (on_page (set_tabsList_content (Items tabItems)))
  | ErrorPanel _, _ => ret tt
  end.

(** [handleKeyNavigation] for a key-down event with the given [key]; the
    host completions are those of the [switchToTab] that Enter starts. *)
Definition handleKeyNavigation (key : jsstring) (updated : completion unit)
    (got : completion RawTab) (focused : completion unit) : method unit :=
  self <- get ;;
  let tabItems := tab_items (tabsList_content (page self)) in
  let currentIndex := active_index tabItems in
  if str_eqb key (js "ArrowDown") then
    call PreventDefault ;;;
    highlightTab (Z.min (currentIndex + 1) (Z.of_nat (List.length tabItems) - 1))
  else if str_eqb key (js "ArrowUp") then
    call PreventDefault ;;;
    highlightTab (Z.max (currentIndex - 1) 0)
  else if str_eqb key (js "Enter") then
    call PreventDefault ;;;
    match item_at tabItems currentIndex, tabItems with
    | Some activeItem, _ => switchToTab (data_tabId activeItem) updated got focused
    | None, first :: _ => switchToTab (data_tabId first) updated got focused
    | None, [] => ret tt
    end
  else if str_eqb key (js "Escape") then call WindowClose
  else ret tt.

End WithURL.

End Popup.

(* ================================================================== *)
(** * [TabSearcher], the copy under [build/] *)
(* ================================================================== *)

Module BuildPopup.

Record TabSearcher := {
  tabs : list Tab;
  filteredTabs : list Tab;
  currentTabId : option Z;   (* [None] stands for [null] *)
  exactMatch : bool;
  page : Page
}.

Definition new_TabSearcher : TabSearcher :=
  {| tabs := []; filteredTabs := []; currentTabId := None;
     exactMatch := false; page := initial_page |}.

Definition with_tabs (v : list Tab) (s : TabSearcher) : TabSearcher :=
  {| tabs := v; filteredTabs := filteredTabs s;
     currentTabId := currentTabId s; exactMatch := exactMatch s;
     page := page s |}.

Definition with_filteredTabs (v : list Tab) (s : TabSearcher) : TabSearcher :=
  {| tabs := tabs s; filteredTabs := v;
     currentTabId := currentTabId s; exactMatch := exactMatch s;
     page := page s |}.

Definition with_currentTabId (v : option Z) (s : TabSearcher) : TabSearcher :=
  {| tabs := tabs s; filteredTabs := filteredTabs s;
     currentTabId := v; exactMatch := exactMatch s; page := page s |}.

Definition with_exactMatch (v : bool) (s : TabSearcher) : TabSearcher :=
  {| tabs := tabs s; filteredTabs := filteredTabs s;
     currentTabId := currentTabId s; exactMatch := v; page := page s |}.

Definition on_page (f : Page -> Page) (s : TabSearcher) : TabSearcher :=
  {| tabs := tabs s; filteredTabs := filteredTabs s;
     currentTabId := currentTabId s; exactMatch := exactMatch s;
     page := f (page s) |}.

Definition method := M TabSearcher.

Definition await {A : Type} (c : host_call) (outcome : completion A)
  : method A :=
  fun s => (outcome, on_page (log_call c) s).

Definition call (c : host_call) : method unit :=
  modify (on_page (log_call c)).

Definition console_error (label : jsstring) : method unit :=
  modify (on_page (log_error label)).

Definition is_current (s : TabSearcher) (t : Tab) : bool :=
  match currentTabId s with
  | Some c => Z.eqb (id t) c
  | None => false
  end.

(** The characters of the class [[.*+?^${}()|[\]\\]]. *)
Definition regexp_specials : list code_unit :=
  [46; 42; 43; 63; 94; 36; 123; 125; 40; 41; 124; 91; 93; 92]%N.

(** [s.replace(/[.*+?^${}()|[\]\\]/g, '\\$&')]: a backslash goes before
    every character of the class. *)
Definition escapeRegExp (s : jsstring) : jsstring :=
  flat_map (fun c => if existsb (N.eqb c) regexp_specials then [92%N; c] else [c]) s.

Definition escapeHtml (text : value) : jsstring :=
  let text := match text with
              | VString s => s
              | other => ToString other
              end in
  replace_char 39%N (js "&#x27;")
    (replace_char 34%N (js "&quot;")
       (replace_char 62%N (js "&gt;")
          (replace_char 60%N (js "&lt;")
             (replace_char 38%N (js "&amp;") text)))).

Definition highlightText (text query : jsstring) : completion jsstring :=
  if is_empty text then Normal []
  else if is_empty query then Normal (escapeHtml (VString text))
  else
    let escapedText := escapeHtml (VString text) in
    let escapedQuery := escapeHtml (VString query) in
    match RegExp_new (js "(" ++ escapedQuery ++ js ")") gi_flags with
    | Parsed regex => Normal (replace escapedText regex highlight_template)
    | Invalid msg => Throw (SyntaxError msg)
    | Unsupported => Unmodelled
    end.

(** The callback of [filterTabs]. *)
Definition tab_matches (exact : bool) (query : jsstring) (tab : Tab)
  : completion bool :=
  let title := or_default (title tab) [] in
  let url := or_default (url tab) [] in
  if exact then
    match RegExp_new (js "\b" ++ escapeRegExp query ++ js "\b") i_flags with
    | Parsed wordRegex => Normal (test wordRegex title || test wordRegex url)
    | Invalid msg => Throw (SyntaxError msg)
    | Unsupported => Unmodelled
    end
  else
    let titleMatch := includes (toLowerCase title) query in
    let urlMatch := includes (toLowerCase url) query in
    Normal (titleMatch || urlMatch).

Section WithURL.

Variable new_URL : jsstring -> option (jsstring * jsstring).

Definition formatUrl (url : jsstring) : jsstring :=
  if is_empty url then []
  else
    match new_URL url with
    | Some (hostname, pathname) => hostname ++ pathname
    | None => url
    end.

Definition showLoading (show : bool) : method unit :=
  modify (on_page (fun p =>
    set_tabsList_display (if show then DisplayNone else DisplayBlock)
      (set_loadingEl_display (if show then DisplayFlex else DisplayNone) p))).

Definition showNoResults (show : bool) : method unit :=
  modify (on_page (fun p =>
    set_tabsList_display (if show then DisplayNone else DisplayBlock)
      (set_noResultsEl_display (if show then DisplayFlex else DisplayNone) p))).

Definition showError (message : jsstring) : method unit :=
  modify (on_page (set_tabsList_content (ErrorPanel message))).

Definition createTabHTML (tab : Tab) : method TabItem :=
  self <- get ;;
  let isActive := is_current self tab in
  let query := trim (toLowerCase (searchInput_value (page self))) in
  let title := or_default (title tab) (js "Untitled") in
  let url := or_default (url tab) [] in
  highlightedTitle <- lift (highlightText title query) ;;
  highlightedUrl <- lift (highlightText (formatUrl url) query) ;;
  ret {| data_tabId := id tab;
         item_active := isActive;
         item_favicon := if truthy (favIconUrl tab) then favIconUrl tab else None;
         item_title := highlightedTitle;
         item_url := highlightedUrl;
         keyboard_active := false |}.

Definition updateStats : method unit :=
  self <- get ;;
  modify (on_page (set_tabCountEl_text
    (count_label (List.length (filteredTabs self)) (js "tab") (js "s")))) ;;;
  let query := trim (searchInput_value (page self)) in
  if negb (is_empty query)
     && negb (Nat.eqb (List.length (filteredTabs self)) (List.length (tabs self)))
  then
    modify (on_page (set_matchCountEl_text
      (count_label (List.length (filteredTabs self)) (js "match") (js "es")))) ;;;
    modify (on_page (set_matchCountEl_display DisplayInline))
  else modify (on_page (set_matchCountEl_display DisplayNone)).

Definition renderTabs : method unit :=
  self <- get ;;
  if Nat.eqb (List.length (filteredTabs self)) 0
     && negb (is_empty (trim (searchInput_value (page self))))
  then showNoResults true
  else
    showNoResults false ;;;
    tabsHtml <- mapM createTabHTML (filteredTabs self) ;;
    modify (on_page (set_tabsList_content (Items tabsHtml))).

Definition updateUI : method unit := updateStats ;;; renderTabs.

Definition store_tab (tab : RawTab) : Tab :=
  {| id := raw_id tab;
     title := field_or (raw_title tab) (js "Untitled");
     url := field_or (raw_url tab) [];
     favIconUrl := raw_favIconUrl tab;
     windowId := raw_windowId tab;
     active := raw_active tab;
     pinned := raw_pinned tab |}.

(** [activeTab?.id || null]: no tab, or the id 0, gives [null]. *)
Definition active_id (found : list RawTab) : option Z :=
  match found with
  | activeTab :: _ => if Z.eqb (raw_id activeTab) 0 then None
                      else Some (raw_id activeTab)
  | [] => None
  end.

Definition loadTabs (all_tabs active_tabs : completion (list RawTab))
  : method unit :=
  showLoading true ;;;
  try_finally
    (try_catch
       (tabs <- await TabsQueryAll all_tabs ;;
        found <- await TabsQueryActive active_tabs ;;
        modify (with_currentTabId (active_id found)) ;;;
        modify (with_tabs (map store_tab tabs)) ;;;
        modify (fun s => with_filteredTabs (BuildPopup.tabs s) s) ;;;
        updateUI)
       (fun _ =>
          console_error (js "Error loading tabs:") ;;;
          showError (js "Failed to load tabs")))
    (showLoading false).

Definition filterTabs : method unit :=
  self <- get ;;
  let query := trim (toLowerCase (searchInput_value (page self))) in
  let exact := exactMatch self in
  (if is_empty query
   then modify (with_filteredTabs (tabs self))
   else
     kept <- lift (filter_c (tab_matches exact query) (tabs self)) ;;
     modify (with_filteredTabs kept)) ;;;
  updateUI.

(** The click listener of the exact-match button. *)
Definition exactMatchBtn_click : method unit :=
  modify (fun s => with_exactMatch (negb (exactMatch s)) s) ;;;
  filterTabs.

Definition switchToTab (tabId : Z) (updated : completion unit)
    (got : completion RawTab) (focused : completion unit) : method unit :=
  try_catch
    (await (TabsUpdate tabId) updated ;;;
     tab <- await (TabsGet tabId) got ;;
     await (WindowsUpdate (raw_windowId tab)) focused ;;;
     call WindowClose)
    (fun _ => console_error (js "Error switching to tab:")).

Definition closeTab (tabId : Z) (removed : completion unit) : method unit :=
  try_catch
    (await (TabsRemove tabId) removed ;;;
     modify (fun s =>
       with_tabs (filter (fun tab => negb (Z.eqb (id tab) tabId)) (tabs s)) s) ;;;
     modify (fun s =>
       with_filteredTabs
         (filter (fun tab => negb (Z.eqb (id tab) tabId)) (filteredTabs s)) s) ;;;
     updateUI)
    (fun _ => console_error (js "Error closing tab:")).

Definition closeOtherTabs (confirmed : bool) (removed : completion unit)
    (all_tabs active_tabs : completion (list RawTab)) : method unit :=
  call (Confirm confirm_message) ;;;
  if negb confirmed then ret tt
  else
    try_catch
      (self <- get ;;
       let tabsToClose :=
         map id (filter (fun tab => negb (is_current self tab) && negb (pinned tab))
                        (tabs self)) in
       if Nat.ltb 0 (List.length tabsToClose)
          && match currentTabId self with Some _ => true | None => false end
       then
         await (TabsRemoveAll tabsToClose) removed ;;;
         loadTabs all_tabs active_tabs
       else ret tt)
      (fun _ => console_error (js "Error closing other tabs:")).

Definition highlightTab (index : Z) : method unit :=
  self <- get ;;
  let tabItems := map (set_keyboard_active false)
                      (tab_items (tabsList_content (page self))) in
  match tabsList_content (page self), item_at tabItems index with
  | Items _, Some it =>
      modify (on_page (set_tabsList_content
        (Items (set_nth (Z.to_nat index) (set_keyboard_active true it) tabItems)))) ;;;
      call (ScrollIntoView (Z.to_nat index))
  | Items _, None => modify (on_page (set_tabsList_content (Items tabItems)))
  | ErrorPanel _, _ => ret tt
  end.

Definition handleKeyNavigation (key : jsstring) (updated : completion unit)
    (got : completion RawTab) (focused : completion unit) : method unit :=
  self <- get ;;
  let tabItems := tab_items (tabsList_content (page self)) in
  let currentIndex := active_index tabItems in
  if str_eqb key (js "ArrowDown") then
    call PreventDefault ;;;
    highlightTab (Z.min (currentIndex + 1) (Z.of_nat (List.length tabItems) - 1))
  else if str_eqb key (js "ArrowUp") then
    call PreventDefault ;;;
    highlightTab (Z.max (currentIndex - 1) 0)
  else if str_eqb key (js "Enter") then
    call PreventDefault ;;;
    match item_at tabItems currentIndex, tabItems with
    | Some activeItem, _ => switchToTab (data_tabId activeItem) updated got focused
    | None, first :: _ => switchToTab (data_tabId first) updated got focused
    | None, [] => ret tt
    end
  else if str_eqb key (js "Escape") then call WindowClose
  else ret tt.

End WithURL.

End BuildPopup.

(* ================================================================== *)
(** * The listeners of [popup.js] *)
(* ================================================================== *)

Module PopupEvents.

(** How the host answers the calls that one listener makes. *)
Record answers := {
  confirmed : bool;
  removed : completion unit;
  all_tabs : completion (list RawTab);
  active_tabs : completion (list RawTab);
  updated : completion unit;
  got : completion RawTab;
  focused : completion unit
}.

(** What reaches the listeners that [setupEventListeners] and [renderTabs]
    register: an edit of the search box (the box holds [value] when the
    listener runs), a key pressed in it, a click on one of the two buttons,
    and a click on the [index]-th rendered item, outside or on its close
    button. *)
Inductive event :=
| Input (value : jsstring)
| KeyDown (key : jsstring)
| RefreshClick
| CloseOthersClick
| ItemClick (index : nat)
| CloseButtonClick (index : nat).

Section WithURL.

Variable new_URL : jsstring -> option (jsstring * jsstring).

(** [init], once the elements are looked up and the listeners set. *)
Definition init (a : answers) : Popup.method unit :=
  Popup.loadTabs new_URL (all_tabs a) (active_tabs a).

(** [parseInt(tabEl.dataset.tabId, 10)] of the [index]-th item. *)
Definition listener_tabId (s : Popup.TabSearcher) (index : nat) : option Z :=
  option_map data_tabId
    (nth_error (tab_items (tabsList_content (Popup.page s))) index).

(** The listener that an event runs, to its end. *)
Definition dispatch (e : event) (a : answers) : Popup.method unit :=
  match e with
  | Input value =>
      modify (Popup.on_page (set_searchInput_value value)) ;;;
      Popup.filterTabs new_URL
  | KeyDown key =>
      Popup.handleKeyNavigation key (updated a) (got a) (focused a)
  | RefreshClick => Popup.loadTabs new_URL (all_tabs a) (active_tabs a)
  | CloseOthersClick =>
      Popup.closeOtherTabs new_URL (confirmed a) (removed a)
        (all_tabs a) (active_tabs a)
  | ItemClick index =>
      self <- get ;;
      match listener_tabId self index with
      | Some tabId => Popup.switchToTab tabId (updated a) (got a) (focused a)
      | None => ret tt
      end
  | CloseButtonClick index =>
      self <- get ;;
      match listener_tabId self index with
      | Some tabId => Popup.closeTab new_URL tabId (removed a)
      | None => ret tt
      end
  end.

End WithURL.

End PopupEvents.

(* ================================================================== *)
(** * The listeners of [popup.js], one step at a time *)
(* ================================================================== *)

(** An [async] method runs up to its first [await] and gives the control
    back; what follows the [await] runs when the host has answered, and
    meanwhile other listeners and other answers have their turn.  Here
    every method is cut at its [await]s: a step runs from one to the
    next, without interruption, and says which answer the method waits
    for now. *)
Module PopupAsync.

(** The calls a method can be waiting for. *)
Inductive task :=
| QueryAll                          (* [loadTabs], its first query *)
| QueryActive (tabs : list RawTab)  (* [loadTabs], its second query *)
| Update (tabId : Z)                (* [switchToTab], [chrome.tabs.update] *)
| Get (tabId : Z)                   (* [switchToTab], [chrome.tabs.get] *)
| Focus                             (* [switchToTab], [chrome.windows.update] *)
| Remove (tabId : Z)                (* [closeTab] *)
| RemoveOthers.                     (* [closeOtherTabs] *)

(** What reaches the listeners.  A click on an item, or on its close
    button, comes with the id that [renderTabs] read from the item when
    it set the listener: any id here.  The click on the button to close
    the others comes with the user's answer to [confirm]. *)
Inductive event :=
| Input (value : jsstring)
| KeyDown (key : jsstring)
| RefreshClick
| CloseOthersClick (confirmed : bool)
| ItemClick (tabId : Z)
| CloseButtonClick (tabId : Z).

(** A step: what it does to the object, and the answers it leaves the
    method waiting for. *)
Definition step := Popup.method (list task).

Definition finished (m : Popup.method unit) : step := m ;;; ret [].

(** Whether the task is one of the two queries of [loadTabs]. *)
Definition is_query (t : task) : bool :=
  match t with
  | QueryAll | QueryActive _ => true
  | _ => false
  end.

Section WithURL.

Variable new_URL : jsstring -> option (jsstring * jsstring).

(** The [catch] block of [loadTabs]. *)
Definition loadTabs_catch : Popup.method unit :=
  Popup.console_error (js "Error loading tabs:") ;;;
  Popup.showError (js "Failed to load tabs").

(** [loadTabs] up to its first [await]. *)
Definition loadTabs_start : step :=
  Popup.showLoading true ;;;
  Popup.call TabsQueryAll ;;;
  ret [QueryAll].

(** [loadTabs] from the answer to its first query. *)
Definition loadTabs_queried (all_tabs : completion (list RawTab)) : step :=
  match all_tabs with
  | Normal tabs => Popup.call TabsQueryActive ;;; ret [QueryActive tabs]
  | failed =>
      finished
        (try_finally
           (try_catch (lift failed ;;; ret tt) (fun _ => loadTabs_catch))
           (Popup.showLoading false))
  end.

(** [loadTabs] from the answer to its second query. *)
Definition loadTabs_answered (tabs : list RawTab)
    (active_tabs : completion (list RawTab)) : step :=
  finished
    (try_finally
       (try_catch
          (found <- lift active_tabs ;;
           modify (Popup.with_currentTabId (option_map raw_id (hd_error found))) ;;;
           modify (Popup.with_tabs (map Popup.store_tab tabs)) ;;;
           modify (fun s => Popup.with_filteredTabs (Popup.tabs s) s) ;;;
           Popup.updateUI new_URL)
          (fun _ => loadTabs_catch))
       (Popup.showLoading false)).

Definition switchToTab_catch : Popup.method unit :=
  Popup.console_error (js "Error switching to tab:").

Definition switchToTab_start (tabId : Z) : step :=
  Popup.call (TabsUpdate tabId) ;;; ret [Update tabId].

Definition switchToTab_updated (tabId : Z) (updated : completion unit) : step :=
  match updated with
  | Normal _ => Popup.call (TabsGet tabId) ;;; ret [Get tabId]
  | failed =>
      finished (try_catch (lift failed) (fun _ => switchToTab_catch))
  end.

Definition switchToTab_got (got : completion RawTab) : step :=
  match got with
  | Normal tab => Popup.call (WindowsUpdate (raw_windowId tab)) ;;; ret [Focus]
  | failed =>
      finished
        (try_catch (lift failed ;;; ret tt) (fun _ => switchToTab_catch))
  end.

Definition switchToTab_focused (focused : completion unit) : step :=
  finished
    (try_catch (lift focused ;;; Popup.call WindowClose)
               (fun _ => switchToTab_catch)).

Definition closeTab_start (tabId : Z) : step :=
  Popup.call (TabsRemove tabId) ;;; ret [Remove tabId].

Definition closeTab_removed (tabId : Z) (removed : completion unit) : step :=
  finished
    (try_catch
       (lift removed ;;;
        modify (fun s =>
          Popup.with_tabs
            (filter (fun tab => negb (Z.eqb (id tab) tabId)) (Popup.tabs s)) s) ;;;
        modify (fun s =>
          Popup.with_filteredTabs
            (filter (fun tab => negb (Z.eqb (id tab) tabId))
                    (Popup.filteredTabs s)) s) ;;;
        Popup.updateUI new_URL)
       (fun _ => Popup.console_error (js "Error closing tab:"))).

Definition closeOtherTabs_start (confirmed : bool) : step :=
  Popup.call (Confirm confirm_message) ;;;
  if negb confirmed then ret []
  else
    self <- get ;;
    let tabsToClose :=
      map id (filter (fun tab => negb (Popup.is_current self tab)
                                 && negb (pinned tab))
                     (Popup.tabs self)) in
    if Nat.ltb 0 (List.length tabsToClose) then
      Popup.call (TabsRemoveAll tabsToClose) ;;; ret [RemoveOthers]
    else ret [].

(** [closeOtherTabs] from the answer to its removal: [await
    this.loadTabs()] starts [loadTabs], which never rejects, and nothing
    follows it. *)
Definition closeOtherTabs_removed (removed : completion unit) : step :=
  match removed with
  | Normal _ => loadTabs_start
  | failed =>
      finished
        (try_catch (lift failed)
           (fun _ => Popup.console_error (js "Error closing other tabs:")))
  end.

(** [handleKeyNavigation]: Enter starts [switchToTab] and does not wait
    for it. *)
Definition handleKeyNavigation (key : jsstring) : step :=
  self <- get ;;
  let tabItems := tab_items (tabsList_content (Popup.page self)) in
  let currentIndex := active_index tabItems in
  if str_eqb key (js "ArrowDown") then
    finished
      (Popup.call PreventDefault ;;;
       Popup.highlightTab
         (Z.min (currentIndex + 1) (Z.of_nat (List.length tabItems) - 1)))
  else if str_eqb key (js "ArrowUp") then
    finished
      (Popup.call PreventDefault ;;;
       Popup.highlightTab (Z.max (currentIndex - 1) 0))
  else if str_eqb key (js "Enter") then
    Popup.call PreventDefault ;;;
    match item_at tabItems currentIndex, tabItems with
    | Some activeItem, _ => switchToTab_start (data_tabId activeItem)
    | None, first :: _ => switchToTab_start (data_tabId first)
    | None, [] => ret []
    end
  else if str_eqb key (js "Escape") then finished (Popup.call WindowClose)
  else ret [].

(** The step that an event starts. *)
Definition start (e : event) : step :=
  match e with
  | Input value =>
      finished
        (modify (Popup.on_page (set_searchInput_value value)) ;;;
         Popup.filterTabs new_URL)
  | KeyDown key => handleKeyNavigation key
  | RefreshClick => loadTabs_start
  | CloseOthersClick confirmed => closeOtherTabs_start confirmed
  | ItemClick tabId => switchToTab_start tabId
  | CloseButtonClick tabId => closeTab_start tabId
  end.

(** The step that the host's answer to a call starts. *)
Definition resume (t : task) (a : PopupEvents.answers) : step :=
  match t with
  | QueryAll => loadTabs_queried (PopupEvents.all_tabs a)
  | QueryActive tabs => loadTabs_answered tabs (PopupEvents.active_tabs a)
  | Update tabId => switchToTab_updated tabId (PopupEvents.updated a)
  | Get tabId => switchToTab_got (PopupEvents.got a)
  | Focus => switchToTab_focused (PopupEvents.focused a)
  | Remove tabId => closeTab_removed tabId (PopupEvents.removed a)
  | RemoveOthers => closeOtherTabs_removed (PopupEvents.removed a)
  end.

(** The popup between two steps: the object, and the calls still to be
    answered. *)
Record system := {
  object : Popup.TabSearcher;
  waiting : list task
}.

Definition tasks_of (c : completion (list task)) : list task :=
  match c with
  | Normal l => l
  | _ => []
  end.

(** The system after a step run on its object, [others] being the calls
    that were waiting and still are. *)
Definition after (r : completion (list task) * Popup.TabSearcher)
    (others : list task) : system :=
  {| object := snd r; waiting := others ++ tasks_of (fst r) |}.

(** The constructor: the listeners are set and [init] has run up to the
    first [await] of [loadTabs]. *)
Definition constructed : system :=
  after (loadTabs_start Popup.new_TabSearcher) [].

(** The first call waiting is answered, and so on [n] times: a listener
    run with nothing in between. *)
Fixpoint settle (n : nat) (a : PopupEvents.answers) (sys : system) : system :=
  match n, waiting sys with
  | S n', t :: later => settle n' a (after (resume t a (object sys)) later)
  | _, _ => sys
  end.

End WithURL.

End PopupAsync.

(* ================================================================== *)
(** * The vocabulary of the specification *)
(* ================================================================== *)

Module Spec.

(** [q] occurs in [s]. *)
Definition Substring (q s : jsstring) : Prop :=
  exists pre post, s = pre ++ q ++ post.

(** [s] contains [q] when the case of both is set aside. *)
Definition ContainsCI (s q : jsstring) : Prop :=
  Substring (toLowerCase q) (toLowerCase s).

(** [r] is made of exactly the elements of [l] that satisfy [P], in the
    order of [l]. *)
Inductive Filtered {A : Type} (P : A -> Prop) : list A -> list A -> Prop :=
| Filtered_nil : Filtered P [] []
| Filtered_keep : forall a l r, P a -> Filtered P l r -> Filtered P (a :: l) (a :: r)
| Filtered_drop : forall a l r, ~ P a -> Filtered P l r -> Filtered P (a :: l) r.

(** [r] is [l] with some elements left out. *)
Inductive Subsequence {A : Type} : list A -> list A -> Prop :=
| Subsequence_nil : Subsequence [] []
| Subsequence_keep : forall a r l, Subsequence r l -> Subsequence (a :: r) (a :: l)
| Subsequence_drop : forall a r l, Subsequence r l -> Subsequence r (a :: l).

(** The tab matches the query in substring mode. *)
Definition SubstringMatch (q : jsstring) (t : Tab) : Prop :=
  ContainsCI (title t) q \/ ContainsCI (url t) q.

(** The character-by-character reading of [escapeHtml]. *)
Definition html_entity (c : code_unit) : jsstring :=
  if N.eqb c 38 then js "&amp;"
  else if N.eqb c 60 then js "&lt;"
  else if N.eqb c 62 then js "&gt;"
  else if N.eqb c 34 then js "&quot;"
  else if N.eqb c 39 then js "&#x27;"
  else [c].

Definition escape_each (s : jsstring) : jsstring := flat_map html_entity s.

(** The calls of a trace that ask the host to close tabs. *)
Definition close_calls (calls : list host_call) : list host_call :=
  filter (fun c => match c with
                   | TabsRemove _ | TabsRemoveAll _ => true
                   | _ => false
                   end) calls.

(** Two strings are equal when the case of their code units is set aside,
    in the sense of the [i] flag. *)
Definition eq_ci (a b : jsstring) : Prop :=
  map (Canonicalize true) a = map (Canonicalize true) b.

Definition last_is_word (s : jsstring) : bool :=
  match rev s with
  | c :: _ => isWordChar c
  | [] => false
  end.

Definition first_is_word (s : jsstring) : bool :=
  match s with
  | c :: _ => isWordChar c
  | [] => false
  end.

(** [s] holds a copy of [q], up to case, with a word boundary on each
    side: of the characters next to each end of the copy, one inside and
    one outside, exactly one is a word character (the ends of [s] count as
    non-word characters). *)
Definition BoundedOccurrence (q s : jsstring) : Prop :=
  exists pre mid post,
    s = pre ++ mid ++ post /\ eq_ci mid q /\
    last_is_word pre <> first_is_word (mid ++ post) /\
    last_is_word (pre ++ mid) <> first_is_word post.

(** [s] holds a copy of [q], up to case, as a whole word: no word
    character comes right before or right after the copy. *)
Definition WholeWord (q s : jsstring) : Prop :=
  exists pre mid post,
    s = pre ++ mid ++ post /\ eq_ci mid q /\
    last_is_word pre = false /\ first_is_word post = false.

(** The text [s] with every copy of [q], up to case, wrapped in the
    highlight element, reading from the left and skipping over each copy
    found. *)
Definition highlight_open : jsstring :=
  js "<span class=" ++ [dquote] ++ js "highlight" ++ [dquote] ++ js ">".

Definition highlight_close : jsstring := js "</span>".

Fixpoint starts_ci (s q : jsstring) : bool :=
  match q, s with
  | [], _ => true
  | _ :: _, [] => false
  | c :: q', d :: s' =>
      N.eqb (Canonicalize true d) (Canonicalize true c) && starts_ci s' q'
  end.

Fixpoint wrap_occurrences (fuel : nat) (q s : jsstring) : jsstring :=
  match fuel with
  | O => s
  | S fuel' =>
      match s with
      | [] => []
      | c :: s' =>
          if starts_ci s q
          then highlight_open ++ firstn (List.length q) s ++ highlight_close
               ++ wrap_occurrences fuel' q (skipn (List.length q) s)
          else c :: wrap_occurrences fuel' q s'
      end
  end.

Definition highlighted (q s : jsstring) : jsstring :=
  wrap_occurrences (List.length s) q s.

(** What rendering leaves alone: the model of the tabs, the search box,
    the loading indicator, the console and the host. *)
Definition popup_ui_only (s s' : Popup.TabSearcher) : Prop :=
  Popup.tabs s' = Popup.tabs s /\
  Popup.filteredTabs s' = Popup.filteredTabs s /\
  Popup.currentTabId s' = Popup.currentTabId s /\
  searchInput_value (Popup.page s') = searchInput_value (Popup.page s) /\
  loadingEl_display (Popup.page s') = loadingEl_display (Popup.page s) /\
  console_errors (Popup.page s') = console_errors (Popup.page s) /\
  host_calls (Popup.page s') = host_calls (Popup.page s).

(** The same for the [build/] copy. *)
Definition build_ui_only (s s' : BuildPopup.TabSearcher) : Prop :=
  BuildPopup.tabs s' = BuildPopup.tabs s /\
  BuildPopup.filteredTabs s' = BuildPopup.filteredTabs s /\
  BuildPopup.currentTabId s' = BuildPopup.currentTabId s /\
  BuildPopup.exactMatch s' = BuildPopup.exactMatch s /\
  searchInput_value (BuildPopup.page s') = searchInput_value (BuildPopup.page s) /\
  loadingEl_display (BuildPopup.page s') = loadingEl_display (BuildPopup.page s) /\
  console_errors (BuildPopup.page s') = console_errors (BuildPopup.page s) /\
  host_calls (BuildPopup.page s') = host_calls (BuildPopup.page s).

(** The search box of the popup holding [q], over the tabs [T]. *)
Definition popup_searching (T : list Tab) (q : jsstring) : Popup.TabSearcher :=
  Popup.on_page (set_searchInput_value q)
    (Popup.with_filteredTabs T (Popup.with_tabs T Popup.new_TabSearcher)).

(** The same for the [build/] copy, with its mode. *)
Definition build_searching (exact : bool) (T : list Tab) (q : jsstring)
  : BuildPopup.TabSearcher :=
  BuildPopup.on_page (set_searchInput_value q)
    (BuildPopup.with_exactMatch exact
       (BuildPopup.with_filteredTabs T
          (BuildPopup.with_tabs T BuildPopup.new_TabSearcher))).

(** A tab with the given id, title, address and pin. *)
Definition a_tab (i : Z) (t u : jsstring) (p : bool) : Tab :=
  {| id := i; title := t; url := u; favIconUrl := None;
     windowId := 1%Z; active := false; pinned := p |}.

(** A host parser that accepts nothing, for examples whose addresses do
    not parse as URLs. *)
Definition no_URL : jsstring -> option (jsstring * jsstring) :=
  fun _ => None.


(** Three rendered items, none selected. *)
Definition three_items : Popup.TabSearcher :=
  Popup.on_page
    (set_tabsList_content
       (Items (map (fun i => {| data_tabId := i; item_active := false;
                                item_favicon := None; item_title := [];
                                item_url := []; keyboard_active := false |})
                   [1%Z; 2%Z; 3%Z])))
    Popup.new_TabSearcher.

(** [this.tabsList.querySelectorAll('.tab-item')]. *)
Definition popup_items (s : Popup.TabSearcher) : list TabItem :=
  tab_items (tabsList_content (Popup.page s)).

(** The tabs [closeOtherTabs] is to close: those that are not the current
    one and are not pinned, by id, in the order of the list. *)
Definition OtherTabs (current : option Z) (T : list Tab) (ids : list Z) : Prop :=
  exists kept,
    Filtered (fun t => Some (id t) <> current /\ pinned t = false) T kept /\
    ids = map id kept.

(** Two tabs, the second pinned, in a popup that knows no current tab. *)
Definition no_current_tab : Popup.TabSearcher :=
  Popup.with_tabs [a_tab 1 (js "Inbox") [] false; a_tab 2 (js "Docs") [] true]
    Popup.new_TabSearcher.

(** What is left of the pattern does not begin with a quantifier. *)
Definition quantifier_free_head (l : jsstring) : Prop :=
  match l with
  | [] => True
  | c :: _ => c <> 42%N /\ c <> 43%N /\ c <> 63%N /\ c <> 123%N
  end.

(** The pattern of the exact mode: a word boundary, the characters of the
    query, a word boundary. *)
Definition word_pattern (q : jsstring) : regex :=
  Seq (WordBoundary false) (mkSeq (map Char q ++ [WordBoundary false])).

(** The code units that have a capital one position 32 below. *)
Definition small_letter (c : code_unit) : Prop :=
  (97 <= c <= 122)%N \/ ((224 <= c <= 254)%N /\ c <> 247%N).

(** Whether a word boundary lies at index [i] of [inp]. *)
Definition boundary_at (inp : jsstring) (i : nat) : bool :=
  xorb (IsWordCharBefore inp i) (IsWordCharAt inp i).

(** The test the exact mode applies to a tab. *)
Definition exact_test (q : jsstring) (t : Tab) : bool :=
  let wordRegex := {| re_body := word_pattern q; re_ncap := 0;
                      re_flags := i_flags |} in
  test wordRegex (title t) || test wordRegex (url t).

(** The tab holds the query, in its title or its address, with a word
    boundary on each side. *)
Definition BoundedMatch (q : jsstring) (t : Tab) : Prop :=
  BoundedOccurrence q (title t) \/ BoundedOccurrence q (url t).

(** Two tabs: "rust" is a word of the first title and only a part of a
    word in the second. *)
Definition rust_tabs : list Tab :=
  [a_tab 1 (js "The Rust book") [] false; a_tab 2 (js "Trusted sites") [] false].

(** A tab whose title begins with "c++". *)
Definition cpp_tab : Tab := a_tab 1 (js "c++ rocks") [] false.

(** No character of the string means anything to the pattern syntax. *)
Definition plain (s : jsstring) : Prop :=
  Forall (fun c => is_syntax_char c = false) s.

(** The pattern of [highlightText] for a plain query: the characters of
    the query in the first group. *)
Definition group_pattern (q : jsstring) : regex :=
  Seq (Group 0 (mkSeq (map Char q))) Empty.

(** The number of rendered items that carry the [keyboard-active] class. *)
Definition selected_items (items : list TabItem) : nat :=
  List.length (filter keyboard_active items).

(** What a call that only speaks to the host and to the console leaves
    alone: everything else. *)
Definition popup_host_only (s s' : Popup.TabSearcher) : Prop :=
  Popup.tabs s' = Popup.tabs s /\
  Popup.filteredTabs s' = Popup.filteredTabs s /\
  Popup.currentTabId s' = Popup.currentTabId s /\
  searchInput_value (Popup.page s') = searchInput_value (Popup.page s) /\
  tabsList_content (Popup.page s') = tabsList_content (Popup.page s) /\
  tabsList_display (Popup.page s') = tabsList_display (Popup.page s) /\
  tabCountEl_text (Popup.page s') = tabCountEl_text (Popup.page s) /\
  matchCountEl_text (Popup.page s') = matchCountEl_text (Popup.page s) /\
  matchCountEl_display (Popup.page s') = matchCountEl_display (Popup.page s) /\
  noResultsEl_display (Popup.page s') = noResultsEl_display (Popup.page s) /\
  loadingEl_display (Popup.page s') = loadingEl_display (Popup.page s).

(** Answers of a host on which every call succeeds, for two open tabs of
    which the second is the active one. *)
Definition two_raw_tabs : list RawTab :=
  [ {| raw_id := 7; raw_title := Some (js "Inbox"); raw_url := None;
       raw_favIconUrl := None; raw_windowId := 1; raw_active := false;
       raw_pinned := false |};
    {| raw_id := 9; raw_title := None; raw_url := Some (js "https://a.b/c");
       raw_favIconUrl := None; raw_windowId := 1; raw_active := true;
       raw_pinned := true |} ].

Definition willing_host : PopupEvents.answers :=
  {| PopupEvents.confirmed := true;
     PopupEvents.removed := Normal tt;
     PopupEvents.all_tabs := Normal two_raw_tabs;
     PopupEvents.active_tabs := Normal (skipn 1 two_raw_tabs);
     PopupEvents.updated := Normal tt;
     PopupEvents.got := Normal {| raw_id := 7; raw_title := None; raw_url := None;
                      raw_favIconUrl := None; raw_windowId := 1;
                      raw_active := false; raw_pinned := false |};
     PopupEvents.focused := Normal tt |}.

(** One tab whose title holds a parenthesis, and an opening parenthesis in
    the search box. *)
Definition paren_search : Popup.TabSearcher :=
  popup_searching [a_tab 1 (js "f(x)") [] false] (js "(").

(** A tab whose title holds a question mark, under the query made of a
    question mark. *)
Definition question_search : Popup.TabSearcher :=
  popup_searching [a_tab 1 (js "what?") [] false] (js "?").

(** The two tabs of [rust_tabs] under the query "rust", which both match. *)
Definition rust_search : Popup.TabSearcher :=
  popup_searching rust_tabs (js "rust").

(** The object of the [build/] copy seen as one of [popup.js]: the same
    fields, without the mode. *)
Definition popup_of_build (s : BuildPopup.TabSearcher) : Popup.TabSearcher :=
  {| Popup.tabs := BuildPopup.tabs s;
     Popup.filteredTabs := BuildPopup.filteredTabs s;
     Popup.currentTabId := BuildPopup.currentTabId s;
     Popup.page := BuildPopup.page s |}.

(** A call of the [build/] copy and the same call of [popup.js] end in
    the same way and leave the same object, the mode being untouched. *)
Definition same_outcome {A : Type} (s : BuildPopup.TabSearcher)
    (b : completion A * BuildPopup.TabSearcher)
    (p : completion A * Popup.TabSearcher) : Prop :=
  fst b = fst p /\
  popup_of_build (snd b) = snd p /\
  BuildPopup.exactMatch (snd b) = BuildPopup.exactMatch s.

(** The strings over which the case tables of [JS] are those of the host:
    every code unit lies in U+0000 to U+00FF. *)
Definition latin1 (s : jsstring) : Prop := Forall (fun c => (c < 256)%N) s.

Definition latin1_tab (t : Tab) : Prop := latin1 (title t) /\ latin1 (url t).

(** The capital letters of that range: A to Z, and U+00C0 to U+00DE but
    the multiplication sign.  Each has its small letter 32 places up. *)
Definition capital (c : code_unit) : Prop :=
  (65 <= c <= 90)%N \/ ((192 <= c <= 222)%N /\ c <> 215%N).

(** The same letter, in the same case or not. *)
Definition same_letter (c d : code_unit) : Prop :=
  c = d \/ (capital c /\ d = (c + 32)%N) \/ (capital d /\ c = (d + 32)%N).

(** [s] holds a copy of [q], letter for letter, when case is set aside. *)
Definition HoldsUpToCase (s q : jsstring) : Prop :=
  exists pre mid post, s = pre ++ mid ++ post /\ Forall2 same_letter mid q.

(** The title or the address of the tab holds such a copy. *)
Definition TabHolds (q : jsstring) (t : Tab) : Prop :=
  HoldsUpToCase (title t) q \/ HoldsUpToCase (url t) q.

Definition no_space_first (q : jsstring) : Prop :=
  match q with
  | [] => True
  | c :: _ => isWhiteSpace c = false
  end.

(** [q] is [v] without the white space at its two ends. *)
Definition Trimmed (v q : jsstring) : Prop :=
  exists pre post,
    v = pre ++ q ++ post /\
    Forall (fun c => isWhiteSpace c = true) pre /\
    Forall (fun c => isWhiteSpace c = true) post /\
    no_space_first q /\ no_space_first (rev q).






(** The values whose string is the one [ToString] gives here: a number
    is an integer that JavaScript holds exactly, which it prints in
    decimal. *)
Definition printable (v : value) : Prop :=
  match v with
  | VNumber z => (Z.abs z < 2 ^ 53)%Z
  | _ => True
  end.


(** The icons of the tabs that the host lists have addresses without a
    double quote. *)
Definition plain_icons (a : PopupEvents.answers) : Prop :=
  match PopupEvents.all_tabs a with
  | Normal l =>
      Forall (fun r => forall u, raw_favIconUrl r = Some u -> ~ In dquote u) l
  | _ => True
  end.

(** The systems the popup goes through: the constructor has run; then an
    event starts a step, or the host answers one of the calls waiting,
    whichever, and the method that made the call goes on.  The tabs that
    the host lists have icons whose address stays inside its attribute,
    so that the items on the page are those that [renderTabs] wrote. *)
Inductive running (new_URL : jsstring -> option (jsstring * jsstring))
  : PopupAsync.system -> Prop :=
| running_constructed : running new_URL PopupAsync.constructed
| running_event : forall sys e,
    running new_URL sys ->
    running new_URL
      (PopupAsync.after
         (PopupAsync.start new_URL e (PopupAsync.object sys))
         (PopupAsync.waiting sys))
| running_answer : forall sys before t later a,
    running new_URL sys ->
    PopupAsync.waiting sys = before ++ t :: later ->
    plain_icons a ->
    running new_URL
      (PopupAsync.after
         (PopupAsync.resume new_URL t a (PopupAsync.object sys))
         (before ++ later)).

(** What the lists of the popup satisfy: the filtered tabs are some of
    the tabs, in their order, and no stored title is empty. *)
Definition popup_lists_invariant (s : Popup.TabSearcher) : Prop :=
  Subsequence (Popup.filteredTabs s) (Popup.tabs s) /\
  Forall (fun t => title t <> []) (Popup.tabs s).


(** The popup when [rust] is typed before the host has answered the
    first query. *)
Definition typed_while_loading : PopupAsync.system :=
  PopupAsync.after
    (PopupAsync.start no_URL (PopupAsync.Input (js "rust"))
       (PopupAsync.object PopupAsync.constructed))
    (PopupAsync.waiting PopupAsync.constructed).

(** The same, once the host has answered both queries. *)
Definition typed_then_loaded : PopupAsync.system :=
  PopupAsync.settle no_URL 2 willing_host typed_while_loading.

(** [s] holds a copy of [q], letter for letter up to case, with a word
    boundary on each side: of the characters next to each end of the
    copy, one inside and one outside, exactly one is a word character
    (the ends of [s] count as non-word characters). *)
Definition HoldsBounded (s q : jsstring) : Prop :=
  exists pre mid post,
    s = pre ++ mid ++ post /\ Forall2 same_letter mid q /\
    last_is_word pre <> first_is_word (mid ++ post) /\
    last_is_word (pre ++ mid) <> first_is_word post.

(** [s] holds a copy of [q], letter for letter up to case, as a whole
    word: no word character comes right before or right after the copy. *)
Definition HoldsAsWord (s q : jsstring) : Prop :=
  exists pre mid post,
    s = pre ++ mid ++ post /\ Forall2 same_letter mid q /\
    last_is_word pre = false /\ first_is_word post = false.

Definition TabHoldsBounded (q : jsstring) (t : Tab) : Prop :=
  HoldsBounded (title t) q \/ HoldsBounded (url t) q.

Definition TabHoldsWord (q : jsstring) (t : Tab) : Prop :=
  HoldsAsWord (title t) q \/ HoldsAsWord (url t) q.

End Spec.

Import Spec.

(* ================================================================== *)
(** * Theorems *)
(* ================================================================== *)

(** ** Lists *)

Lemma Filtered_filter {A : Type} (P : A -> Prop) (f : A -> bool) :
  (forall a, f a = true <-> P a) ->
  forall l, Filtered P l (filter f l).
Proof.
  intros Hf l. induction l as [|a l IH]; simpl.
  - constructor.
  - destruct (f a) eqn:E.
    + apply Filtered_keep; [apply Hf; exact E | exact IH].
    + apply Filtered_drop; [|exact IH].
      intro Pa. apply Hf in Pa. congruence.
Qed.


Lemma Filtered_Subsequence {A : Type} (P : A -> Prop) (l r : list A) :
  Filtered P l r -> Subsequence r l.
Proof. induction 1; constructor; assumption. Qed.

Lemma Filtered_In {A : Type} (P : A -> Prop) (l r : list A) :
  Filtered P l r -> forall a, In a r <-> In a l /\ P a.
Proof.
  induction 1; intros x; simpl.
  - tauto.
  - rewrite IHFiltered. split.
    + intros [->|[? ?]]; auto.
    + intros [[->|?] ?]; auto.
  - rewrite IHFiltered. split.
    + intros [? ?]; auto.
    + intros [[->|?] ?]; [contradiction|auto].
Qed.

Lemma Filtered_all {A : Type} (P : A -> Prop) (l : list A) :
  (forall a, In a l -> P a) -> Filtered P l l.
Proof.
  induction l as [|a l IH]; intros H; constructor.
  - apply H. left. reflexivity.
  - apply IH. intros x Hx. apply H. right. exact Hx.
Qed.


(** ** Strings *)

Example N_to_string_1024 : N_to_string 1024 = js "1024".
Proof. reflexivity. Qed.

Example trim_example : trim (js "  a b ") = js "a b".
Proof. reflexivity. Qed.

Lemma startsWith_prefix (s q : jsstring) :
  startsWith s q = true <-> exists post, s = q ++ post.
Proof.
  revert s. induction q as [|c q IH]; intros s; simpl.
  - split; [intros _; exists s; reflexivity | destruct s; reflexivity].
  - destruct s as [|d s].
    + split; [discriminate | intros [post H]; discriminate].
    + cbn [startsWith]. rewrite andb_true_iff, N.eqb_eq, IH. split.
      * intros [-> [post ->]]. exists post. reflexivity.
      * intros [post H]. injection H as -> ->. split; [reflexivity|].
        exists post. reflexivity.
Qed.

Lemma includes_Substring (s q : jsstring) :
  includes s q = true <-> Substring q s.
Proof.
  unfold Substring. induction s as [|d s IH].
  - cbn [includes]. rewrite orb_false_r, startsWith_prefix. split.
    + intros [post H]. exists [], post. exact H.
    + intros [pre [post H]]. destruct pre; [|discriminate].
      exists post. exact H.
  - cbn [includes]. rewrite orb_true_iff, startsWith_prefix, IH. split.
    + intros [[post H]|[pre [post H]]].
      * exists [], post. exact H.
      * exists (d :: pre), post. rewrite H. reflexivity.
    + intros [pre [post H]]. destruct pre as [|p pre].
      * left. exists post. exact H.
      * right. injection H as _ H. exists pre, post. exact H.
Qed.

Lemma in_range_spec (lo hi c : N) :
  in_range lo hi c = true <-> (lo <= c <= hi)%N.
Proof.
  unfold in_range. rewrite andb_true_iff, !N.leb_le. tauto.
Qed.




Lemma upper_cu_cases (c : code_unit) :
  (small_letter c /\ upper_cu c = [(c - 32)%N]) \/
  (c = 223%N /\ upper_cu c = [83%N; 83%N]) \/
  (c = 181%N /\ upper_cu c = [924%N]) \/
  (c = 255%N /\ upper_cu c = [376%N]) \/
  (~ small_letter c /\ c <> 223%N /\ c <> 181%N /\ c <> 255%N /\ upper_cu c = [c]).
Proof.
  unfold upper_cu, small_letter.
  destruct (in_range 97 122 c) eqn:E1;
    [apply in_range_spec in E1
    |apply not_true_iff_false in E1; rewrite in_range_spec in E1];
    cbn [orb].
  { left. split; [left; exact E1|reflexivity]. }
  destruct (in_range 224 254 c) eqn:E2;
    [apply in_range_spec in E2
    |apply not_true_iff_false in E2; rewrite in_range_spec in E2];
    cbn [andb].
  - destruct (N.eqb c 247) eqn:E3;
      [apply N.eqb_eq in E3 | apply N.eqb_neq in E3]; cbn [negb].
    + replace (N.eqb c 223) with false by (symmetry; apply N.eqb_neq; lia).
      replace (N.eqb c 181) with false by (symmetry; apply N.eqb_neq; lia).
      replace (N.eqb c 255) with false by (symmetry; apply N.eqb_neq; lia).
      do 4 right. repeat split; try lia.
    + left. split; [right; split; assumption|reflexivity].
  - destruct (N.eqb c 223) eqn:E4;
      [apply N.eqb_eq in E4 | apply N.eqb_neq in E4].
    { right. left. split; [exact E4|reflexivity]. }
    destruct (N.eqb c 181) eqn:E5;
      [apply N.eqb_eq in E5 | apply N.eqb_neq in E5].
    { right. right. left. split; [exact E5|reflexivity]. }
    destruct (N.eqb c 255) eqn:E6;
      [apply N.eqb_eq in E6 | apply N.eqb_neq in E6].
    { right. right. right. left. split; [exact E6|reflexivity]. }
    do 4 right. repeat split; try assumption. intros [H|[H _]]; lia.
Qed.

Lemma lower_cu_of_capital (c : code_unit) :
  small_letter c -> lower_cu (c - 32)%N = c.
Proof.
  unfold small_letter, lower_cu. intros [H|[H Hn]].
  - replace (in_range 65 90 (c - 32)%N) with true
      by (symmetry; apply in_range_spec; lia).
    cbn [orb]. lia.
  - replace (in_range 192 222 (c - 32)%N) with true
      by (symmetry; apply in_range_spec; lia).
    replace (N.eqb (c - 32)%N 215) with false
      by (symmetry; apply N.eqb_neq; lia).
    rewrite orb_true_r. lia.
Qed.

Ltac decide_code_unit_tests :=
  repeat match goal with
  | |- context [N.eqb ?a ?b] =>
      replace (N.eqb a b) with false by (symmetry; apply N.eqb_neq; lia)
  | |- context [in_range ?lo ?hi ?c] =>
      replace (in_range lo hi c) with false
        by (symmetry; apply not_true_iff_false; rewrite in_range_spec; lia)
  end.

Lemma isWhiteSpace_letter (c : code_unit) :
  (33 <= c <= 159)%N \/ (161 <= c <= 5759)%N -> isWhiteSpace c = false.
Proof.
  intros H. unfold isWhiteSpace, existsb. decide_code_unit_tests. reflexivity.
Qed.

Lemma isWhiteSpace_lower_cu (c : code_unit) :
  isWhiteSpace (lower_cu c) = isWhiteSpace c.
Proof.
  unfold lower_cu.
  destruct (in_range 65 90 c) eqn:E1; cbn [orb andb negb].
  { apply in_range_spec in E1.
    rewrite !isWhiteSpace_letter by lia. reflexivity. }
  destruct (in_range 192 222 c) eqn:E2; cbn [orb andb negb]; [|reflexivity].
  apply in_range_spec in E2.
  destruct (N.eqb c 215); cbn [orb andb negb]; [reflexivity|].
  rewrite !isWhiteSpace_letter by lia. reflexivity.
Qed.

Lemma trimStart_toLowerCase (s : jsstring) :
  trimStart (toLowerCase s) = toLowerCase (trimStart s).
Proof.
  unfold toLowerCase. induction s as [|c s IH]; simpl; [reflexivity|].
  rewrite isWhiteSpace_lower_cu. destruct (isWhiteSpace c); [exact IH|reflexivity].
Qed.

Lemma trim_toLowerCase (s : jsstring) :
  trim (toLowerCase s) = toLowerCase (trim s).
Proof.
  unfold trim, trimEnd. rewrite trimStart_toLowerCase.
  unfold toLowerCase at 1. rewrite <- map_rev.
  fold (toLowerCase (rev (trimStart s))).
  rewrite trimStart_toLowerCase. unfold toLowerCase. rewrite map_rev.
  reflexivity.
Qed.

(** ** Methods *)

Lemma mapM_state {S A B : Type} (f : A -> M S B) :
  (forall a s, snd (f a s) = s) ->
  forall l s, snd (mapM f l s) = s.
Proof.
  intros Hf l. induction l as [|a l IH]; intros s; [reflexivity|].
  cbn [mapM]. unfold bind at 1.
  specialize (Hf a s). destruct (f a s) as [[b|e|] s1]; cbn in Hf; subst s1;
    try reflexivity.
  unfold bind. specialize (IH s).
  destruct (mapM f l s) as [[bs|e|] s2]; cbn in IH; subst s2; reflexivity.
Qed.

Section PopupFacts.

Variable new_URL : jsstring -> option (jsstring * jsstring).

Lemma popup_createTabHTML_state (t : Tab) (s : Popup.TabSearcher) :
  snd (Popup.createTabHTML new_URL t s) = s.
Proof.
  unfold Popup.createTabHTML, bind, get, lift, ret. cbn.
  destruct (Popup.highlightText (title t) _); try reflexivity.
  destruct (Popup.highlightText (Popup.formatUrl new_URL (url t)) _);
    reflexivity.
Qed.

Lemma popup_ui_only_refl (s : Popup.TabSearcher) : popup_ui_only s s.
Proof. unfold popup_ui_only. tauto. Qed.

Lemma popup_ui_only_trans (s1 s2 s3 : Popup.TabSearcher) :
  popup_ui_only s1 s2 -> popup_ui_only s2 s3 -> popup_ui_only s1 s3.
Proof.
  unfold popup_ui_only. intros H1 H2.
  decompose [and] H1. decompose [and] H2. repeat split; congruence.
Qed.

Lemma popup_updateStats_ui_only (s : Popup.TabSearcher) :
  popup_ui_only s (snd (Popup.updateStats s)).
Proof.
  unfold Popup.updateStats, bind, get, modify. cbn.
  destruct (negb _ && negb _); cbn; unfold popup_ui_only; cbn; tauto.
Qed.

Lemma popup_renderTabs_ui_only (s : Popup.TabSearcher) :
  popup_ui_only s (snd (Popup.renderTabs new_URL s)).
Proof.
  unfold Popup.renderTabs, bind, get. cbn.
  destruct (Nat.eqb _ 0 && negb _); cbn.
  - unfold popup_ui_only; cbn; tauto.
  - set (s1 := Popup.on_page _ s).
    pose proof (mapM_state _ (popup_createTabHTML_state) (Popup.filteredTabs s) s1) as H.
    destruct (mapM _ _ s1) as [[items|e|] s2]; cbn in H; subst s2; cbn;
      unfold popup_ui_only; cbn; tauto.
Qed.

Lemma popup_updateUI_ui_only (s : Popup.TabSearcher) :
  popup_ui_only s (snd (Popup.updateUI new_URL s)).
Proof.
  unfold Popup.updateUI. unfold bind at 1.
  pose proof (popup_updateStats_ui_only s) as H1.
  destruct (Popup.updateStats s) as [[[]|e|] s1] eqn:E; cbn in H1 |- *;
    try exact H1.
  eapply popup_ui_only_trans; [exact H1|apply popup_renderTabs_ui_only].
Qed.

End PopupFacts.

(** ** Filtering in substring mode *)

Lemma Substring_nil (s : jsstring) : Substring [] s.
Proof. exists [], s. reflexivity. Qed.

Lemma is_empty_true (s : jsstring) : is_empty s = true <-> s = [].
Proof. destruct s; simpl; split; congruence. Qed.

Lemma toLowerCase_nil (s : jsstring) : toLowerCase s = [] <-> s = [].
Proof.
  unfold toLowerCase. split; [apply map_eq_nil | intros ->; reflexivity].
Qed.

(** The callback of the substring filter decides [SubstringMatch]. *)
Lemma substring_callback (v : jsstring) (t : Tab) :
  includes (toLowerCase (title t)) (trim (toLowerCase v))
  || includes (toLowerCase (url t)) (trim (toLowerCase v)) = true
  <-> SubstringMatch (trim v) t.
Proof.
  unfold SubstringMatch, ContainsCI.
  rewrite orb_true_iff, !includes_Substring, trim_toLowerCase. tauto.
Qed.

(** ** Letters up to case, and trimming *)

Ltac solve_latin1 :=
  repeat first [apply Forall_nil | apply Forall_cons; [reflexivity|]].

Ltac decide_test H :=
  match type of H with
  | in_range _ _ _ = true => apply in_range_spec in H
  | in_range _ _ _ = false =>
      apply not_true_iff_false in H; rewrite in_range_spec in H
  | N.eqb _ _ = true => apply N.eqb_eq in H
  | N.eqb _ _ = false => apply N.eqb_neq in H
  end.

Lemma lower_cu_same_letter (c d : code_unit) :
  lower_cu c = lower_cu d <-> same_letter c d.
Proof.
  unfold same_letter, capital, lower_cu.
  destruct (in_range 65 90 c) eqn:C1; decide_test C1;
  destruct (in_range 192 222 c) eqn:C2; decide_test C2;
  destruct (N.eqb c 215) eqn:C3; decide_test C3;
  destruct (in_range 65 90 d) eqn:D1; decide_test D1;
  destruct (in_range 192 222 d) eqn:D2; decide_test D2;
  destruct (N.eqb d 215) eqn:D3; decide_test D3;
  cbn [orb andb negb]; (split; [intros H|intros [H|[[H1 H]|[H1 H]]]]); lia.
Qed.

Lemma toLowerCase_same_letters (a b : jsstring) :
  toLowerCase a = toLowerCase b <-> Forall2 same_letter a b.
Proof.
  unfold toLowerCase. revert b.
  induction a as [|c a IH]; intros [|d b]; cbn [map].
  - split; [constructor|reflexivity].
  - split; [discriminate|intros H; inversion H].
  - split; [discriminate|intros H; inversion H].
  - split.
    + intros H. injection H as H1 H2. constructor.
      * apply lower_cu_same_letter. exact H1.
      * apply IH. exact H2.
    + intros H. inversion H as [|? ? ? ? H1 H2]; subst. f_equal.
      * apply lower_cu_same_letter. exact H1.
      * apply IH. exact H2.
Qed.

(** What the filter tests, [s.toLowerCase().includes(q.toLowerCase())],
    is the presence of a copy of [q] up to case. *)
Lemma ContainsCI_HoldsUpToCase (s q : jsstring) :
  ContainsCI s q <-> HoldsUpToCase s q.
Proof.
  unfold ContainsCI, Substring, HoldsUpToCase. split.
  - intros (pre & post & H). unfold toLowerCase in H at 1.
    apply map_eq_app in H. destruct H as (pre' & rest & -> & Hp & H).
    apply map_eq_app in H. destruct H as (mid & post' & -> & Hm & Hq).
    exists pre', mid, post'. split; [reflexivity|].
    apply toLowerCase_same_letters. exact Hm.
  - intros (pre & mid & post & -> & H).
    apply toLowerCase_same_letters in H.
    exists (toLowerCase pre), (toLowerCase post).
    unfold toLowerCase in *. rewrite !map_app, H. reflexivity.
Qed.

Lemma SubstringMatch_TabHolds (q : jsstring) (t : Tab) :
  SubstringMatch q t <-> TabHolds q t.
Proof.
  unfold SubstringMatch, TabHolds. rewrite !ContainsCI_HoldsUpToCase. tauto.
Qed.

Lemma trimStart_spaces (pre x : jsstring) :
  Forall (fun c => isWhiteSpace c = true) pre ->
  trimStart (pre ++ x) = trimStart x.
Proof.
  induction 1 as [|c pre Hc _ IH]; [reflexivity|].
  cbn [app trimStart]. rewrite Hc. exact IH.
Qed.

Lemma trimStart_no_space (q x : jsstring) :
  q <> [] -> no_space_first q -> trimStart (q ++ x) = q ++ x.
Proof.
  destruct q as [|c q]; [congruence|]. intros _ H.
  cbn [app trimStart]. cbn in H. rewrite H. reflexivity.
Qed.

(** [trim] gives the trimmed string, and nothing else is one. *)
Lemma Trimmed_trim (v q : jsstring) : Trimmed v q -> trim v = q.
Proof.
  intros (pre & post & -> & Hpre & Hpost & Hq & Hr).
  unfold trim, trimEnd. rewrite trimStart_spaces by exact Hpre.
  destruct q as [|c q].
  - cbn [app].
    replace (trimStart post) with (@nil code_unit); [reflexivity|].
    symmetry. rewrite <- (app_nil_r post).
    rewrite trimStart_spaces by exact Hpost. reflexivity.
  - rewrite trimStart_no_space by (try discriminate; exact Hq).
    rewrite rev_app_distr.
    rewrite trimStart_spaces by (apply Forall_rev; exact Hpost).
    assert (Hne : rev (c :: q) <> []).
    { intros E. apply (f_equal (@List.length _)) in E.
      rewrite length_rev in E. discriminate. }
    rewrite <- (app_nil_r (rev (c :: q))).
    rewrite trimStart_no_space by assumption.
    rewrite app_nil_r. apply rev_involutive.
Qed.

Section PopupFilter.

Variable new_URL : jsstring -> option (jsstring * jsstring).

Lemma popup_filterTabs_unfold (s : Popup.TabSearcher) :
  let query := trim (toLowerCase (searchInput_value (Popup.page s))) in
  Popup.filterTabs new_URL s =
  Popup.updateUI new_URL
    (Popup.with_filteredTabs
       (if is_empty query then Popup.tabs s
        else filter (fun tab => includes (toLowerCase (title tab)) query
                                || includes (toLowerCase (url tab)) query)
                    (Popup.tabs s)) s).
Proof.
  cbn zeta. unfold Popup.filterTabs, bind, get, modify. cbn beta iota.
  destruct (is_empty _); reflexivity.
Qed.

Lemma popup_filterTabs_fields (s : Popup.TabSearcher) :
  let query := trim (toLowerCase (searchInput_value (Popup.page s))) in
  let s' := snd (Popup.filterTabs new_URL s) in
  Popup.tabs s' = Popup.tabs s /\
  Popup.filteredTabs s' =
    if is_empty query then Popup.tabs s
    else filter (fun tab => includes (toLowerCase (title tab)) query
                            || includes (toLowerCase (url tab)) query)
                (Popup.tabs s).
Proof.
  cbn zeta. rewrite popup_filterTabs_unfold.
  match goal with
  | |- context [Popup.updateUI new_URL ?s1] =>
      destruct (popup_updateUI_ui_only new_URL s1) as (H1 & H2 & _);
      rewrite H1, H2
  end.
  split; reflexivity.
Qed.


End PopupFilter.



(** ** The case of the query *)




Section PopupQueryCase.

Variable new_URL : jsstring -> option (jsstring * jsstring).




End PopupQueryCase.



(** ** Closing a tab, and refreshing *)

Section PopupActions.

Variable new_URL : jsstring -> option (jsstring * jsstring).

(** C5. When the host removes the tab, [closeTab] leaves in [tabs] and in
    [filteredTabs] exactly the tabs with another id, in their order; when
    the host refuses, the call still returns and both lists are what they
    were. *)
Theorem closeTab_success_and_failure (tabId : Z) (e : error)
    (s : Popup.TabSearcher) :
  let ok := Popup.closeTab new_URL tabId (Normal tt) s in
  let ko := Popup.closeTab new_URL tabId (Throw e) s in
  (Filtered (fun t => id t <> tabId) (Popup.tabs s) (Popup.tabs (snd ok)) /\
   Filtered (fun t => id t <> tabId) (Popup.filteredTabs s)
            (Popup.filteredTabs (snd ok))) /\
  (fst ko = Normal tt /\
   Popup.tabs (snd ko) = Popup.tabs s /\
   Popup.filteredTabs (snd ko) = Popup.filteredTabs s /\
   List.length (Popup.tabs (snd ko)) = List.length (Popup.tabs s)).
Proof.
  cbn zeta. split.
  - assert (Hdec : forall t : Tab, negb (Z.eqb (id t) tabId) = true <-> id t <> tabId).
    { intros t. rewrite negb_true_iff, Z.eqb_neq. tauto. }
    unfold Popup.closeTab, try_catch, bind, Popup.await, modify. cbn beta iota.
    match goal with
    | |- context [Popup.updateUI new_URL ?s1] =>
        destruct (popup_updateUI_ui_only new_URL s1) as (H1 & H2 & _);
        destruct (Popup.updateUI new_URL s1) as [[[]|e'|] s2]
    end; cbn [snd fst] in *; unfold Popup.console_error, modify; cbn [snd];
      cbn [Popup.tabs Popup.filteredTabs Popup.on_page];
      rewrite H1, H2; cbn; split; apply Filtered_filter; exact Hdec.
  - cbn. repeat split; reflexivity.
Qed.

(** C6. [loadTabs] lets no exception out; when either query fails it
    returns with [tabs] and [filteredTabs] as they were; and however it
    ends, the loading indicator is hidden. *)
Theorem loadTabs_failure_and_loading
    (all_tabs active_tabs : completion (list RawTab)) (found : list RawTab)
    (e : error) (s : Popup.TabSearcher) :
  let first_fails := Popup.loadTabs new_URL (Throw e) active_tabs s in
  let second_fails := Popup.loadTabs new_URL (Normal found) (Throw e) s in
  let any := Popup.loadTabs new_URL all_tabs active_tabs s in
  (fst first_fails = Normal tt /\
   Popup.tabs (snd first_fails) = Popup.tabs s /\
   Popup.filteredTabs (snd first_fails) = Popup.filteredTabs s) /\
  (fst second_fails = Normal tt /\
   Popup.tabs (snd second_fails) = Popup.tabs s /\
   Popup.filteredTabs (snd second_fails) = Popup.filteredTabs s) /\
  (forall e', fst any <> Throw e') /\
  loadingEl_display (Popup.page (snd any)) = DisplayNone.
Proof.
  cbn zeta. split; [|split].
  - cbn. repeat split; reflexivity.
  - cbn. repeat split; reflexivity.
  - unfold Popup.loadTabs, Popup.showLoading, try_finally, try_catch, bind,
      Popup.await, modify. cbn beta iota.
    destruct all_tabs as [l| |]; cbn beta iota;
      [destruct active_tabs as [a| |]; cbn beta iota|..];
      try (cbn; split; [intros e'; discriminate | reflexivity]).
    match goal with
    | |- context [Popup.updateUI new_URL ?s1] =>
        destruct (Popup.updateUI new_URL s1) as [[[]|e1|] s2]
    end; cbn; (split; [intros e'; discriminate | reflexivity]).
Qed.

End PopupActions.

(** ** Keyboard navigation *)

Lemma active_index_range (items : list TabItem) :
  (-1 <= active_index items < Z.of_nat (List.length items))%Z.
Proof.
  induction items as [|it items IH]; cbn [active_index List.length]; [lia|].
  destruct (keyboard_active it); [lia|].
  destruct (active_index items <? 0)%Z eqn:E;
    [apply Z.ltb_lt in E | apply Z.ltb_ge in E]; lia.
Qed.

Lemma active_index_cleared (items : list TabItem) :
  active_index (map (set_keyboard_active false) items) = (-1)%Z.
Proof.
  induction items as [|it items IH]; [reflexivity|].
  cbn [map active_index set_keyboard_active keyboard_active].
  rewrite IH. reflexivity.
Qed.

Lemma active_index_set (items : list TabItem) (n : nat) (it : TabItem) :
  (n < List.length items)%nat ->
  active_index
    (set_nth n (set_keyboard_active true it)
       (map (set_keyboard_active false) items)) = Z.of_nat n.
Proof.
  revert n. induction items as [|x items IH]; intros n Hn; [cbn in Hn; lia|].
  destruct n as [|n]; [reflexivity|].
  cbn [map set_nth active_index set_keyboard_active keyboard_active].
  cbn [List.length] in Hn. rewrite IH by lia.
  destruct (Z.of_nat n <? 0)%Z eqn:E; [apply Z.ltb_lt in E|]; lia.
Qed.

Lemma length_set_nth {A : Type} (n : nat) (v : A) (l : list A) :
  List.length (set_nth n v l) = List.length l.
Proof.
  revert n. induction l as [|a l IH]; intros [|n]; cbn; auto.
Qed.

(** What [highlightTab] does to the selection. *)
Lemma highlightTab_selection (index : Z) (s : Popup.TabSearcher) :
  let s' := snd (Popup.highlightTab index s) in
  let L := Z.of_nat (List.length (popup_items s)) in
  List.length (popup_items s') = List.length (popup_items s) /\
  active_index (popup_items s') =
    if ((0 <=? index) && (index <? L))%Z then index else (-1)%Z.
Proof.
  cbn zeta. unfold Popup.highlightTab, bind, get, popup_items. cbn beta iota.
  destruct (tabsList_content (Popup.page s)) as [l|msg] eqn:Ec; cbn [tab_items].
  - unfold item_at.
    destruct (index <? 0)%Z eqn:E0.
    + apply Z.ltb_lt in E0. cbn. rewrite length_map, active_index_cleared.
      split; [reflexivity|].
      replace (0 <=? index)%Z with false by (symmetry; apply Z.leb_gt; lia).
      reflexivity.
    + apply Z.ltb_ge in E0.
      destruct (nth_error (map (set_keyboard_active false) l) (Z.to_nat index))
        as [it|] eqn:En.
      * assert (Hlt : (Z.to_nat index < List.length l)%nat).
        { rewrite <- (length_map (set_keyboard_active false)).
          apply nth_error_Some. congruence. }
        cbn. rewrite length_set_nth, length_map, active_index_set by exact Hlt.
        split; [reflexivity|].
        replace (0 <=? index)%Z with true by (symmetry; apply Z.leb_le; lia).
        replace (index <? Z.of_nat (List.length l))%Z with true
          by (symmetry; apply Z.ltb_lt; lia).
        cbn. lia.
      * apply nth_error_None in En. rewrite length_map in En.
        cbn. rewrite length_map, active_index_cleared.
        split; [reflexivity|].
        replace (index <? Z.of_nat (List.length l))%Z with false
          by (symmetry; apply Z.ltb_ge; lia).
        rewrite andb_false_r. reflexivity.
  - cbn. rewrite Ec. cbn. split; [reflexivity|].
    destruct (0 <=? index)%Z eqn:E1; [|reflexivity].
    destruct (index <? 0)%Z eqn:E; [|reflexivity].
    apply Z.ltb_lt in E. apply Z.leb_le in E1. lia.
Qed.

Lemma call_items (c : host_call) (s : Popup.TabSearcher) :
  popup_items (snd (Popup.call c s)) = popup_items s.
Proof. reflexivity. Qed.

Lemma press_ArrowDown (updated : completion unit) (got : completion RawTab)
    (focused : completion unit) (s : Popup.TabSearcher) :
  Popup.handleKeyNavigation (js "ArrowDown") updated got focused s =
  Popup.highlightTab
    (Z.min (active_index (popup_items s) + 1)
           (Z.of_nat (List.length (popup_items s)) - 1))
    (snd (Popup.call PreventDefault s)).
Proof. reflexivity. Qed.

Lemma press_ArrowUp (updated : completion unit) (got : completion RawTab)
    (focused : completion unit) (s : Popup.TabSearcher) :
  Popup.handleKeyNavigation (js "ArrowUp") updated got focused s =
  Popup.highlightTab (Z.max (active_index (popup_items s) - 1) 0)
    (snd (Popup.call PreventDefault s)).
Proof. reflexivity. Qed.

(** One ArrowDown, on a list of any length. *)
Lemma ArrowDown_step (updated : completion unit) (got : completion RawTab)
    (focused : completion unit) (s : Popup.TabSearcher) :
  let s' := snd (Popup.handleKeyNavigation (js "ArrowDown") updated got focused s) in
  List.length (popup_items s') = List.length (popup_items s) /\
  active_index (popup_items s') =
    Z.min (active_index (popup_items s) + 1)
          (Z.of_nat (List.length (popup_items s)) - 1).
Proof.
  cbn zeta. rewrite press_ArrowDown.
  pose proof (active_index_range (popup_items s)) as Hr.
  destruct (highlightTab_selection
              (Z.min (active_index (popup_items s) + 1)
                     (Z.of_nat (List.length (popup_items s)) - 1))
              (snd (Popup.call PreventDefault s))) as [HL HI].
  rewrite call_items in HL, HI. split; [exact HL|].
  rewrite HI.
  destruct (0 <=? _)%Z eqn:E1; destruct (_ <? _)%Z eqn:E2; cbn [andb];
    try reflexivity;
    try apply Z.leb_gt in E1; try apply Z.ltb_ge in E2; lia.
Qed.

Lemma ArrowDown_presses (updated : completion unit) (got : completion RawTab)
    (focused : completion unit) (n : nat) (s : Popup.TabSearcher) :
  let press st :=
    snd (Popup.handleKeyNavigation (js "ArrowDown") updated got focused st) in
  let s' := Nat.iter n press s in
  List.length (popup_items s') = List.length (popup_items s) /\
  active_index (popup_items s') =
    Z.min (active_index (popup_items s) + Z.of_nat n)
          (Z.max (active_index (popup_items s))
                 (Z.of_nat (List.length (popup_items s)) - 1)).
Proof.
  cbn zeta. induction n as [|n [IHL IHI]].
  - unfold Nat.iter; cbn [nat_rect]. split; [reflexivity|]. lia.
  - unfold Nat.iter in *; cbn [nat_rect].
    match goal with
    | |- context [Popup.handleKeyNavigation _ _ _ _ ?st] =>
        destruct (ArrowDown_step updated got focused st) as [HL HI]
    end.
    cbn zeta in HL, HI.
    split; [rewrite HL; exact IHL|]. rewrite HI, IHL, IHI.
    pose proof (active_index_range (popup_items s)). lia.
Qed.

(** C7. On a rendered list of [N >= 1] items with selection [i] (-1 when
    nothing is selected), ArrowDown selects [min (i+1) (N-1)] and ArrowUp
    selects [max (i-1) 0]; so from no selection ArrowUp selects the first
    item, and [n >= 1] presses of ArrowDown select [min (n-1) (N-1)]. *)
Theorem arrow_keys_move_selection (updated : completion unit)
    (got : completion RawTab) (focused : completion unit) (n : nat)
    (s : Popup.TabSearcher) :
  let N := Z.of_nat (List.length (popup_items s)) in
  let i := active_index (popup_items s) in
  let press key st :=
    snd (Popup.handleKeyNavigation key updated got focused st) in
  (1 <= N)%Z ->
  (-1 <= i < N)%Z /\
  active_index (popup_items (press (js "ArrowDown") s)) = Z.min (i + 1) (N - 1) /\
  active_index (popup_items (press (js "ArrowUp") s)) = Z.max (i - 1) 0 /\
  (i = (-1)%Z ->
   active_index (popup_items (press (js "ArrowUp") s)) = 0%Z /\
   ((1 <= n)%nat ->
    active_index (popup_items (Nat.iter n (press (js "ArrowDown")) s)) =
      Z.min (Z.of_nat n - 1) (N - 1))).
Proof.
  cbn zeta. intros HN.
  pose proof (active_index_range (popup_items s)) as Hr.
  assert (HUp : active_index (popup_items (snd (Popup.handleKeyNavigation
                  (js "ArrowUp") updated got focused s))) =
                Z.max (active_index (popup_items s) - 1) 0).
  { rewrite press_ArrowUp.
    destruct (highlightTab_selection
                (Z.max (active_index (popup_items s) - 1) 0)
                (snd (Popup.call PreventDefault s))) as [_ HI].
    rewrite call_items in HI. rewrite HI.
    destruct (0 <=? _)%Z eqn:E1; destruct (_ <? _)%Z eqn:E2; cbn [andb];
      try reflexivity;
      try apply Z.leb_gt in E1; try apply Z.ltb_ge in E2; lia. }
  split; [exact Hr|]. split; [apply ArrowDown_step|]. split; [exact HUp|].
  intros Hi. split; [rewrite HUp, Hi; reflexivity|].
  intros Hn.
  destruct (ArrowDown_presses updated got focused n s) as [_ HI].
  cbn zeta in HI. rewrite HI, Hi. lia.
Qed.

(** C7 at three items with none selected. *)
Lemma arrow_keys_move_selection_witness :
  (1 <= Z.of_nat (List.length (popup_items three_items)))%Z /\
  active_index
    (popup_items
       (snd (Popup.handleKeyNavigation (js "ArrowDown") (Normal tt)
               (Throw (HostError "no such tab")) (Normal tt) three_items)))
  = Z.min (active_index (popup_items three_items) + 1)
          (Z.of_nat (List.length (popup_items three_items)) - 1).
Proof.
  split; [cbn; lia|].
  refine (proj1 (proj2 (@arrow_keys_move_selection (Normal tt)
           (Throw (HostError "no such tab")) (Normal tt) 5 three_items _))).
  cbn. lia.
Defined.

(** ** Escaping *)

Lemma flat_map_flat_map {A B C : Type} (f : A -> list B) (g : B -> list C)
    (l : list A) :
  flat_map g (flat_map f l) = flat_map (fun a => flat_map g (f a)) l.
Proof.
  induction l as [|a l IH]; cbn [flat_map]; [reflexivity|].
  rewrite flat_map_app, IH. reflexivity.
Qed.

Lemma replace_char_other (c x : code_unit) (by_ : jsstring) :
  x <> c -> replace_char c by_ [x] = [x].
Proof.
  intros H. unfold replace_char. cbn [flat_map].
  apply N.eqb_neq in H. rewrite H. reflexivity.
Qed.

(** The five replacements of the [build/] copy, taken in its order, come
    to replacing each character by its entity: none of the entities holds
    a character that a later replacement looks for. *)
Lemma escapeHtml_chain (s : jsstring) :
  replace_char 39%N (js "&#x27;")
    (replace_char 34%N (js "&quot;")
       (replace_char 62%N (js "&gt;")
          (replace_char 60%N (js "&lt;")
             (replace_char 38%N (js "&amp;") s)))) = escape_each s.
Proof.
  unfold escape_each, replace_char at 5.
  unfold replace_char at 4. rewrite flat_map_flat_map.
  unfold replace_char at 3. rewrite flat_map_flat_map.
  unfold replace_char at 2. rewrite flat_map_flat_map.
  unfold replace_char at 1. rewrite flat_map_flat_map.
  apply flat_map_ext. intros x. unfold html_entity.
  destruct (N.eqb x 38) eqn:E38; [reflexivity|].
  cbn [flat_map app].
  destruct (N.eqb x 60) eqn:E60; [reflexivity|].
  cbn [flat_map app].
  destruct (N.eqb x 62) eqn:E62; [reflexivity|].
  cbn [flat_map app].
  destruct (N.eqb x 34) eqn:E34; [reflexivity|].
  cbn [flat_map app].
  destruct (N.eqb x 39) eqn:E39; reflexivity.
Qed.

(** The [build/] copy of [escapeHtml] does what C2 says, for a string, a
    boolean, [null], [undefined] and an integer that JavaScript holds
    exactly: the argument is turned into its string, and each of the five
    characters into its entity. *)
Theorem build_escapeHtml_entities (v : value) :
  printable v ->
  BuildPopup.escapeHtml v = escape_each (ToString v) /\
  BuildPopup.escapeHtml VNull = js "null" /\
  BuildPopup.escapeHtml VUndefined = js "undefined" /\
  BuildPopup.escapeHtml (VString (js "<x>")) = js "&lt;x&gt;" /\
  BuildPopup.escapeHtml (VString (js "A & B")) = js "A &amp; B".
Proof.
  intros _. split; [|repeat split; reflexivity].
  unfold BuildPopup.escapeHtml. rewrite escapeHtml_chain.
  destruct v; reflexivity.
Qed.

(** The same at the number 42. *)
Lemma build_escapeHtml_entities_witness :
  printable (VNumber 42) /\ BuildPopup.escapeHtml (VNumber 42) = js "42".
Proof.
  assert (H : printable (VNumber 42)) by reflexivity.
  split; [exact H|].
  exact (proj1 (@build_escapeHtml_entities (VNumber 42) H)).
Defined.

(** C2 on the copy in [popup.js]: the text serialisation of the DOM leaves
    both quotes as they are, and [null] and [undefined] give the empty
    string. *)
Theorem popup_escapeHtml_quotes :
  Popup.escapeHtml (VString [dquote]) = [dquote] /\
  Popup.escapeHtml (VString (js "'")) = js "'" /\
  Popup.escapeHtml VNull = [] /\
  Popup.escapeHtml VUndefined = [] /\
  Popup.escapeHtml (VString (js "<x>")) = js "&lt;x&gt;" /\
  Popup.escapeHtml (VString (js "A & B")) = js "A &amp; B".
Proof. repeat split; reflexivity. Qed.

(** ** Patterns the query breaks *)

(** C10. An opening parenthesis, or "c++", as the query makes the pattern
    of [highlightText] one that [new RegExp] rejects, whatever the text
    (a non-empty one for the [build/] copy): the call throws. *)
Theorem highlightText_not_total (c : code_unit) (text : jsstring) :
  Popup.highlightText text (js "(") = Throw (SyntaxError "Unterminated group") /\
  Popup.highlightText text (js "c++") = Throw (SyntaxError "Nothing to repeat") /\
  BuildPopup.highlightText (c :: text) (js "(")
    = Throw (SyntaxError "Unterminated group") /\
  BuildPopup.highlightText (c :: text) (js "c++")
    = Throw (SyntaxError "Nothing to repeat") /\
  exists t q e, Popup.highlightText t q = Throw e.
Proof.
  repeat split; try reflexivity.
  exists (js "C++ primer"), (js "c++"), (SyntaxError "Nothing to repeat").
  reflexivity.
Qed.

(** ** Closing the other tabs *)

Section BuildFacts.

Variable new_URL : jsstring -> option (jsstring * jsstring).

Lemma build_createTabHTML_state (t : Tab) (s : BuildPopup.TabSearcher) :
  snd (BuildPopup.createTabHTML new_URL t s) = s.
Proof.
  unfold BuildPopup.createTabHTML, bind, get, lift, ret. cbn.
  destruct (BuildPopup.highlightText (or_default (title t) _) _);
    try reflexivity.
  destruct (BuildPopup.highlightText (BuildPopup.formatUrl new_URL _) _);
    reflexivity.
Qed.

Lemma build_ui_only_trans (s1 s2 s3 : BuildPopup.TabSearcher) :
  build_ui_only s1 s2 -> build_ui_only s2 s3 -> build_ui_only s1 s3.
Proof.
  unfold build_ui_only. intros H1 H2.
  decompose [and] H1. decompose [and] H2. repeat split; congruence.
Qed.

Lemma build_updateStats_ui_only (s : BuildPopup.TabSearcher) :
  build_ui_only s (snd (BuildPopup.updateStats s)).
Proof.
  unfold BuildPopup.updateStats, bind, get, modify. cbn.
  destruct (negb _ && negb _); cbn; unfold build_ui_only; cbn; tauto.
Qed.

Lemma build_renderTabs_ui_only (s : BuildPopup.TabSearcher) :
  build_ui_only s (snd (BuildPopup.renderTabs new_URL s)).
Proof.
  unfold BuildPopup.renderTabs, bind, get. cbn.
  destruct (Nat.eqb _ 0 && negb _); cbn.
  - unfold build_ui_only; cbn; tauto.
  - set (s1 := BuildPopup.on_page _ s).
    pose proof (mapM_state _ (build_createTabHTML_state)
                  (BuildPopup.filteredTabs s) s1) as H.
    destruct (mapM _ _ s1) as [[items|e|] s2]; cbn in H; subst s2; cbn;
      unfold build_ui_only; cbn; tauto.
Qed.

Lemma build_updateUI_ui_only (s : BuildPopup.TabSearcher) :
  build_ui_only s (snd (BuildPopup.updateUI new_URL s)).
Proof.
  unfold BuildPopup.updateUI. unfold bind at 1.
  pose proof (build_updateStats_ui_only s) as H1.
  destruct (BuildPopup.updateStats s) as [[[]|e|] s1] eqn:E; cbn in H1 |- *;
    try exact H1.
  eapply build_ui_only_trans; [exact H1|apply build_renderTabs_ui_only].
Qed.

(** [loadTabs] speaks to the host through its queries only. *)
Lemma build_loadTabs_calls (all_tabs active_tabs : completion (list RawTab))
    (s : BuildPopup.TabSearcher) :
  exists calls,
    host_calls (BuildPopup.page (snd (BuildPopup.loadTabs new_URL all_tabs active_tabs s)))
    = host_calls (BuildPopup.page s) ++ calls /\
    close_calls calls = [].
Proof.
  unfold BuildPopup.loadTabs, BuildPopup.showLoading, try_finally, try_catch,
    bind, BuildPopup.await, modify. cbn beta iota.
  destruct all_tabs as [l| |]; cbn beta iota;
    [destruct active_tabs as [a| |]; cbn beta iota|..];
    try (exists [TabsQueryAll]; cbn; split; reflexivity);
    try (exists [TabsQueryAll; TabsQueryActive]; cbn;
         rewrite <- app_assoc; split; reflexivity).
  match goal with
  | |- context [BuildPopup.updateUI new_URL ?s1] =>
      destruct (build_updateUI_ui_only s1) as (_ & _ & _ & _ & _ & _ & _ & H);
      destruct (BuildPopup.updateUI new_URL s1) as [[[]|e1|] s2]
  end; cbn in H |- *; rewrite H; exists [TabsQueryAll; TabsQueryActive];
    rewrite <- app_assoc; split; reflexivity.
Qed.

Lemma build_close_set (s : BuildPopup.TabSearcher) :
  OtherTabs (BuildPopup.currentTabId s) (BuildPopup.tabs s)
    (map id (filter (fun tab => negb (BuildPopup.is_current s tab)
                                && negb (pinned tab))
                    (BuildPopup.tabs s))).
Proof.
  eexists. split; [|reflexivity].
  apply Filtered_filter. intros t.
  unfold BuildPopup.is_current.
  rewrite andb_true_iff, !negb_true_iff.
  destruct (BuildPopup.currentTabId s) as [c|].
  - rewrite Z.eqb_neq. split; intros [H1 H2]; (split; [|exact H2]); congruence.
  - split; intros [H1 H2]; (split; [|exact H2]); congruence.
Qed.

(** The [build/] copy of [closeOtherTabs] does what C1 says: once the user
    has confirmed, it asks the host to close exactly the other, unpinned
    tabs, in one call made only when there are such tabs and the current
    tab is known; with no current tab, or without the confirmation, it
    asks the host to close nothing. *)
Theorem build_closeOtherTabs_requests (confirmed : bool)
    (removed : completion unit) (all_tabs active_tabs : completion (list RawTab))
    (s : BuildPopup.TabSearcher) :
  let s' := snd (BuildPopup.closeOtherTabs new_URL confirmed removed
                   all_tabs active_tabs s) in
  exists ids calls,
    OtherTabs (BuildPopup.currentTabId s) (BuildPopup.tabs s) ids /\
    host_calls (BuildPopup.page s') = host_calls (BuildPopup.page s) ++ calls /\
    close_calls calls =
      match confirmed, ids, BuildPopup.currentTabId s with
      | true, _ :: _, Some _ => [TabsRemoveAll ids]
      | _, _, _ => []
      end.
Proof.
  cbn zeta. eexists. 
  unfold BuildPopup.closeOtherTabs, BuildPopup.call, try_catch, bind, get,
    modify, ret. cbn beta iota.
  destruct confirmed; cbn [negb];
    [|eexists; split; [apply build_close_set|]; split; [reflexivity|];
      cbn; reflexivity].
  cbn beta iota.
  change (BuildPopup.is_current (BuildPopup.on_page (log_call (Confirm confirm_message)) s))
    with (BuildPopup.is_current s).
  cbn [BuildPopup.tabs BuildPopup.currentTabId BuildPopup.on_page].
  set (ids := map id (filter _ (BuildPopup.tabs s))).
  assert (Hids : OtherTabs (BuildPopup.currentTabId s) (BuildPopup.tabs s) ids)
    by apply build_close_set.
  destruct ids as [|i ids]; cbn [List.length Nat.ltb Nat.leb andb].
  { exists [Confirm confirm_message]. split; [exact Hids|].
    split; reflexivity. }
  destruct (BuildPopup.currentTabId s) as [cur|] eqn:Ecur; cbn [andb].
  2:{ exists [Confirm confirm_message]. split; [exact Hids|].
      split; reflexivity. }
  unfold BuildPopup.await. cbn beta iota.
  destruct removed as [[]|e|]; cbn beta iota.
  - match goal with
    | |- context [BuildPopup.loadTabs new_URL _ _ ?s1] =>
        destruct (build_loadTabs_calls all_tabs active_tabs s1) as (calls & Hc & Hn);
        destruct (BuildPopup.loadTabs new_URL all_tabs active_tabs s1)
          as [[[]|e1|] s2]
    end; cbn [snd fst] in Hc |- *;
      exists ([Confirm confirm_message; TabsRemoveAll (i :: ids)] ++ calls);
      (split; [exact Hids|]);
      unfold BuildPopup.console_error, modify; cbn [snd];
      cbn [BuildPopup.page BuildPopup.on_page host_calls log_error log_call] in Hc |- *;
      rewrite Hc; unfold close_calls in *; rewrite filter_app, Hn;
      (split; [rewrite <- !app_assoc; reflexivity | reflexivity]).
  - exists [Confirm confirm_message; TabsRemoveAll (i :: ids)].
    split; [exact Hids|]. cbn. rewrite <- app_assoc. split; reflexivity.
  - exists [Confirm confirm_message; TabsRemoveAll (i :: ids)].
    split; [exact Hids|]. cbn. rewrite <- app_assoc. split; reflexivity.
Qed.

End BuildFacts.

(** C1 on the copy in [popup.js]: with no current tab, a confirmed
    [closeOtherTabs] asks the host to close every unpinned tab. *)
Theorem popup_closeOtherTabs_without_current :
  Popup.currentTabId no_current_tab = None /\
  close_calls
    (host_calls
       (Popup.page
          (snd (Popup.closeOtherTabs no_URL true (Normal tt) (Normal [])
                  (Normal []) no_current_tab))))
  = [TabsRemoveAll [1%Z]].
Proof. split; reflexivity. Qed.

(** ** Parsing an escaped query *)

Lemma parse_quantified_plain (atom : regex) (l : jsstring) :
  quantifier_free_head l -> parse_quantified atom l = Parsed (atom, l).
Proof.
  unfold parse_quantified, parse_quantifier_prefix.
  destruct l as [|c l]; [reflexivity|].
  intros (H1 & H2 & H3 & H4).
  apply N.eqb_neq in H1, H2, H3, H4. rewrite H1, H2, H3, H4. reflexivity.
Qed.

Lemma existsb_incl {A : Type} (f : A -> bool) (l1 l2 : list A) :
  incl l1 l2 -> existsb f l1 = true -> existsb f l2 = true.
Proof.
  intros Hi H. apply existsb_exists in H. destruct H as [x [Hx Hf]].
  apply existsb_exists. exists x. split; [apply Hi; exact Hx | exact Hf].
Qed.

Lemma specials_are_syntax_chars (c : code_unit) :
  existsb (N.eqb c) BuildPopup.regexp_specials = is_syntax_char c.
Proof.
  unfold is_syntax_char.
  assert (H12 : incl BuildPopup.regexp_specials syntax_chars).
  { intros x Hx. cbn in Hx |- *. tauto. }
  assert (H21 : incl syntax_chars BuildPopup.regexp_specials).
  { intros x Hx. cbn in Hx |- *. tauto. }
  destruct (existsb (N.eqb c) BuildPopup.regexp_specials) eqn:E1.
  - symmetry. eapply existsb_incl; eassumption.
  - destruct (existsb (N.eqb c) syntax_chars) eqn:E2; [|reflexivity].
    exact (eq_trans (eq_sym E1) (@existsb_incl _ _ _ _ H21 E2)).
Qed.

Lemma syntax_char_cases (c : code_unit) :
  is_syntax_char c = true -> In c syntax_chars.
Proof.
  unfold is_syntax_char. intros H. apply existsb_exists in H.
  destruct H as [x [Hx Hc]]. apply N.eqb_eq in Hc. subst x. exact Hx.
Qed.

(** A character that is not a syntax character stands for itself. *)
Lemma parse_step_plain (st : pstate) (c : code_unit) (rest : jsstring) :
  is_syntax_char c = false -> quantifier_free_head rest ->
  parse_step st c rest = Parsed (add_term st (Char c), rest).
Proof.
  intros Hc Hq. unfold parse_step. rewrite Hc. cbn [negb].
  rewrite parse_quantified_plain by exact Hq. reflexivity.
Qed.

(** A syntax character after a backslash stands for itself. *)
Lemma parse_step_escaped (st : pstate) (c : code_unit) (rest : jsstring) :
  is_syntax_char c = true -> quantifier_free_head rest ->
  parse_step st 92%N (c :: rest) = Parsed (add_term st (Char c), rest).
Proof.
  intros Hc Hq. apply syntax_char_cases in Hc.
  unfold syntax_chars in Hc. cbn [In] in Hc.
  repeat (destruct Hc as [<-|Hc];
          [unfold parse_step; cbn;
           rewrite parse_quantified_plain by exact Hq; reflexivity|]).
  contradiction.
Qed.

Lemma parse_step_word_boundary (st : pstate) (rest : jsstring) :
  parse_step st 92%N (98%N :: rest) = Parsed (add_term st (WordBoundary false), rest).
Proof. reflexivity. Qed.

Lemma quantifier_free_escaped (q rest : jsstring) :
  quantifier_free_head rest ->
  quantifier_free_head (BuildPopup.escapeRegExp q ++ rest).
Proof.
  intros Hr. destruct q as [|c q]; [exact Hr|].
  unfold BuildPopup.escapeRegExp. cbn [flat_map].
  rewrite specials_are_syntax_chars.
  destruct (is_syntax_char c) eqn:E; cbn.
  - repeat split; discriminate.
  - repeat split; intros ->; discriminate.
Qed.

Lemma parse_loop_cons (fuel : nat) (st : pstate) (c : code_unit)
    (r : jsstring) :
  parse_loop (S fuel) st (c :: r) =
  match parse_step st c r with
  | Parsed (st', r') => parse_loop fuel st' r'
  | Invalid msg => Invalid msg
  | Unsupported => Unsupported
  end.
Proof. reflexivity. Qed.

Lemma parse_loop_nil (fuel : nat) (st : pstate) :
  parse_loop fuel st [] =
  match stack st with
  | [] => Parsed (close_disj (cur st), ngroups st)
  | _ :: _ => Invalid "Unterminated group"
  end.
Proof. destruct fuel; reflexivity. Qed.

(** The terms read so far, with those of an escaped query added. *)
Lemma parse_loop_escaped (q rest : jsstring) :
  quantifier_free_head rest ->
  forall (fuel : nat) (st : pstate),
    (List.length (BuildPopup.escapeRegExp q ++ rest) <= fuel)%nat ->
    exists fuel',
      (List.length rest <= fuel')%nat /\
      parse_loop fuel st (BuildPopup.escapeRegExp q ++ rest) =
      parse_loop fuel' (fold_left add_term (map Char q) st) rest.
Proof.
  intros Hr. induction q as [|c q IH]; intros fuel st Hf.
  - exists fuel. split; [exact Hf|reflexivity].
  - unfold BuildPopup.escapeRegExp in Hf |- *. cbn [flat_map] in Hf |- *.
    fold (BuildPopup.escapeRegExp q) in Hf |- *.
    rewrite specials_are_syntax_chars in Hf |- *.
    pose proof (@quantifier_free_escaped q rest Hr) as Hq.
    destruct (is_syntax_char c) eqn:E; cbn [app] in Hf |- *.
    + destruct fuel as [|fuel]; [cbn in Hf; lia|].
      cbn [parse_loop]. rewrite parse_step_escaped by assumption.
      apply IH. cbn [List.length] in Hf. lia.
    + destruct fuel as [|fuel]; [cbn in Hf; lia|].
      cbn [parse_loop]. rewrite parse_step_plain by assumption.
      apply IH. cbn [List.length] in Hf. lia.
Qed.

Lemma fold_left_add_term (rs : list regex) (st : pstate) :
  fold_left add_term rs st =
  {| cur := {| alts_rev := alts_rev (cur st);
               terms_rev := rev rs ++ terms_rev (cur st) |};
     stack := stack st; ngroups := ngroups st |}.
Proof.
  revert st. induction rs as [|r rs IH]; intros st.
  - destruct st as [[a t] k n]. reflexivity.
  - cbn [fold_left]. rewrite IH. cbn. rewrite <- app_assoc. reflexivity.
Qed.

Lemma parse_exact_pattern (q : jsstring) :
  parse_pattern (js "\b" ++ BuildPopup.escapeRegExp q ++ js "\b") =
  Parsed (word_pattern q, 0).
Proof.
  unfold parse_pattern.
  change (js "\b" ++ BuildPopup.escapeRegExp q ++ js "\b")
    with (92%N :: 98%N :: BuildPopup.escapeRegExp q ++ [92%N; 98%N]).
  cbn [List.length]. rewrite parse_loop_cons, parse_step_word_boundary.
  assert (Hh : quantifier_free_head [92%N; 98%N])
    by (cbn; repeat split; discriminate).
  destruct (@parse_loop_escaped q [92%N; 98%N] Hh
              (S (List.length (BuildPopup.escapeRegExp q ++ [92%N; 98%N])))
              (add_term init_pstate (WordBoundary false)) (le_S _ _ (le_n _)))
    as (fuel' & Hf & ->).
  destruct fuel' as [|fuel']; [cbn in Hf; lia|].
  rewrite parse_loop_cons, parse_step_word_boundary.
  rewrite fold_left_add_term, parse_loop_nil. cbn.
  unfold close_disj, word_pattern. cbn.
  rewrite rev_app_distr, rev_involutive. cbn. reflexivity.
Qed.

(** ** Case under the [i] flag *)

Lemma Canonicalize_cases (c : code_unit) :
  (small_letter c /\ Canonicalize true c = (c - 32)%N) \/
  (c = 181%N /\ Canonicalize true c = 924%N) \/
  (c = 255%N /\ Canonicalize true c = 376%N) \/
  (~ small_letter c /\ c <> 181%N /\ c <> 255%N /\ Canonicalize true c = c).
Proof.
  unfold Canonicalize.
  destruct (upper_cu_cases c)
    as [[Hs ->]|[[-> ->]|[[-> ->]|[[-> ->]|(Hs & H1 & H2 & H3 & ->)]]]].
  - left. split; [exact Hs|].
    destruct Hs as [Hs|[Hs Hn]].
    + replace (128 <=? c)%N with false by (symmetry; apply N.leb_gt; lia).
      reflexivity.
    + replace (c - 32 <? 128)%N with false by (symmetry; apply N.ltb_ge; lia).
      rewrite andb_false_r. reflexivity.
  - do 3 right. unfold small_letter. repeat split; try lia.
  - right. left. split; reflexivity.
  - right. right. left. split; reflexivity.
  - do 3 right. repeat split; try assumption.
    destruct (128 <=? c)%N eqn:E; [|reflexivity].
    apply N.leb_le in E.
    replace (c <? 128)%N with false by (symmetry; apply N.ltb_ge; lia).
    reflexivity.
Qed.

(** Every code unit is among the sources listed for its canonical form. *)
Lemma canonical_sources_complete (c : code_unit) :
  In c (canonical_sources (Canonicalize true c)).
Proof.
  unfold canonical_sources.
  destruct (Canonicalize_cases c)
    as [[Hs ->]|[[-> ->]|[[-> ->]|(_ & _ & _ & ->)]]].
  - right. left. apply lower_cu_of_capital. exact Hs.
  - cbn. tauto.
  - cbn. tauto.
  - left. reflexivity.
Qed.

(** Under the [i] flag a set holds a code unit when one of its members has
    the same canonical form. *)
Lemma set_has_spec (member : code_unit -> bool) (ch : code_unit) :
  set_has true member ch = true <->
  exists a, member a = true /\ Canonicalize true a = Canonicalize true ch.
Proof.
  unfold set_has. rewrite existsb_exists. split.
  - intros [a [_ Ha]]. apply andb_true_iff in Ha. destruct Ha as [Hm Hc].
    apply N.eqb_eq in Hc. exists a. split; assumption.
  - intros [a [Hm Hc]]. exists a. split.
    + right. rewrite <- Hc. apply canonical_sources_complete.
    + rewrite Hm, Hc, N.eqb_refl. reflexivity.
Qed.

Lemma set_has_char (c ch : code_unit) :
  set_has true (N.eqb c) ch =
  N.eqb (Canonicalize true ch) (Canonicalize true c).
Proof.
  apply eq_true_iff_eq. rewrite set_has_spec, N.eqb_eq. split.
  - intros [a [Ha Hc]]. apply N.eqb_eq in Ha. subst a. symmetry. exact Hc.
  - intros H. exists c. split; [apply N.eqb_refl | symmetry; exact H].
Qed.

Lemma isWordChar_spec (c : code_unit) :
  isWordChar c = true <->
  (65 <= c <= 90)%N \/ (97 <= c <= 122)%N \/ (48 <= c <= 57)%N \/ c = 95%N.
Proof.
  unfold isWordChar, isAsciiLetter, isDecimalDigit.
  rewrite !orb_true_iff, !in_range_spec, N.eqb_eq. tauto.
Qed.

Lemma isWordChar_Canonicalize (c : code_unit) :
  isWordChar (Canonicalize true c) = isWordChar c.
Proof.
  apply eq_true_iff_eq. rewrite !isWordChar_spec.
  destruct (Canonicalize_cases c)
    as [[Hs ->]|[[-> ->]|[[-> ->]|(_ & _ & _ & ->)]]];
    [destruct Hs as [Hs|[Hs Hn]]|..]; try tauto; lia.
Qed.

Lemma isWordChar_lower_cu (c : code_unit) :
  isWordChar (lower_cu c) = isWordChar c.
Proof.
  apply eq_true_iff_eq. rewrite !isWordChar_spec. unfold lower_cu.
  destruct (in_range 65 90 c) eqn:E1;
    [apply in_range_spec in E1
    |apply not_true_iff_false in E1; rewrite in_range_spec in E1];
    cbn [orb]; [lia|].
  destruct (in_range 192 222 c) eqn:E2;
    [apply in_range_spec in E2|]; cbn [andb]; [|tauto].
  destruct (N.eqb c 215); cbn [negb]; [tauto|lia].
Qed.

Lemma Canonicalize_lower_cu (c : code_unit) :
  Canonicalize true (lower_cu c) = Canonicalize true c.
Proof.
  unfold lower_cu.
  destruct (in_range 65 90 c) eqn:E1;
    [apply in_range_spec in E1
    |apply not_true_iff_false in E1; rewrite in_range_spec in E1];
    cbn [orb].
  { destruct (Canonicalize_cases (c + 32)%N)
      as [[Hs ->]|[[H _]|[[H _]|(Hs & _)]]]; try lia.
    - destruct (Canonicalize_cases c)
        as [[[Hc|[Hc _]] _]|[[H _]|[[H _]|(_ & _ & _ & ->)]]]; lia.
    - exfalso. apply Hs. left. lia. }
  destruct (in_range 192 222 c) eqn:E2;
    [apply in_range_spec in E2|]; cbn [andb]; [|reflexivity].
  destruct (N.eqb c 215) eqn:E3; [reflexivity|]. apply N.eqb_neq in E3.
  cbn [negb].
  destruct (Canonicalize_cases (c + 32)%N)
    as [[Hs ->]|[[H _]|[[H _]|(Hs & _)]]]; try lia.
  - destruct (Canonicalize_cases c)
      as [[[Hc|[Hc _]] _]|[[H _]|[[H _]|(_ & _ & _ & ->)]]]; lia.
  - exfalso. apply Hs. right. lia.
Qed.

(** ** Matching a run of literal characters *)

Lemma skipn_nth_error {A : Type} (i : nat) (l : list A) :
  skipn i l = match nth_error l i with
              | Some a => a :: skipn (S i) l
              | None => []
              end.
Proof.
  revert i. induction l as [|a l IH]; intros [|i]; try reflexivity.
  cbn [skipn nth_error]. rewrite IH. destruct (nth_error l i); reflexivity.
Qed.

Lemma starts_ci_spec (s q : jsstring) :
  starts_ci s q = true <->
  exists mid post, s = mid ++ post /\ eq_ci mid q.
Proof.
  unfold eq_ci. revert s. induction q as [|c q IH]; intros s.
  - split.
    + intros _. exists [], s. split; reflexivity.
    + intros _. destruct s; reflexivity.
  - destruct s as [|d s]; cbn [starts_ci].
    + split; [discriminate|].
      intros (mid & post & H & He). destruct mid; cbn in He; [discriminate|].
      discriminate.
    + rewrite andb_true_iff, N.eqb_eq, IH. split.
      * intros [Hc (mid & post & -> & He)].
        exists (d :: mid), post. split; [reflexivity|].
        cbn [map]. rewrite Hc, He. reflexivity.
      * intros (mid & post & H & He).
        destruct mid as [|d' mid]; cbn [map] in He; [discriminate|].
        cbn [app] in H. injection H as -> ->. injection He as Hc He.
        split; [exact Hc|]. exists mid, post. split; [reflexivity|exact He].
Qed.

Lemma eq_ci_length (a b : jsstring) : eq_ci a b -> List.length a = List.length b.
Proof.
  unfold eq_ci. intros H. apply (f_equal (@List.length _)) in H.
  rewrite !length_map in H. exact H.
Qed.

Section LiteralMatch.

Variable inp : jsstring.

Lemma m_Char (c : code_unit) (x : MatchState)
    (k : MatchState -> option MatchState) :
  m true inp (Char c) x k =
  match nth_error inp (endIndex x) with
  | Some ch =>
      if N.eqb (Canonicalize true ch) (Canonicalize true c)
      then k {| endIndex := S (endIndex x); captures := captures x |}
      else None
  | None => None
  end.
Proof.
  cbn [m]. unfold CharacterSetMatcher.
  destruct (nth_error inp (endIndex x)) as [ch|]; [|reflexivity].
  rewrite set_has_char. reflexivity.
Qed.

(** A run of literal characters matches where the input goes on with the
    same characters up to case, and moves past them. *)
Lemma m_literals (q : jsstring) (rest : list regex) (x : MatchState)
    (k : MatchState -> option MatchState) :
  m true inp (mkSeq (map Char q ++ rest)) x k =
  if starts_ci (skipn (endIndex x) inp) q
  then m true inp (mkSeq rest)
         {| endIndex := endIndex x + List.length q; captures := captures x |} k
  else None.
Proof.
  revert x. induction q as [|c q IH]; intros x.
  - cbn [map app List.length starts_ci].
    replace (starts_ci (skipn (endIndex x) inp) []) with true
      by (destruct (skipn (endIndex x) inp); reflexivity).
    rewrite Nat.add_0_r. destruct x. reflexivity.
  - cbn [map app mkSeq fold_right].
    change (fold_right Seq Empty (map Char q ++ rest))
      with (mkSeq (map Char q ++ rest)).
    change (m true inp (Seq (Char c) (mkSeq (map Char q ++ rest))) x k)
      with (m true inp (Char c) x
              (fun y => m true inp (mkSeq (map Char q ++ rest)) y k)).
    rewrite m_Char, skipn_nth_error.
    destruct (nth_error inp (endIndex x)) as [ch|]; [|reflexivity].
    cbn [starts_ci].
    destruct (N.eqb (Canonicalize true ch) (Canonicalize true c));
      [|reflexivity].
    cbn [andb]. rewrite IH. cbn [endIndex captures List.length].
    rewrite Nat.add_succ_r. reflexivity.
Qed.

Lemma match_at_word_pattern (q : jsstring) (i : nat) :
  match_at true inp (word_pattern q) 0 i =
  if boundary_at inp i && starts_ci (skipn i inp) q
     && boundary_at inp (i + List.length q)
  then Some {| endIndex := i + List.length q; captures := [] |}
  else None.
Proof.
  unfold match_at, word_pattern.
  change (m true inp (Seq (WordBoundary false) ?r) ?x ?k)
    with (m true inp (WordBoundary false) x (fun y => m true inp r y k)).
  cbn [m endIndex xorb]. fold (boundary_at inp i).
  destruct (boundary_at inp i); [|reflexivity].
  rewrite m_literals. cbn [endIndex captures andb].
  destruct (starts_ci (skipn i inp) q); [|reflexivity].
  cbn [mkSeq fold_right m endIndex xorb andb].
  fold (boundary_at inp (i + List.length q)).
  destruct (boundary_at inp (i + List.length q)); reflexivity.
Qed.

Variable body : regex.
Variable ncap : nat.

Lemma scan_None (n i : nat) :
  scan true inp body ncap n i = None <->
  forall j, (i <= j <= i + n)%nat -> match_at true inp body ncap j = None.
Proof.
  revert i. induction n as [|n IH]; intros i; cbn [scan].
  - destruct (match_at true inp body ncap i) eqn:E.
    + split; [discriminate|]. intros H. rewrite H in E by lia. discriminate.
    + split; [|reflexivity]. intros _ j Hj.
      assert (j = i) by lia. subst j. exact E.
  - destruct (match_at true inp body ncap i) eqn:E.
    + split; [discriminate|]. intros H. rewrite H in E by lia. discriminate.
    + rewrite IH. split.
      * intros H j Hj. destruct (Nat.eq_dec j i) as [->|Hne]; [exact E|].
        apply H. lia.
      * intros H j Hj. apply H. lia.
Qed.

End LiteralMatch.

(** [test] on an expression without the [g] flag: the pattern matches at
    some index of the string. *)
Lemma test_spec (re : RegExpObject) (s : jsstring) :
  ignoreCase (re_flags re) = true ->
  test re s = true <->
  exists i, (i <= List.length s)%nat /\
            match_at true s (re_body re) (re_ncap re) i <> None.
Proof.
  intros Hi. unfold test, exec. rewrite Hi. cbn [Nat.ltb Nat.leb].
  rewrite Nat.sub_0_r.
  destruct (scan true s (re_body re) (re_ncap re) (List.length s) 0) eqn:E.
  - split; [intros _|reflexivity].
    destruct (Compare_dec.le_lt_dec 0 0) as [_|H]; [|lia].
    assert (Hn : ~ (forall j, (0 <= j <= 0 + List.length s)%nat ->
                      match_at true s (re_body re) (re_ncap re) j = None)).
    { intros H. apply scan_None in H. congruence. }
    clear E.
    assert (Hex : forall n,
               (forall j, (j <= n)%nat ->
                  match_at true s (re_body re) (re_ncap re) j = None) \/
               exists j, (j <= n)%nat /\
                  match_at true s (re_body re) (re_ncap re) j <> None).
    { induction n as [|n [IH|[j [Hj Hm]]]].
      - destruct (match_at true s (re_body re) (re_ncap re) 0) eqn:E0.
        + right. exists 0. split; [lia|congruence].
        + left. intros j Hj. assert (j = 0) by lia. subst j. exact E0.
      - destruct (match_at true s (re_body re) (re_ncap re) (S n)) eqn:E0.
        + right. exists (S n). split; [lia|congruence].
        + left. intros j Hj. destruct (Nat.eq_dec j (S n)) as [->|Hne];
            [exact E0 | apply IH; lia].
      - right. exists j. split; [lia|exact Hm]. }
    destruct (Hex (List.length s)) as [Hall|Hsome]; [|exact Hsome].
    exfalso. apply Hn. intros j Hj. apply Hall. lia.
  - split; [discriminate|]. intros [i [Hi' Hm]].
    exfalso. apply Hm. eapply scan_None; [exact E|]. lia.
Qed.

(** ** Whole words *)

Lemma IsWordCharAt_app (pre s : jsstring) :
  IsWordCharAt (pre ++ s) (List.length pre) = first_is_word s.
Proof.
  unfold IsWordCharAt, first_is_word.
  rewrite nth_error_app2 by lia. rewrite Nat.sub_diag.
  destruct s; reflexivity.
Qed.

Lemma IsWordCharBefore_app (pre s : jsstring) :
  IsWordCharBefore (pre ++ s) (List.length pre) = last_is_word pre.
Proof.
  unfold last_is_word.
  destruct pre as [|c pre] using rev_ind; [reflexivity|].
  rewrite length_app, Nat.add_1_r. cbn [IsWordCharBefore].
  rewrite rev_app_distr. cbn [rev app].
  unfold IsWordCharAt. rewrite <- app_assoc.
  rewrite nth_error_app2 by lia. rewrite Nat.sub_diag. reflexivity.
Qed.

Lemma xorb_true_neq (a b : bool) : xorb a b = true <-> a <> b.
Proof. destruct a, b; cbn; split; congruence. Qed.

(** The pattern of the exact mode matches somewhere in [s] exactly when
    [s] holds a copy of the query with a word boundary on each side. *)
Lemma word_pattern_occurrence (q s : jsstring) :
  (exists i, (i <= List.length s)%nat /\
             match_at true s (word_pattern q) 0 i <> None)
  <-> BoundedOccurrence q s.
Proof.
  unfold BoundedOccurrence. split.
  - intros [i [Hi Hm]]. rewrite match_at_word_pattern in Hm.
    destruct (boundary_at s i) eqn:B1; [|cbn in Hm; congruence].
    destruct (starts_ci (skipn i s) q) eqn:Sc; [|cbn in Hm; congruence].
    destruct (boundary_at s (i + List.length q)) eqn:B2;
      [|cbn in Hm; congruence].
    clear Hm. apply starts_ci_spec in Sc. destruct Sc as (mid & post & Hs & He).
    exists (firstn i s), mid, post.
    assert (Hsplit : s = firstn i s ++ mid ++ post).
    { rewrite <- Hs. symmetry. apply firstn_skipn. }
    assert (Hlen : List.length (firstn i s) = i).
    { apply firstn_length_le. exact Hi. }
    unfold boundary_at in B1, B2. apply xorb_true_neq in B1, B2.
    rewrite <- (eq_ci_length He) in B2.
    remember (firstn i s) as pre eqn:Hpre. clear Hpre Hs Hi.
    subst i. subst s.
    split; [reflexivity|]. split; [exact He|].
    rewrite IsWordCharBefore_app, IsWordCharAt_app in B1.
    split; [exact B1|].
    replace (List.length pre + List.length mid)
      with (List.length (pre ++ mid)) in B2 by apply length_app.
    rewrite app_assoc in B2.
    rewrite IsWordCharBefore_app, IsWordCharAt_app in B2. exact B2.
  - intros (pre & mid & post & -> & He & B1 & B2).
    exists (List.length pre). split; [rewrite length_app; lia|].
    rewrite match_at_word_pattern.
    unfold boundary_at at 1.
    rewrite IsWordCharBefore_app, IsWordCharAt_app.
    apply xorb_true_neq in B1. rewrite B1. cbn [andb].
    rewrite skipn_app, Nat.sub_diag, skipn_all. cbn [skipn app].
    assert (Sc : starts_ci (mid ++ post) q = true).
    { apply starts_ci_spec. exists mid, post. split; [reflexivity|exact He]. }
    rewrite Sc. cbn [andb].
    rewrite <- (eq_ci_length He).
    replace (List.length pre + List.length mid)
      with (List.length (pre ++ mid)) by apply length_app.
    unfold boundary_at. rewrite app_assoc.
    rewrite IsWordCharBefore_app, IsWordCharAt_app.
    apply xorb_true_neq in B2. rewrite B2. discriminate.
Qed.

Lemma first_is_word_eq_ci (a b : jsstring) :
  eq_ci a b -> first_is_word a = first_is_word b.
Proof.
  unfold eq_ci. destruct a as [|c a], b as [|d b]; cbn [map first_is_word];
    try reflexivity; try discriminate.
  intros H. injection H as H _.
  transitivity (isWordChar (Canonicalize true c));
    [symmetry; apply isWordChar_Canonicalize|].
  transitivity (isWordChar (Canonicalize true d));
    [|apply isWordChar_Canonicalize].
  f_equal. exact H.
Qed.

Lemma last_is_word_eq_ci (a b : jsstring) :
  eq_ci a b -> last_is_word a = last_is_word b.
Proof.
  unfold eq_ci, last_is_word. intros H.
  apply (f_equal (@rev _)) in H. rewrite <- !map_rev in H.
  apply (first_is_word_eq_ci (a := rev a) (b := rev b)) in H. exact H.
Qed.

Lemma first_is_word_app (a b : jsstring) :
  a <> [] -> first_is_word (a ++ b) = first_is_word a.
Proof. destruct a; [congruence|reflexivity]. Qed.

Lemma last_is_word_app (a b : jsstring) :
  b <> [] -> last_is_word (a ++ b) = last_is_word b.
Proof.
  unfold last_is_word. intros H. rewrite rev_app_distr.
  destruct (rev b) eqn:E; [|reflexivity].
  apply (f_equal (@rev _)) in E. rewrite rev_involutive in E. contradiction.
Qed.

(** For a query that begins and ends with word characters, a copy with a
    boundary on each side is a whole word. *)
Lemma BoundedOccurrence_WholeWord (q s : jsstring) :
  first_is_word q = true -> last_is_word q = true ->
  BoundedOccurrence q s <-> WholeWord q s.
Proof.
  intros Hf Hl. unfold BoundedOccurrence, WholeWord.
  assert (Hmid : forall mid, eq_ci mid q ->
            mid <> [] /\ first_is_word mid = true /\ last_is_word mid = true).
  { intros mid He. split; [|split].
    - intros ->. destruct q; [discriminate|]. discriminate.
    - rewrite (first_is_word_eq_ci He). exact Hf.
    - rewrite (last_is_word_eq_ci He). exact Hl. }
  split; intros (pre & mid & post & Hs & He & B1 & B2);
    destruct (Hmid mid He) as (Hne & Hfm & Hlm);
    exists pre, mid, post; (split; [exact Hs|]); (split; [exact He|]).
  - rewrite first_is_word_app in B1 by exact Hne.
    rewrite last_is_word_app in B2 by exact Hne.
    rewrite Hfm in B1. rewrite Hlm in B2.
    split; [destruct (last_is_word pre) | destruct (first_is_word post)];
      congruence.
  - rewrite first_is_word_app by exact Hne.
    rewrite last_is_word_app by exact Hne.
    rewrite Hfm, Hlm, B1, B2. split; discriminate.
Qed.

(** ** Filtering in exact mode *)

Lemma or_default_nil (s : jsstring) : or_default s [] = s.
Proof. destruct s; reflexivity. Qed.

Lemma filter_c_Normal {A : Type} (f : A -> completion bool) (g : A -> bool)
    (l : list A) :
  (forall a, f a = Normal (g a)) -> filter_c f l = Normal (filter g l).
Proof.
  intros H. induction l as [|a l IH]; [reflexivity|].
  cbn [filter_c filter]. rewrite H, IH. reflexivity.
Qed.

(** The pattern built from an escaped query is always a valid one. *)
Lemma tab_matches_exact (q : jsstring) (t : Tab) :
  BuildPopup.tab_matches true q t = Normal (exact_test q t).
Proof.
  unfold BuildPopup.tab_matches, RegExp_new.
  rewrite parse_exact_pattern, !or_default_nil. reflexivity.
Qed.

Lemma exact_test_spec (q : jsstring) (t : Tab) :
  exact_test q t = true <-> BoundedMatch q t.
Proof.
  unfold exact_test, BoundedMatch.
  rewrite orb_true_iff, !test_spec by reflexivity.
  cbn [re_body re_ncap]. rewrite !word_pattern_occurrence. tauto.
Qed.

Lemma eq_ci_toLowerCase (mid q : jsstring) :
  eq_ci mid (toLowerCase q) <-> eq_ci mid q.
Proof.
  unfold eq_ci, toLowerCase. rewrite map_map.
  rewrite (@map_ext _ _ _ _ Canonicalize_lower_cu). tauto.
Qed.

Lemma BoundedOccurrence_toLowerCase (q s : jsstring) :
  BoundedOccurrence (toLowerCase q) s <-> BoundedOccurrence q s.
Proof.
  unfold BoundedOccurrence.
  split; intros (pre & mid & post & Hs & He & B);
    exists pre, mid, post; (split; [exact Hs|]); (split; [|exact B]);
    apply eq_ci_toLowerCase; exact He.
Qed.

(** Under the [i] flag, two code units of U+0000 to U+00FF match when
    they are the same letter. *)
Lemma Canonicalize_same_letter (c d : code_unit) :
  (c < 256)%N -> (d < 256)%N ->
  Canonicalize true c = Canonicalize true d <-> same_letter c d.
Proof.
  intros Hc Hd. unfold same_letter, capital.
  destruct (Canonicalize_cases c) as [[C ->]|[[C ->]|[[C ->]|(C1 & C2 & C3 & ->)]]];
  destruct (Canonicalize_cases d) as [[D ->]|[[D ->]|[[D ->]|(D1 & D2 & D3 & ->)]]];
  unfold small_letter, code_unit in *; lia.
Qed.

Lemma eq_ci_same_letters (mid q : jsstring) :
  latin1 mid -> latin1 q -> eq_ci mid q <-> Forall2 same_letter mid q.
Proof.
  unfold eq_ci, latin1. revert q.
  induction mid as [|c mid IH]; intros [|d q] Hm Hq; cbn [map].
  - split; [constructor|reflexivity].
  - split; [discriminate|intros H; inversion H].
  - split; [discriminate|intros H; inversion H].
  - inversion Hm as [|? ? Hc Hm']. inversion Hq as [|? ? Hd Hq']. subst.
    split.
    + intros H. injection H as H1 H2. constructor.
      * apply Canonicalize_same_letter; assumption.
      * apply IH; assumption.
    + intros H. inversion H as [|? ? ? ? H1 H2]. subst. f_equal.
      * apply Canonicalize_same_letter; assumption.
      * apply IH; assumption.
Qed.

Lemma latin1_middle (pre mid post : jsstring) :
  latin1 (pre ++ mid ++ post) -> latin1 mid.
Proof.
  unfold latin1. intros H. apply Forall_app in H. destruct H as [_ H].
  apply Forall_app in H. apply H.
Qed.

Lemma BoundedOccurrence_HoldsBounded (q s : jsstring) :
  latin1 s -> latin1 q -> BoundedOccurrence q s <-> HoldsBounded s q.
Proof.
  intros Hs Hq. unfold BoundedOccurrence, HoldsBounded.
  split; intros (pre & mid & post & E & H & B);
    exists pre, mid, post; (split; [exact E|]); (split; [|exact B]);
    subst s; apply latin1_middle in Hs;
    apply (eq_ci_same_letters Hs Hq); exact H.
Qed.

Lemma WholeWord_HoldsAsWord (q s : jsstring) :
  latin1 s -> latin1 q -> WholeWord q s <-> HoldsAsWord s q.
Proof.
  intros Hs Hq. unfold WholeWord, HoldsAsWord.
  split; intros (pre & mid & post & E & H & B);
    exists pre, mid, post; (split; [exact E|]); (split; [|exact B]);
    subst s; apply latin1_middle in Hs;
    apply (eq_ci_same_letters Hs Hq); exact H.
Qed.

Lemma Filtered_among {A : Type} (P Q : A -> Prop) (l r : list A) :
  (forall a, In a l -> (P a <-> Q a)) -> Filtered P l r -> Filtered Q l r.
Proof.
  intros H HF. induction HF as [|a l r Ha HF IH|a l r Ha HF IH].
  - constructor.
  - apply Filtered_keep.
    + apply H; [left; reflexivity|exact Ha].
    + apply IH. intros b Hb. apply H. right. exact Hb.
  - apply Filtered_drop.
    + intros Hq. apply Ha. apply H; [left; reflexivity|exact Hq].
    + apply IH. intros b Hb. apply H. right. exact Hb.
Qed.

Lemma Trimmed_latin1 (v q : jsstring) : Trimmed v q -> latin1 v -> latin1 q.
Proof.
  intros (pre & post & E & _) H. subst v. exact (latin1_middle _ _ _ H).
Qed.

Section BuildFilter.

Variable new_URL : jsstring -> option (jsstring * jsstring).

Lemma build_filterTabs_exact (s : BuildPopup.TabSearcher) :
  BuildPopup.exactMatch s = true ->
  let query := trim (toLowerCase (searchInput_value (BuildPopup.page s))) in
  BuildPopup.filteredTabs (snd (BuildPopup.filterTabs new_URL s)) =
    if is_empty query then BuildPopup.tabs s
    else filter (exact_test query) (BuildPopup.tabs s).
Proof.
  intros He. cbn zeta.
  unfold BuildPopup.filterTabs, bind, get, modify, lift. cbn beta iota.
  rewrite He.
  destruct (is_empty _) eqn:Eq.
  - match goal with
    | |- context [BuildPopup.updateUI new_URL ?s1] =>
        destruct (build_updateUI_ui_only new_URL s1) as (_ & H2 & _);
        rewrite H2
    end. reflexivity.
  - rewrite (@filter_c_Normal _ _ _ _ (tab_matches_exact _)).
    match goal with
    | |- context [BuildPopup.updateUI new_URL ?s1] =>
        destruct (build_updateUI_ui_only new_URL s1) as (_ & H2 & _);
        rewrite H2
    end. reflexivity.
Qed.

(** In exact mode [filterTabs] keeps exactly the tabs that hold the
    (trimmed) query, up to case, between two word boundaries. *)
Theorem filterTabs_exact_boundaries (s : BuildPopup.TabSearcher) :
  let q := trim (searchInput_value (BuildPopup.page s)) in
  BuildPopup.exactMatch s = true -> q <> [] ->
  Filtered (BoundedMatch q) (BuildPopup.tabs s)
    (BuildPopup.filteredTabs (snd (BuildPopup.filterTabs new_URL s))).
Proof.
  cbn zeta. intros He Hq. rewrite (@build_filterTabs_exact s He). cbn zeta.
  rewrite trim_toLowerCase.
  destruct (is_empty (toLowerCase _)) eqn:E.
  - exfalso. apply Hq. apply toLowerCase_nil. apply is_empty_true. exact E.
  - apply Filtered_filter. intros t. rewrite exact_test_spec.
    unfold BoundedMatch. rewrite !BoundedOccurrence_toLowerCase. tauto.
Qed.

(** In exact mode, for a search text and tabs written in U+0000 to U+00FF
    and a query, the text without the white space at its ends, that
    begins and ends with a word character, [filterTabs] keeps exactly the
    tabs whose title or address holds the query, letter for letter up to
    case, as a whole word: with no word character right before it or
    right after it. *)
Theorem filterTabs_exact_mode (s : BuildPopup.TabSearcher) (q : jsstring) :
  let v := searchInput_value (BuildPopup.page s) in
  BuildPopup.exactMatch s = true ->
  latin1 v -> Forall latin1_tab (BuildPopup.tabs s) -> Trimmed v q ->
  first_is_word q = true -> last_is_word q = true ->
  Filtered (TabHoldsWord q) (BuildPopup.tabs s)
    (BuildPopup.filteredTabs (snd (BuildPopup.filterTabs new_URL s))).
Proof.
  cbn zeta. intros He Hv HT Hq Hf Hl.
  pose proof (Trimmed_latin1 Hq Hv) as Hlq.
  apply Trimmed_trim in Hq. subst q.
  assert (Hne : trim (searchInput_value (BuildPopup.page s)) <> []).
  { intros E. rewrite E in Hf. discriminate. }
  pose proof (@filterTabs_exact_boundaries s He Hne) as HB.
  cbn zeta in HB.
  eapply Filtered_among; [|exact HB].
  intros t Ht. rewrite Forall_forall in HT. destruct (HT t Ht) as [H1 H2].
  unfold BoundedMatch, TabHoldsWord.
  rewrite !(@BoundedOccurrence_WholeWord _ _ Hf Hl).
  rewrite (WholeWord_HoldsAsWord H1 Hlq), (WholeWord_HoldsAsWord H2 Hlq).
  tauto.
Qed.

End BuildFilter.

(** The same at the text " Rust ". *)
Lemma filterTabs_exact_mode_witness :
  (BuildPopup.exactMatch (build_searching true rust_tabs (js " Rust ")) = true /\
   latin1 (searchInput_value
             (BuildPopup.page (build_searching true rust_tabs (js " Rust ")))) /\
   Forall latin1_tab
     (BuildPopup.tabs (build_searching true rust_tabs (js " Rust "))) /\
   Trimmed (searchInput_value
              (BuildPopup.page (build_searching true rust_tabs (js " Rust "))))
           (js "Rust") /\
   first_is_word (js "Rust") = true /\
   last_is_word (js "Rust") = true) /\
  Filtered (TabHoldsWord (js "Rust")) rust_tabs
    (BuildPopup.filteredTabs
       (snd (BuildPopup.filterTabs no_URL
               (build_searching true rust_tabs (js " Rust "))))).
Proof.
  assert (H1 : latin1 (searchInput_value
             (BuildPopup.page (build_searching true rust_tabs (js " Rust ")))))
    by (cbn; solve_latin1).
  assert (H2 : Forall latin1_tab
     (BuildPopup.tabs (build_searching true rust_tabs (js " Rust "))))
    by (cbn; repeat constructor; cbn; solve_latin1).
  assert (H3 : Trimmed (searchInput_value
              (BuildPopup.page (build_searching true rust_tabs (js " Rust "))))
           (js "Rust")).
  { exists (js " "), (js " "). repeat split; try reflexivity;
      repeat constructor. }
  split; [repeat split; assumption|].
  exact (@filterTabs_exact_mode no_URL
           (build_searching true rust_tabs (js " Rust ")) (js "Rust")
           eq_refl H1 H2 H3 eq_refl eq_refl).
Defined.

(** C8 on the query "c++": the title "c++ rocks" holds it as a whole word,
    between the start of the title and a space, and the exact mode does
    not keep the tab, because [\b] after a plus sign asks for a word
    character next. *)
Theorem filterTabs_exact_mode_misses_a_whole_word :
  HoldsAsWord (title cpp_tab) (js "c++") /\
  BuildPopup.exactMatch (build_searching true [cpp_tab] (js "c++")) = true /\
  BuildPopup.filteredTabs
    (snd (BuildPopup.filterTabs no_URL
            (build_searching true [cpp_tab] (js "c++")))) = [].
Proof.
  split; [|split; [reflexivity|vm_compute; reflexivity]].
  exists [], (js "c++"), (js " rocks").
  split; [reflexivity|]. split; [|split; reflexivity].
  repeat constructor.
Qed.

(** ** Highlighting *)

(** C3 on a query that is a pattern: with a dot as the query every
    character of "a.b" comes back wrapped, where the text with the copies
    of the query wrapped has only its dot wrapped; and with an opening
    parenthesis as the query, no text comes back at all.  A plain query is
    highlighted as stated. *)
Theorem highlightText_query_as_pattern :
  Popup.highlightText (js "a.b") (js ".") =
    Normal (highlight_open ++ js "a" ++ highlight_close
            ++ highlight_open ++ js "." ++ highlight_close
            ++ highlight_open ++ js "b" ++ highlight_close) /\
  highlighted (Popup.escapeHtml (VString (js ".")))
              (Popup.escapeHtml (VString (js "a.b"))) =
    js "a" ++ highlight_open ++ js "." ++ highlight_close ++ js "b" /\
  Popup.highlightText (js "f(x)") (js "(") =
    Throw (SyntaxError "Unterminated group") /\
  Popup.highlightText (js "Hello World") (js "world") =
    Normal (js "Hello " ++ highlight_open ++ js "World" ++ highlight_close) /\
  Popup.highlightText (js "Hello World") [] =
    Normal (Popup.escapeHtml (VString (js "Hello World"))) /\
  Popup.highlightText [] (js "world") = Normal [].
Proof. repeat split; vm_compute; reflexivity. Qed.

(** ** Highlighting a plain query *)

Lemma plain_head (q rest : jsstring) :
  plain q -> quantifier_free_head rest -> quantifier_free_head (q ++ rest).
Proof.
  intros Hp Hr. destruct Hp as [|c q Hc _]; [exact Hr|].
  cbn. repeat split; intros ->; discriminate.
Qed.

Lemma parse_loop_plain (q rest : jsstring) :
  plain q -> quantifier_free_head rest ->
  forall (fuel : nat) (st : pstate),
    (List.length (q ++ rest) <= fuel)%nat ->
    exists fuel',
      (List.length rest <= fuel')%nat /\
      parse_loop fuel st (q ++ rest) =
      parse_loop fuel' (fold_left add_term (map Char q) st) rest.
Proof.
  intros Hp Hr. induction Hp as [|c q Hc Hp IH]; intros fuel st Hf.
  - exists fuel. split; [exact Hf|reflexivity].
  - cbn [app List.length] in Hf |- *.
    destruct fuel as [|fuel]; [lia|].
    rewrite parse_loop_cons.
    rewrite parse_step_plain by (try exact Hc; apply plain_head; assumption).
    apply IH. lia.
Qed.

Lemma parse_group_pattern (q : jsstring) :
  q <> [] -> plain q ->
  parse_pattern (js "(" ++ q ++ js ")") = Parsed (group_pattern q, 1).
Proof.
  intros Hne Hp. unfold parse_pattern.
  change (js "(" ++ q ++ js ")") with (40%N :: q ++ [41%N]).
  cbn [List.length]. rewrite parse_loop_cons.
  assert (Hopen : parse_step init_pstate 40%N (q ++ [41%N]) =
                  Parsed (open_group init_pstate (GCapture 0), q ++ [41%N])).
  { destruct Hp as [|c q Hc _]; [congruence|].
    unfold parse_step. cbn [app].
    replace (is_syntax_char 40%N) with true by reflexivity.
    cbn [negb]. replace (N.eqb 40 124) with false by reflexivity.
    replace (N.eqb 40 40) with true by reflexivity.
    replace (N.eqb c 63) with false; [reflexivity|].
    symmetry. apply N.eqb_neq. intros ->. discriminate. }
  rewrite Hopen.
  assert (Hh : quantifier_free_head [41%N])
    by (cbn; repeat split; discriminate).
  destruct (@parse_loop_plain q [41%N] Hp Hh
              (List.length (q ++ [41%N]))
              (open_group init_pstate (GCapture 0)) (le_n _))
    as (fuel' & Hf & ->).
  destruct fuel' as [|fuel']; [cbn in Hf; lia|].
  rewrite parse_loop_cons, fold_left_add_term.
  cbn. rewrite parse_loop_nil. cbn.
  unfold close_disj, group_pattern. cbn.
  rewrite app_nil_r, rev_involutive. reflexivity.
Qed.

Section PlainHighlight.

Variable s : jsstring.
Variable q : jsstring.
Hypothesis q_not_empty : q <> [].

Lemma match_at_group_pattern (i : nat) :
  match_at true s (group_pattern q) 1 i =
  if starts_ci (skipn i s) q
  then Some {| endIndex := i + List.length q;
               captures := [Some (i, i + List.length q)] |}
  else None.
Proof.
  unfold match_at, group_pattern.
  change (m true s (Seq (Group 0 ?b) Empty) ?x ?k)
    with (m true s b x
            (fun y => k {| endIndex := endIndex y;
                           captures := set_nth 0 (Some (endIndex x, endIndex y))
                                         (captures y) |})).
  rewrite <- (app_nil_r (map Char q)). rewrite m_literals.
  destruct (starts_ci _ q); reflexivity.
Qed.

Lemma starts_ci_length (t : jsstring) :
  starts_ci t q = true -> (List.length q <= List.length t)%nat.
Proof.
  intros H. apply starts_ci_spec in H. destruct H as (mid & post & -> & He).
  rewrite length_app, (eq_ci_length He). lia.
Qed.

Lemma scan_from (n i j : nat) (y : MatchState) :
  scan true s (group_pattern q) 1 n i = Some (j, y) -> (i <= j)%nat.
Proof.
  revert i. induction n as [|n IH]; intros i; cbn [scan];
    destruct (match_at true s (group_pattern q) 1 i).
  - intros H. injection H as <- _. lia.
  - discriminate.
  - intros H. injection H as <- _. lia.
  - intros H. apply IH in H. lia.
Qed.

Lemma exec_next (k : nat) :
  (k < List.length s)%nat ->
  match_at true s (group_pattern q) 1 k = None ->
  exec true s (group_pattern q) 1 k = exec true s (group_pattern q) 1 (S k).
Proof.
  intros Hk Hm. unfold exec.
  replace (Nat.ltb (List.length s) k) with false
    by (symmetry; apply Nat.ltb_ge; lia).
  replace (Nat.ltb (List.length s) (S k)) with false
    by (symmetry; apply Nat.ltb_ge; lia).
  replace (List.length s - k) with (S (List.length s - S k)) by lia.
  cbn [scan]. rewrite Hm. reflexivity.
Qed.

Lemma exec_here (k : nat) (y : MatchState) :
  (k <= List.length s)%nat ->
  match_at true s (group_pattern q) 1 k = Some y ->
  exec true s (group_pattern q) 1 k = Some (k, y).
Proof.
  intros Hk Hm. unfold exec.
  replace (Nat.ltb (List.length s) k) with false
    by (symmetry; apply Nat.ltb_ge; lia).
  destruct (List.length s - k); cbn [scan]; rewrite Hm; reflexivity.
Qed.

Lemma exec_from (k j : nat) (y : MatchState) :
  exec true s (group_pattern q) 1 k = Some (j, y) -> (k <= j)%nat.
Proof.
  unfold exec. destruct (Nat.ltb _ k); [discriminate|]. apply scan_from.
Qed.

Lemma highlight_substitution (matched : jsstring) (position i e : nat) :
  GetSubstitution matched s position [Some (i, e)] highlight_template =
  highlight_open ++ substring s i e ++ highlight_close.
Proof. reflexivity. Qed.

Lemma replace_results_next (results : list (nat * MatchState)) (k : nat)
    (c : code_unit) :
  nth_error s k = Some c ->
  (forall j y rest, results = (j, y) :: rest -> (S k <= j)%nat) ->
  replace_results s highlight_template results k =
  c :: replace_results s highlight_template results (S k).
Proof.
  intros Hc Hr. destruct results as [|[j y] rest]; cbn [replace_results].
  - rewrite (skipn_nth_error k s), Hc. reflexivity.
  - specialize (Hr j y rest eq_refl).
    replace (Nat.leb k j) with true by (symmetry; apply Nat.leb_le; lia).
    replace (Nat.leb (S k) j) with true by (symmetry; apply Nat.leb_le; lia).
    unfold substring at 1 3.
    rewrite (skipn_nth_error k s), Hc.
    replace (j - k) with (S (j - S k)) by lia. reflexivity.
Qed.

(** The global replace, from index [k] on, wraps the copies of the query
    in what is left of the string. *)
Lemma replace_from (bound : nat) :
  forall (k fuel g : nat),
    (List.length s - k <= bound)%nat ->
    (k <= List.length s)%nat ->
    (List.length s + 1 <= fuel + k)%nat ->
    (List.length s - k <= g)%nat ->
    replace_results s highlight_template
      (collect true s (group_pattern q) 1 fuel k) k =
    wrap_occurrences g q (skipn k s).
Proof.
  induction bound as [|bound IH]; intros k fuel g Hb Hk Hfuel Hg.
  - assert (k = List.length s) by lia. subst k.
    rewrite skipn_all.
    destruct fuel as [|fuel]; [lia|]. cbn [collect].
    unfold exec. rewrite Nat.ltb_irrefl, Nat.sub_diag. cbn [scan].
    rewrite match_at_group_pattern, skipn_all.
    destruct q as [|c q']; [congruence|]. cbn [starts_ci replace_results].
    rewrite skipn_all. destruct g; reflexivity.
  - destruct (Nat.eq_dec k (List.length s)) as [->|Hne].
    { apply IH; lia. }
    assert (Hlt : (k < List.length s)%nat) by lia.
    destruct (nth_error s k) as [c|] eqn:Hc;
      [|apply nth_error_None in Hc; lia].
    destruct fuel as [|fuel]; [lia|].
    destruct g as [|g]; [lia|].
    pose proof (match_at_group_pattern k) as Hm.
    rewrite (skipn_nth_error k s), Hc.
    rewrite (skipn_nth_error k s), Hc in Hm.
    cbn [wrap_occurrences].
    destruct (starts_ci (c :: skipn (S k) s) q) eqn:Hs.
    + pose proof (starts_ci_length _ Hs) as Hlen.
      assert (Hq : (1 <= List.length q)%nat).
      { destruct q; [congruence|cbn; lia]. }
      assert (Hsk : c :: skipn (S k) s = skipn k s).
      { rewrite (skipn_nth_error k s), Hc. reflexivity. }
      rewrite Hsk in Hlen |- *. rewrite length_skipn in Hlen.
      cbn [collect]. rewrite (exec_here (y := {| endIndex := k + List.length q;
        captures := [Some (k, k + List.length q)] |})) by (try lia; exact Hm).
      cbn [endIndex captures].
      replace (Nat.eqb (k + List.length q) k) with false
        by (symmetry; apply Nat.eqb_neq; lia).
      cbn [replace_results endIndex captures].
      rewrite Nat.leb_refl, highlight_substitution.
      unfold substring. rewrite Nat.sub_diag. cbn [firstn app].
      replace (k + List.length q - k) with (List.length q) by lia.
      rewrite firstn_length_le by (rewrite length_skipn; lia).
      rewrite <- !app_assoc. do 3 f_equal.
      rewrite skipn_skipn, (Nat.add_comm (List.length q) k).
      apply IH; lia.
    + cbn [collect]. rewrite exec_next by assumption.
      change (match exec true s (group_pattern q) 1 (S k) with
              | Some (i, y) =>
                  (i, y) :: collect true s (group_pattern q) 1 fuel
                              (if Nat.eqb (endIndex y) i then S (endIndex y)
                               else endIndex y)
              | None => []
              end)
        with (collect true s (group_pattern q) 1 (S fuel) (S k)).
      rewrite (@replace_results_next _ k c Hc).
      * f_equal. apply IH; lia.
      * intros j y rest Hr. cbn [collect] in Hr.
        destruct (exec true s (group_pattern q) 1 (S k)) as [[j' y']|] eqn:He;
          [|discriminate].
        injection Hr as -> _ _. apply exec_from in He. exact He.
Qed.

Lemma replace_plain :
  replace s {| re_body := group_pattern q; re_ncap := 1; re_flags := gi_flags |}
    highlight_template = highlighted q s.
Proof.
  unfold replace, highlighted. cbn [re_flags gi_flags global ignoreCase re_body re_ncap].
  rewrite (@replace_from (List.length s) 0 (S (S (List.length s)))
             (List.length s)) by lia.
  reflexivity.
Qed.

End PlainHighlight.

(** For a text and a query written in U+0000 to U+00FF, the query, once
    escaped for HTML, holding no character of the pattern syntax,
    [highlightText] returns the escaped text with every copy of the
    escaped query, up to case, wrapped in the highlight element, the
    matched text kept as it is written. *)
Theorem highlightText_plain_query (text query : jsstring) :
  latin1 text -> latin1 query ->
  query <> [] -> plain (Popup.escapeHtml (VString query)) ->
  Popup.highlightText text query =
  Normal (highlighted (Popup.escapeHtml (VString query))
                      (Popup.escapeHtml (VString text))).
Proof.
  intros _ _ Hq Hp. unfold Popup.highlightText.
  destruct query as [|c query]; [congruence|]. cbn [is_empty].
  assert (Hne : Popup.escapeHtml (VString (c :: query)) <> []).
  { unfold Popup.escapeHtml, textContent_of, ToString, serialize_text.
    cbn [flat_map].
    destruct (N.eqb c 38); [discriminate|].
    destruct (N.eqb c 160); [discriminate|].
    destruct (N.eqb c 60); [discriminate|].
    destruct (N.eqb c 62); discriminate. }
  unfold RegExp_new. rewrite parse_group_pattern by assumption.
  rewrite replace_plain by exact Hne. reflexivity.
Qed.

(** The same at the query "world". *)
Lemma highlightText_plain_query_witness :
  (latin1 (js "Hello World") /\ latin1 (js "world") /\
   js "world" <> [] /\ plain (Popup.escapeHtml (VString (js "world")))) /\
  Popup.highlightText (js "Hello World") (js "world") =
  Normal (highlighted (Popup.escapeHtml (VString (js "world")))
                      (Popup.escapeHtml (VString (js "Hello World")))).
Proof.
  assert (H1 : latin1 (js "Hello World")) by (cbn; solve_latin1).
  assert (H2 : latin1 (js "world")) by (cbn; solve_latin1).
  assert (H3 : js "world" <> []) by discriminate.
  assert (H4 : plain (Popup.escapeHtml (VString (js "world"))))
    by (repeat constructor).
  split; [repeat split; assumption|].
  exact (@highlightText_plain_query (js "Hello World") (js "world")
           H1 H2 H3 H4).
Defined.

(** ** The parser's fuel *)

Lemma take_digits_length (s : jsstring) :
  (List.length (snd (take_digits s)) <= List.length s)%nat.
Proof.
  induction s as [|c s IH]; cbn [take_digits]; [cbn; lia|].
  destruct (isDecimalDigit c); [|cbn; lia].
  destruct (take_digits s) as [d r]. cbn in IH |- *. lia.
Qed.

Lemma parse_braces_length (s r : jsstring) (mn : N) (mx : option N) :
  parse_braces s = Some (mn, mx, r) -> (List.length r <= List.length s)%nat.
Proof.
  unfold parse_braces.
  pose proof (take_digits_length s) as H1.
  destruct (take_digits s) as [d1 r1]. cbn [snd] in H1.
  destruct d1 as [|x d1]; [discriminate|].
  destruct r1 as [|c r2]; [discriminate|]. cbn [List.length] in H1.
  destruct (N.eqb c 125); [intros H; injection H as _ _ <-; lia|].
  destruct (N.eqb c 44); [|discriminate].
  destruct r2 as [|c2 r3]; [discriminate|].
  destruct (N.eqb c2 125); [intros H; injection H as _ _ <-; cbn in *; lia|].
  pose proof (take_digits_length (c2 :: r3)) as H2.
  destruct (take_digits (c2 :: r3)) as [d2 r4]. cbn [snd] in H2.
  destruct d2 as [|y d2]; [discriminate|].
  destruct r4 as [|c3 r5]; [discriminate|].
  destruct (N.eqb c3 125); [|discriminate].
  intros H; injection H as _ _ <-. cbn [List.length] in *. lia.
Qed.

Lemma parse_quantifier_prefix_length (s r : jsstring)
    (x : option (N * option N)) :
  parse_quantifier_prefix s = Parsed (x, r) ->
  (List.length r <= List.length s)%nat.
Proof.
  unfold parse_quantifier_prefix. destruct s as [|c s].
  - intros H; injection H as _ <-. lia.
  - destruct (N.eqb c 42); [intros H; injection H as _ <-; cbn; lia|].
    destruct (N.eqb c 43); [intros H; injection H as _ <-; cbn; lia|].
    destruct (N.eqb c 63); [intros H; injection H as _ <-; cbn; lia|].
    destruct (N.eqb c 123); [|intros H; injection H as _ <-; lia].
    destruct (parse_braces s) as [[[mn [mx|]] r']|] eqn:E.
    + destruct (mx <? mn)%N; [discriminate|].
      intros H; injection H as _ <-.
      apply parse_braces_length in E. cbn; lia.
    + intros H; injection H as _ <-.
      apply parse_braces_length in E. cbn; lia.
    + intros H; injection H as _ <-. lia.
Qed.

Lemma parse_quantified_length (atom a : regex) (s r : jsstring) :
  parse_quantified atom s = Parsed (a, r) ->
  (List.length r <= List.length s)%nat.
Proof.
  unfold parse_quantified.
  destruct (parse_quantifier_prefix s) as [[[[mn mx]|] r1]| |] eqn:E;
    try discriminate; apply parse_quantifier_prefix_length in E.
  - destruct r1 as [|c r2].
    + intros H; injection H as _ <-. exact E.
    + destruct (N.eqb c 63); intros H; injection H as _ <-;
        cbn [List.length] in *; lia.
  - intros H; injection H as _ <-. exact E.
Qed.

Lemma add_atom_length (st st' : pstate) (s r : jsstring)
    (res : parse_result (regex * jsstring)) :
  (forall a r', res = Parsed (a, r') -> (List.length r' <= List.length s)%nat) ->
  add_atom st res = Parsed (st', r) -> (List.length r <= List.length s)%nat.
Proof.
  intros H. unfold add_atom. destruct res as [[a r']| |]; try discriminate.
  intros E; injection E as _ <-. eapply H. reflexivity.
Qed.

Lemma hex2_length (s r : jsstring) (v : code_unit) :
  hex2 s = Some (v, r) -> (List.length r <= List.length s)%nat.
Proof.
  unfold hex2. destruct s as [|a [|b s]]; try discriminate.
  destruct (hex_value a), (hex_value b); try discriminate.
  intros H; injection H as _ <-. cbn; lia.
Qed.

Lemma hex4_length (s r : jsstring) (v : code_unit) :
  hex4 s = Some (v, r) -> (List.length r <= List.length s)%nat.
Proof.
  unfold hex4. destruct (hex2 s) as [[hi r1]|] eqn:E1; [|discriminate].
  destruct (hex2 r1) as [[lo r2]|] eqn:E2; [|discriminate].
  intros H; injection H as _ <-.
  apply hex2_length in E1, E2. lia.
Qed.

(** After the backslash and the character [c], an escape leaves at most
    [c] and what followed it. *)
Lemma parse_escape_length (in_class : bool) (c : code_unit) (s r : jsstring)
    (e : escape) :
  parse_escape in_class c s = Parsed (e, r) ->
  (List.length r <= S (List.length s))%nat.
Proof.
  unfold parse_escape.
  repeat match goal with
  | |- context [if ?b then Parsed (?x, s) else _] =>
      destruct b; [intros H; injection H as _ <-; lia|]
  end.
  destruct (N.eqb c 99).
  { destruct s as [|l s'].
    - intros H; injection H as _ <-. cbn; lia.
    - destruct (_ || _); intros H; injection H as _ <-; cbn; lia. }
  destruct (N.eqb c 48).
  { destruct s as [|d s'].
    - intros H; injection H as _ <-. cbn; lia.
    - destruct (isDecimalDigit d); [discriminate|].
      intros H; injection H as _ <-. cbn; lia. }
  destruct (isDecimalDigit c); [discriminate|].
  destruct (N.eqb c 120).
  { destruct (hex2 s) as [[v r']|] eqn:E.
    - intros H; injection H as _ <-. apply hex2_length in E. lia.
    - intros H; injection H as _ <-. lia. }
  destruct (N.eqb c 117).
  { destruct (hex4 s) as [[v r']|] eqn:E.
    - intros H; injection H as _ <-. apply hex4_length in E. lia.
    - intros H; injection H as _ <-. lia. }
  intros H; injection H as _ <-. lia.
Qed.

Lemma read_class_atom_length (s r : jsstring) (e : escape) :
  read_class_atom s = Parsed (e, r) -> (List.length r < List.length s)%nat.
Proof.
  unfold read_class_atom. destruct s as [|c s]; [discriminate|].
  destruct (N.eqb c 92).
  - destruct s as [|x s']; [discriminate|].
    intros H. apply parse_escape_length in H. cbn [List.length]. lia.
  - intros H; injection H as _ <-. cbn; lia.
Qed.

Lemma parse_class_items_length (fuel : nat) :
  forall (s r : jsstring) (acc items : list class_item),
    parse_class_items fuel s acc = Parsed (items, r) ->
    (List.length r < List.length s)%nat.
Proof.
  induction fuel as [|fuel IH]; intros s r acc items; cbn [parse_class_items];
    [discriminate|].
  destruct s as [|c s']; [discriminate|].
  destruct (N.eqb c 93); [intros H; injection H as _ <-; cbn; lia|].
  destruct (read_class_atom (c :: s')) as [[a r1]| |] eqn:E1; try discriminate.
  apply read_class_atom_length in E1.
  destruct r1 as [|dash [|nxt r2']].
  - intros H. apply IH in H. cbn in H. lia.
  - intros H. apply IH in H. lia.
  - destruct (N.eqb dash 45 && negb (N.eqb nxt 93)).
    + destruct (read_class_atom (nxt :: r2')) as [[b r3]| |] eqn:E2;
        try discriminate.
      apply read_class_atom_length in E2.
      destruct a as [lo|i]; [destruct b as [hi|j]|].
      * destruct (hi <? lo)%N; [discriminate|].
        intros H. apply IH in H. cbn [List.length] in *. lia.
      * intros H. apply IH in H. cbn [List.length] in *. lia.
      * intros H. apply IH in H. cbn [List.length] in *. lia.
    + intros H. apply IH in H. lia.
Qed.

Lemma parse_class_length (s r : jsstring) (cls : regex) :
  parse_class s = Parsed (cls, r) -> (List.length r <= List.length s)%nat.
Proof.
  unfold parse_class.
  assert (Hb : forall body, (List.length body <= List.length s)%nat ->
            forall invert,
            match parse_class_items (S (List.length body)) body [] with
            | Parsed (items, r0) => Parsed (Class invert items, r0)
            | Invalid msg => Invalid msg
            | Unsupported => Unsupported
            end = Parsed (cls, r) -> (List.length r <= List.length s)%nat).
  { intros body Hl invert.
    destruct (parse_class_items _ body []) as [[items r0]| |] eqn:E;
      try discriminate.
    intros H; injection H as _ <-. apply parse_class_items_length in E. lia. }
  destruct s as [|c s']; [apply Hb; lia|].
  destruct (N.eqb c 94); apply Hb; cbn; lia.
Qed.

(** Every step of the parser takes its first character and gives back no
    more than what followed it. *)
Lemma parse_step_length (st st' : pstate) (c : code_unit) (s r : jsstring) :
  parse_step st c s = Parsed (st', r) -> (List.length r <= List.length s)%nat.
Proof.
  unfold parse_step.
  assert (Hq : forall atom st0,
            add_atom st0 (parse_quantified atom s) = Parsed (st', r) ->
            (List.length r <= List.length s)%nat).
  { intros atom st0. apply add_atom_length.
    intros a r'. apply parse_quantified_length. }
  destruct (negb (is_syntax_char c)); [apply Hq|].
  destruct (N.eqb c 124); [intros H; injection H as _ <-; lia|].
  destruct (N.eqb c 40).
  { destruct s as [|x r1]; [intros H; injection H as _ <-; lia|].
    destruct (N.eqb x 63); [|intros H; injection H as _ <-; lia].
    destruct r1 as [|k r2]; [discriminate|].
    destruct (N.eqb k 58); [intros H; injection H as _ <-; cbn; lia|].
    destruct (N.eqb k 61); [intros H; injection H as _ <-; cbn; lia|].
    destruct (N.eqb k 33); [intros H; injection H as _ <-; cbn; lia|].
    destruct (existsb _ _); discriminate. }
  destruct (N.eqb c 41).
  { destruct (stack st) as [|[k parent] stk]; [discriminate|].
    destruct k as [i| |inv]; [apply Hq|apply Hq|].
    destruct (parse_quantifier_prefix s) as [[[x|] r1]| |]; try discriminate.
    intros H; injection H as _ <-. lia. }
  destruct (N.eqb c 42 || N.eqb c 43 || N.eqb c 63); [discriminate|].
  destruct (N.eqb c 123).
  { destruct (parse_braces s); [discriminate|apply Hq]. }
  destruct (N.eqb c 125 || N.eqb c 93); [apply Hq|].
  destruct (N.eqb c 94); [intros H; injection H as _ <-; lia|].
  destruct (N.eqb c 36); [intros H; injection H as _ <-; lia|].
  destruct (N.eqb c 46); [apply Hq|].
  destruct (N.eqb c 91).
  { destruct (parse_class s) as [[cls r1]| |] eqn:E; try discriminate.
    apply parse_class_length in E.
    intros H. apply add_atom_length with (s := r1) in H; [lia|].
    intros a r'. apply parse_quantified_length. }
  destruct s as [|e r1]; [discriminate|].
  destruct (N.eqb e 98); [intros H; injection H as _ <-; cbn; lia|].
  destruct (N.eqb e 66); [intros H; injection H as _ <-; cbn; lia|].
  destruct (parse_escape false e r1) as [[[ch|i] r2]| |] eqn:E;
    try discriminate; apply parse_escape_length in E;
    intros H; apply add_atom_length with (s := r2) in H;
    try (cbn [List.length]; lia);
    intros a r'; apply parse_quantified_length.
Qed.

(** The length of the pattern is fuel enough: more fuel changes nothing,
    so the parser never stops for want of it. *)
Lemma parse_loop_fuel (n : nat) :
  forall (s : jsstring) (st : pstate) (fuel : nat),
    (List.length s <= n)%nat -> (List.length s <= fuel)%nat ->
    parse_loop fuel st s = parse_loop (List.length s) st s.
Proof.
  induction n as [|n IH]; intros s st fuel Hn Hf.
  - destruct s; [|cbn in Hn; lia]. rewrite !parse_loop_nil. reflexivity.
  - destruct s as [|c r]; [rewrite !parse_loop_nil; reflexivity|].
    cbn [List.length] in *. destruct fuel as [|fuel]; [lia|].
    rewrite !parse_loop_cons.
    destruct (parse_step st c r) as [[st' r']| |] eqn:E; try reflexivity.
    apply parse_step_length in E.
    rewrite (IH r' st' fuel) by lia.
    rewrite (IH r' st' (List.length r)) by lia. reflexivity.
Qed.

(** ** The direct readings of [replace] against the engine *)

(** The class of [escapeRegExp] and the five patterns of [escapeHtml], run
    through the engine on sample strings, give what the character-wise
    readings used above give. *)
Example escapeRegExp_by_the_engine :
  match RegExp_new (js "[.*+?^${}()|[\]\\]") g_flags with
  | Parsed re => Normal (replace (js "c++ [x] (y)? a.b|c {1} ^$ \d") re (js "\$&"))
  | Invalid msg => Throw (SyntaxError msg)
  | Unsupported => Unmodelled
  end = Normal (BuildPopup.escapeRegExp (js "c++ [x] (y)? a.b|c {1} ^$ \d")).
Proof. vm_compute. reflexivity. Qed.

Example escapeHtml_by_the_engine :
  let sample := js "<a href='x'>Tom & Jerry</a> " ++ [dquote] ++ js "&amp;" in
  let step (pattern by_ : jsstring) (s : completion jsstring) :=
    match s, RegExp_new pattern g_flags with
    | Normal t, Parsed re => Normal (replace t re by_)
    | _, _ => Unmodelled
    end in
  step (js "'") (js "&#x27;")
    (step [dquote] (js "&quot;")
       (step (js ">") (js "&gt;")
          (step (js "<") (js "&lt;")
             (step (js "&") (js "&amp;") (Normal sample)))))
  = Normal (BuildPopup.escapeHtml (VString sample)).
Proof. vm_compute. reflexivity. Qed.

(** ** What rendering produces *)

Lemma Subsequence_refl {A : Type} (l : list A) : Subsequence l l.
Proof. induction l; constructor; assumption. Qed.

Lemma Subsequence_filter {A : Type} (f : A -> bool) (r l : list A) :
  Subsequence r l -> Subsequence (filter f r) (filter f l).
Proof.
  induction 1; cbn [filter].
  - constructor.
  - destruct (f a); [constructor|]; assumption.
  - destruct (f a); [constructor|]; assumption.
Qed.

Lemma Subsequence_filter_self {A : Type} (f : A -> bool) (l : list A) :
  Subsequence (filter f l) l.
Proof.
  induction l as [|a l IH]; cbn [filter]; [constructor|].
  destruct (f a); constructor; assumption.
Qed.

Lemma selected_items_cleared (items : list TabItem) :
  selected_items (map (set_keyboard_active false) items) = 0%nat.
Proof.
  unfold selected_items. induction items as [|it items IH]; [reflexivity|].
  cbn [map filter set_keyboard_active keyboard_active]. exact IH.
Qed.

Section Rendering.

Variable new_URL : jsstring -> option (jsstring * jsstring).


End Rendering.

(** ** Stored tabs, and calls that only speak to the host *)

Lemma store_tab_title (t : RawTab) : title (Popup.store_tab t) <> [].
Proof.
  unfold Popup.store_tab, field_or, or_default. cbn [title].
  destruct (raw_title t) as [[|c x]|]; discriminate.
Qed.

Lemma Forall_filter {A : Type} (P : A -> Prop) (f : A -> bool) (l : list A) :
  Forall P l -> Forall P (filter f l).
Proof.
  induction 1 as [|a l Ha _ IH]; cbn [filter]; [constructor|].
  destruct (f a); [constructor|]; assumption.
Qed.

Lemma popup_switchToTab_host_only (tabId : Z) (updated : completion unit)
    (got : completion RawTab) (focused : completion unit)
    (s : Popup.TabSearcher) :
  popup_host_only s (snd (Popup.switchToTab tabId updated got focused s)).
Proof.
  unfold Popup.switchToTab, try_catch, bind, Popup.await, Popup.call,
    Popup.console_error, modify, popup_host_only.
  destruct updated as [[]|e|]; [destruct got as [t|e|];
    [destruct focused as [[]|e|]|..]|..]; cbn; repeat split; reflexivity.
Qed.

(** ** Refreshing *)

Section Refresh.

Variable new_URL : jsstring -> option (jsstring * jsstring).

(** [loadTabs] speaks to the host through its queries only. *)
Lemma popup_loadTabs_calls (all_tabs active_tabs : completion (list RawTab))
    (s : Popup.TabSearcher) :
  exists calls,
    host_calls (Popup.page (snd (Popup.loadTabs new_URL all_tabs active_tabs s)))
    = host_calls (Popup.page s) ++ calls /\
    close_calls calls = [] /\
    (calls = [TabsQueryAll] \/ calls = [TabsQueryAll; TabsQueryActive]).
Proof.
  unfold Popup.loadTabs, Popup.showLoading, try_finally, try_catch,
    bind, Popup.await, modify. cbn beta iota.
  destruct all_tabs as [l| |]; cbn beta iota;
    [destruct active_tabs as [a| |]; cbn beta iota|..];
    try solve [exists [TabsQueryAll]; cbn; repeat split; auto];
    try solve [exists [TabsQueryAll; TabsQueryActive]; cbn;
               rewrite <- app_assoc; repeat split; auto].
  match goal with
  | |- context [Popup.updateUI new_URL ?s1] =>
      destruct (popup_updateUI_ui_only new_URL s1) as (_ & _ & _ & _ & _ & _ & H);
      destruct (Popup.updateUI new_URL s1) as [[[]|e1|] s2]
  end; cbn in H |- *; rewrite H; exists [TabsQueryAll; TabsQueryActive];
    rewrite <- app_assoc; repeat split; auto.
Qed.

(** When both queries succeed, [loadTabs] replaces the tabs by the host's
    records, with the defaults for a missing title or address; the
    filtered tabs are all of them, whatever the search box holds; the
    current tab is the first record of the second query, if any. *)
Theorem loadTabs_success (l found : list RawTab) (s : Popup.TabSearcher) :
  let s' := snd (Popup.loadTabs new_URL (Normal l) (Normal found) s) in
  Popup.tabs s' = map Popup.store_tab l /\
  map id (Popup.tabs s') = map raw_id l /\
  Forall (fun t => title t <> []) (Popup.tabs s') /\
  Popup.filteredTabs s' = Popup.tabs s' /\
  Popup.currentTabId s' = option_map raw_id (hd_error found) /\
  searchInput_value (Popup.page s') = searchInput_value (Popup.page s) /\
  host_calls (Popup.page s') =
    host_calls (Popup.page s) ++ [TabsQueryAll; TabsQueryActive].
Proof.
  cbn zeta.
  assert (Ht : Forall (fun t => title t <> []) (map Popup.store_tab l)).
  { apply Forall_forall. intros t Ht. apply in_map_iff in Ht.
    destruct Ht as [r [<- _]]. apply store_tab_title. }
  assert (Hi : map id (map Popup.store_tab l) = map raw_id l).
  { rewrite map_map. reflexivity. }
  unfold Popup.loadTabs, Popup.showLoading, try_finally, try_catch,
    bind, Popup.await, modify. cbn beta iota.
  match goal with
  | |- context [Popup.updateUI new_URL ?s1] =>
      destruct (popup_updateUI_ui_only new_URL s1)
        as (H1 & H2 & H3 & H4 & _ & _ & H7);
      destruct (Popup.updateUI new_URL s1) as [[[]|e1|] s2]
  end; cbn in H1, H2, H3, H4, H7 |- *; rewrite H1, H2, H3, H4, H7, <- app_assoc;
    repeat split; assumption.
Qed.

End Refresh.

(** ** Rendering *)


Lemma trim_nil_toLowerCase (v : jsstring) :
  trim (toLowerCase v) = [] <-> trim v = [].
Proof. rewrite trim_toLowerCase. apply toLowerCase_nil. Qed.

Section RenderingOutcomes.

Variable new_URL : jsstring -> option (jsstring * jsstring).

Lemma popup_updateStats_Normal (s : Popup.TabSearcher) :
  fst (Popup.updateStats s) = Normal tt.
Proof.
  unfold Popup.updateStats, bind, get, modify. cbn.
  destruct (negb _ && negb _); reflexivity.
Qed.

Lemma popup_updateStats_page (s : Popup.TabSearcher) :
  let s' := snd (Popup.updateStats s) in
  tabsList_content (Popup.page s') = tabsList_content (Popup.page s) /\
  tabsList_display (Popup.page s') = tabsList_display (Popup.page s) /\
  noResultsEl_display (Popup.page s') = noResultsEl_display (Popup.page s).
Proof.
  unfold Popup.updateStats, bind, get, modify. cbn.
  destruct (negb _ && negb _); repeat split; reflexivity.
Qed.


(** With a query whose pattern the host rejects, the first call of
    [createTabHTML] throws. *)
Lemma popup_mapM_invalid (t : Tab) (l : list Tab) (s : Popup.TabSearcher)
    (msg : string) :
  let query := trim (toLowerCase (searchInput_value (Popup.page s))) in
  query <> [] ->
  RegExp_new (js "(" ++ Popup.escapeHtml (VString query) ++ js ")") gi_flags
    = Invalid msg ->
  mapM (Popup.createTabHTML new_URL) (t :: l) s = (Throw (SyntaxError msg), s).
Proof.
  cbn zeta. intros Hq Hre. cbn [mapM]. unfold bind at 1.
  unfold Popup.createTabHTML at 1, bind, get, lift, ret. cbn beta iota.
  unfold Popup.highlightText at 1.
  destruct (trim (toLowerCase (searchInput_value (Popup.page s)))) as [|c q];
    [congruence|].
  cbn [is_empty]. rewrite Hre. reflexivity.
Qed.


(** When the search box holds a text of U+0000 to U+00FF whose query
    makes a pattern that the host rejects, and that the parser finds
    [Invalid], [filterTabs] throws the host's error as soon as one tab is
    kept, after it has stored the filtered tabs and before the list is
    rendered again; with no tab kept it returns, and the no-results panel
    is shown. *)
Theorem filterTabs_invalid_pattern (s : Popup.TabSearcher) (msg : string) :
  let query := trim (toLowerCase (searchInput_value (Popup.page s))) in
  latin1 (searchInput_value (Popup.page s)) ->
  query <> [] ->
  RegExp_new (js "(" ++ Popup.escapeHtml (VString query) ++ js ")") gi_flags
    = Invalid msg ->
  let r := Popup.filterTabs new_URL s in
  match Popup.filteredTabs (snd r) with
  | [] => fst r = Normal tt /\
          noResultsEl_display (Popup.page (snd r)) = DisplayFlex
  | _ :: _ => fst r = Throw (SyntaxError msg) /\
              tabsList_content (Popup.page (snd r))
              = tabsList_content (Popup.page s)
  end.
Proof.
  cbn zeta. intros _ Hq Hre.
  destruct (popup_filterTabs_fields new_URL s) as [_ HF]. cbn zeta in HF.
  rewrite HF. rewrite popup_filterTabs_unfold. cbn zeta.
  destruct (is_empty (trim (toLowerCase (searchInput_value (Popup.page s)))))
    eqn:Eq; [apply is_empty_true in Eq; congruence|].
  set (F := filter _ (Popup.tabs s)).
  unfold Popup.updateUI, bind.
  pose proof (popup_updateStats_Normal (Popup.with_filteredTabs F s)) as HN.
  destruct (popup_updateStats_ui_only (Popup.with_filteredTabs F s))
    as (_ & U2 & _ & U4 & _).
  destruct (popup_updateStats_page (Popup.with_filteredTabs F s))
    as (P1 & _ & _). cbn zeta in P1.
  destruct (Popup.updateStats (Popup.with_filteredTabs F s)) as [c s2].
  cbn [fst snd] in HN, U2, U4, P1. subst c.
  cbn [Popup.filteredTabs Popup.with_filteredTabs Popup.page] in U2, U4, P1.
  unfold Popup.renderTabs, bind, get. cbn beta iota. rewrite U2, U4.
  assert (Hb : is_empty (trim (searchInput_value (Popup.page s))) = false).
  { destruct (is_empty (trim (searchInput_value (Popup.page s)))) eqn:E;
      [|reflexivity].
    apply is_empty_true, trim_nil_toLowerCase in E. congruence. }
  rewrite Hb. destruct F as [|t F].
  - cbn. split; reflexivity.
  - cbn [List.length Nat.eqb andb]. unfold Popup.showNoResults, modify.
    cbn beta iota.
    rewrite (@popup_mapM_invalid t F _ msg).
    + cbn. split; [reflexivity|exact P1].
    + cbn. rewrite U4. exact Hq.
    + cbn. rewrite U4. exact Hre.
Qed.

End RenderingOutcomes.

(** The same at a question mark typed over a tab titled "what?": the
    pattern is [(?)], an invalid group. *)
Lemma filterTabs_invalid_pattern_witness :
  (latin1 (searchInput_value (Popup.page question_search)) /\
   trim (toLowerCase (searchInput_value (Popup.page question_search))) <> [] /\
   RegExp_new
     (js "(" ++ Popup.escapeHtml
                  (VString (trim (toLowerCase
                     (searchInput_value (Popup.page question_search)))))
             ++ js ")") gi_flags
   = Invalid "Invalid group") /\
  fst (Popup.filterTabs no_URL question_search)
  = Throw (SyntaxError "Invalid group").
Proof.
  assert (H0 : latin1 (searchInput_value (Popup.page question_search)))
    by solve_latin1.
  assert (H1 : trim (toLowerCase (searchInput_value (Popup.page question_search)))
               <> []) by discriminate.
  assert (H2 : RegExp_new
     (js "(" ++ Popup.escapeHtml
                  (VString (trim (toLowerCase
                     (searchInput_value (Popup.page question_search)))))
             ++ js ")") gi_flags
   = Invalid "Invalid group") by reflexivity.
  split; [split; [exact H0|split; assumption]|].
  exact (proj1 (@filterTabs_invalid_pattern no_URL question_search
                  "Invalid group" H0 H1 H2)).
Defined.

(** ** Acting on tabs *)

Section TabActions.

Variable new_URL : jsstring -> option (jsstring * jsstring).

Lemma popup_close_set (s : Popup.TabSearcher) :
  OtherTabs (Popup.currentTabId s) (Popup.tabs s)
    (map id (filter (fun tab => negb (Popup.is_current s tab)
                                && negb (pinned tab))
                    (Popup.tabs s))).
Proof.
  eexists. split; [|reflexivity].
  apply Filtered_filter. intros t.
  unfold Popup.is_current.
  rewrite andb_true_iff, !negb_true_iff.
  destruct (Popup.currentTabId s) as [c|].
  - rewrite Z.eqb_neq. split; intros [H1 H2]; (split; [|exact H2]); congruence.
  - split; intros [H1 H2]; (split; [|exact H2]); congruence.
Qed.

(** [closeOtherTabs] in [popup.js].  Without the user's confirmation the
    only thing that happens is the question.  With it, the host is asked,
    in one call made only when the set is not empty, to close the tabs
    that are not pinned and are not the current one; no pinned tab and
    never the current tab is among them.  The refresh follows only when
    the host has closed them: when it refuses, no query is made and the
    lists are what they were. *)
Theorem popup_closeOtherTabs_requests (confirmed : bool)
    (removed : completion unit) (all_tabs active_tabs : completion (list RawTab))
    (s : Popup.TabSearcher) :
  let r := Popup.closeOtherTabs new_URL confirmed removed all_tabs active_tabs s in
  let s' := snd r in
  exists ids calls,
    OtherTabs (Popup.currentTabId s) (Popup.tabs s) ids /\
    (forall i, In i ids ->
       Some i <> Popup.currentTabId s /\
       exists t, In t (Popup.tabs s) /\ id t = i /\ pinned t = false) /\
    host_calls (Popup.page s') = host_calls (Popup.page s) ++ calls /\
    close_calls calls =
      match confirmed, ids with
      | true, _ :: _ => [TabsRemoveAll ids]
      | _, _ => []
      end /\
    (confirmed = false ->
     r = (Normal tt, Popup.on_page (log_call (Confirm confirm_message)) s)) /\
    (forall e, removed = Throw e ->
       fst r = Normal tt /\
       Popup.tabs s' = Popup.tabs s /\
       Popup.filteredTabs s' = Popup.filteredTabs s /\
       ~ In TabsQueryAll calls).
Proof.
  cbn zeta.
  set (ids := map id (filter (fun tab => negb (Popup.is_current s tab)
                                         && negb (pinned tab)) (Popup.tabs s))).
  assert (Hids : OtherTabs (Popup.currentTabId s) (Popup.tabs s) ids)
    by apply popup_close_set.
  assert (Hin : forall i, In i ids ->
            Some i <> Popup.currentTabId s /\
            exists t, In t (Popup.tabs s) /\ id t = i /\ pinned t = false).
  { intros i Hi. destruct Hids as (kept & Hk & Hm). rewrite Hm in Hi.
    apply in_map_iff in Hi. destruct Hi as (t & <- & Ht).
    apply (Filtered_In Hk) in Ht. destruct Ht as (Ht & Hc & Hp).
    split; [exact Hc|]. exists t. repeat split; assumption. }
  exists ids.
  unfold Popup.closeOtherTabs, Popup.call, try_catch, bind, get,
    modify, ret. cbn beta iota.
  destruct confirmed; cbn [negb].
  2:{ exists [Confirm confirm_message].
      split; [exact Hids|]. split; [exact Hin|]. cbn.
      repeat split; try reflexivity. intros [H0|[]]; discriminate. }
  cbn beta iota.
  change (Popup.is_current (Popup.on_page (log_call (Confirm confirm_message)) s))
    with (Popup.is_current s).
  cbn [Popup.tabs Popup.currentTabId Popup.on_page].
  fold ids. clearbody ids.
  destruct ids as [|i ids]; cbn [List.length Nat.ltb Nat.leb].
  { exists [Confirm confirm_message].
    split; [exact Hids|]. split; [exact Hin|]. cbn.
    repeat split; try reflexivity; try discriminate.
    intros [H0|[]]; discriminate. }
  unfold Popup.await. cbn beta iota.
  destruct removed as [[]|e|]; cbn beta iota.
  - match goal with
    | |- context [Popup.loadTabs new_URL _ _ ?s1] =>
        destruct (popup_loadTabs_calls new_URL all_tabs active_tabs s1)
          as (calls & Hc & Hn & _);
        destruct (Popup.loadTabs new_URL all_tabs active_tabs s1)
          as [[[]|e1|] s2]
    end; cbn [snd fst] in Hc |- *;
      exists ([Confirm confirm_message; TabsRemoveAll (i :: ids)] ++ calls);
      (split; [exact Hids|]); (split; [exact Hin|]);
      unfold Popup.console_error, modify; cbn [snd];
      cbn [Popup.page Popup.on_page host_calls log_error log_call] in Hc |- *;
      rewrite Hc; unfold close_calls in *; rewrite filter_app, Hn;
      (split; [rewrite <- !app_assoc; reflexivity|]);
      (split; [reflexivity|]); split; intros; discriminate.
  - exists [Confirm confirm_message; TabsRemoveAll (i :: ids)].
    split; [exact Hids|]. split; [exact Hin|]. cbn. rewrite <- app_assoc.
    repeat split; try reflexivity; try discriminate.
    intros [H0|[H0|[]]]; discriminate.
  - exists [Confirm confirm_message; TabsRemoveAll (i :: ids)].
    split; [exact Hids|]. split; [exact Hin|]. cbn. rewrite <- app_assoc.
    repeat split; try reflexivity; try discriminate.
Qed.

(** The calls of [closeOtherTabs], for the events below. *)
Lemma popup_closeOtherTabs_calls (confirmed : bool)
    (removed : completion unit) (all_tabs active_tabs : completion (list RawTab))
    (s : Popup.TabSearcher) :
  exists ids calls,
    OtherTabs (Popup.currentTabId s) (Popup.tabs s) ids /\
    host_calls (Popup.page (snd (Popup.closeOtherTabs new_URL confirmed removed
                                   all_tabs active_tabs s)))
    = host_calls (Popup.page s) ++ calls /\
    close_calls calls =
      match confirmed, ids with
      | true, _ :: _ => [TabsRemoveAll ids]
      | _, _ => []
      end.
Proof.
  set (ids := map id (filter (fun tab => negb (Popup.is_current s tab)
                                         && negb (pinned tab)) (Popup.tabs s))).
  assert (Hids : OtherTabs (Popup.currentTabId s) (Popup.tabs s) ids)
    by apply popup_close_set.
  exists ids.
  unfold Popup.closeOtherTabs, Popup.call, try_catch, bind, get,
    modify, ret. cbn beta iota.
  destruct confirmed; cbn [negb];
    [|exists [Confirm confirm_message]; split; [exact Hids|];
      split; reflexivity].
  cbn beta iota.
  change (Popup.is_current (Popup.on_page (log_call (Confirm confirm_message)) s))
    with (Popup.is_current s).
  cbn [Popup.tabs Popup.currentTabId Popup.on_page].
  fold ids. clearbody ids.
  destruct ids as [|i ids]; cbn [List.length Nat.ltb Nat.leb];
    [exists [Confirm confirm_message]; split; [exact Hids|];
     split; reflexivity|].
  unfold Popup.await. cbn beta iota.
  destruct removed as [[]|e|]; cbn beta iota;
    try (exists [Confirm confirm_message; TabsRemoveAll (i :: ids)];
         split; [exact Hids|]; cbn; rewrite <- app_assoc; split; reflexivity).
  match goal with
  | |- context [Popup.loadTabs new_URL _ _ ?s1] =>
      destruct (popup_loadTabs_calls new_URL all_tabs active_tabs s1)
        as (calls & Hc & Hn & _);
      destruct (Popup.loadTabs new_URL all_tabs active_tabs s1)
        as [[[]|e1|] s2]
  end; cbn [snd fst] in Hc |- *;
    exists ([Confirm confirm_message; TabsRemoveAll (i :: ids)] ++ calls);
    (split; [exact Hids|]);
    unfold Popup.console_error, modify; cbn [snd];
    cbn [Popup.page Popup.on_page host_calls log_error log_call] in Hc |- *;
    rewrite Hc; unfold close_calls in *; rewrite filter_app, Hn;
    (split; [rewrite <- !app_assoc; reflexivity|reflexivity]).
Qed.

Lemma popup_switchToTab_calls (tabId : Z) (updated : completion unit)
    (got : completion RawTab) (focused : completion unit)
    (s : Popup.TabSearcher) :
  exists calls,
    host_calls (Popup.page (snd (Popup.switchToTab tabId updated got focused s)))
    = host_calls (Popup.page s) ++ calls /\
    close_calls calls = [].
Proof.
  unfold Popup.switchToTab, try_catch, bind, Popup.await, Popup.call,
    Popup.console_error, modify.
  destruct updated as [[]|e|]; [destruct got as [t|e|];
    [destruct focused as [[]|e|]|..]|..]; cbn;
    rewrite <- ?app_assoc; eexists; (split; [reflexivity|]); reflexivity.
Qed.

(** [switchToTab] asks the host to activate the tab, then for the tab,
    then to focus the tab's window, and stops at the first of the three
    that fails; it closes the popup exactly when the three have
    succeeded; it lets no exception out, and logs one for a failure; it
    never asks the host to close a tab, and it changes nothing of the
    popup's own state. *)
Theorem switchToTab_requests (tabId : Z) (updated : completion unit)
    (got : completion RawTab) (focused : completion unit)
    (s : Popup.TabSearcher) :
  let r := Popup.switchToTab tabId updated got focused s in
  let s' := snd r in
  popup_host_only s s' /\
  (forall e, fst r <> Throw e) /\
  exists calls,
    host_calls (Popup.page s') = host_calls (Popup.page s) ++ calls /\
    close_calls calls = [] /\
    calls =
      match updated, got, focused with
      | Normal _, Normal tab, Normal _ =>
          [TabsUpdate tabId; TabsGet tabId; WindowsUpdate (raw_windowId tab);
           WindowClose]
      | Normal _, Normal tab, _ =>
          [TabsUpdate tabId; TabsGet tabId; WindowsUpdate (raw_windowId tab)]
      | Normal _, _, _ => [TabsUpdate tabId; TabsGet tabId]
      | _, _, _ => [TabsUpdate tabId]
      end /\
    console_errors (Popup.page s') =
      console_errors (Popup.page s) ++
      match updated, got, focused with
      | Throw _, _, _ | Normal _, Throw _, _ | Normal _, Normal _, Throw _ =>
          [js "Error switching to tab:"]
      | _, _, _ => []
      end.
Proof.
  cbn zeta. split; [apply popup_switchToTab_host_only|].
  unfold Popup.switchToTab, try_catch, bind, Popup.await, Popup.call,
    Popup.console_error, modify.
  destruct updated as [[]|e|]; [destruct got as [t|e|];
    [destruct focused as [[]|e|]|..]|..]; cbn;
    (split; [intros e'; discriminate|]);
    refine (ex_intro _ _ (conj _ (conj _ (conj eq_refl _))));
    rewrite <- ?app_assoc, ?app_nil_r; reflexivity.
Qed.

End TabActions.

(** ** Keys *)

Lemma str_eqb_eq (a b : jsstring) : str_eqb a b = true <-> a = b.
Proof.
  revert b. induction a as [|c a IH]; intros [|d b]; cbn [str_eqb];
    try (split; [discriminate|discriminate]); [tauto|].
  rewrite andb_true_iff, N.eqb_eq, IH. split.
  - intros [-> ->]. reflexivity.
  - intros H. injection H as -> ->. split; reflexivity.
Qed.

(** [tabItems[currentIndex]] is the first item that carries the
    [keyboard-active] class, when there is one. *)
Lemma item_at_active_index (items : list TabItem) :
  item_at items (active_index items) = find keyboard_active items.
Proof.
  unfold item_at. induction items as [|it items IH]; [reflexivity|].
  cbn [active_index find].
  destruct (keyboard_active it); [reflexivity|].
  pose proof (active_index_range items) as Hr.
  destruct (active_index items <? 0)%Z eqn:E.
  - cbn. exact IH.
  - apply Z.ltb_ge in E.
    replace (active_index items + 1 <? 0)%Z with false
      by (symmetry; apply Z.ltb_ge; lia).
    replace (Z.to_nat (active_index items + 1))
      with (S (Z.to_nat (active_index items))) by lia.
    cbn [nth_error]. exact IH.
Qed.

Lemma map_set_nth_cleared (n : nat) (it : TabItem) (items : list TabItem) :
  nth_error (map (set_keyboard_active false) items) n = Some it ->
  map (set_keyboard_active false)
    (set_nth n (set_keyboard_active true it)
       (map (set_keyboard_active false) items))
  = map (set_keyboard_active false) items.
Proof.
  revert n. induction items as [|x items IH]; intros n H.
  - destruct n; reflexivity.
  - destruct n as [|n]; cbn [map set_nth nth_error] in H |- *.
    + injection H as <-. rewrite map_map. reflexivity.
    + rewrite (IH n H). reflexivity.
Qed.

Lemma map_cleared_twice (items : list TabItem) :
  map (set_keyboard_active false) (map (set_keyboard_active false) items)
  = map (set_keyboard_active false) items.
Proof. rewrite map_map. reflexivity. Qed.

Lemma selected_items_set_nth_true (n : nat) (it : TabItem)
    (items : list TabItem) :
  (n < List.length items)%nat ->
  selected_items (set_nth n (set_keyboard_active true it)
                    (map (set_keyboard_active false) items)) = 1%nat.
Proof.
  unfold selected_items. revert n.
  induction items as [|x items IH]; intros n H; [cbn in H; lia|].
  destruct n as [|n];
    cbn [map set_nth filter set_keyboard_active keyboard_active List.length].
  - f_equal. apply selected_items_cleared.
  - apply IH. cbn in H. lia.
Qed.

(** What [highlightTab] changes: the selection, and nothing else of the
    items; the selected item, when there is one, is scrolled into view. *)
Lemma highlightTab_effect (index : Z) (s : Popup.TabSearcher) :
  let s' := snd (Popup.highlightTab index s) in
  let selected := (0 <=? active_index (popup_items s'))%Z in
  map (set_keyboard_active false) (popup_items s')
  = map (set_keyboard_active false) (popup_items s) /\
  selected_items (popup_items s') = (if selected then 1 else 0)%nat /\
  host_calls (Popup.page s') =
    host_calls (Popup.page s) ++
    (if selected
     then [ScrollIntoView (Z.to_nat (active_index (popup_items s')))]
     else []) /\
  Popup.tabs s' = Popup.tabs s /\
  Popup.filteredTabs s' = Popup.filteredTabs s /\
  Popup.currentTabId s' = Popup.currentTabId s /\
  searchInput_value (Popup.page s') = searchInput_value (Popup.page s).
Proof.
  cbn zeta.
  destruct (highlightTab_selection index s) as [_ HI]. cbn zeta in HI.
  rewrite HI. clear HI.
  unfold Popup.highlightTab, bind, get, popup_items. cbn beta iota.
  destruct (tabsList_content (Popup.page s)) as [l|msg] eqn:Ec; cbn [tab_items].
  - unfold item_at.
    destruct (index <? 0)%Z eqn:E0.
    + apply Z.ltb_lt in E0.
      replace (0 <=? index)%Z with false by (symmetry; apply Z.leb_gt; lia).
      cbn -[selected_items]. rewrite map_cleared_twice, selected_items_cleared,
        app_nil_r. repeat split; reflexivity.
    + apply Z.ltb_ge in E0.
      replace (0 <=? index)%Z with true by (symmetry; apply Z.leb_le; lia).
      destruct (nth_error (map (set_keyboard_active false) l) (Z.to_nat index))
        as [it|] eqn:En.
      * assert (Hlt : (Z.to_nat index < List.length l)%nat).
        { rewrite <- (length_map (set_keyboard_active false)).
          apply nth_error_Some. congruence. }
        replace (index <? Z.of_nat (List.length l))%Z with true
          by (symmetry; apply Z.ltb_lt; lia).
        cbn -[selected_items Z.to_nat].
        rewrite (@map_set_nth_cleared _ _ _ En),
          (@selected_items_set_nth_true _ _ _ Hlt).
        replace (0 <=? index)%Z with true by (symmetry; apply Z.leb_le; lia).
        repeat split; reflexivity.
      * apply nth_error_None in En. rewrite length_map in En.
        replace (index <? Z.of_nat (List.length l))%Z with false
          by (symmetry; apply Z.ltb_ge; lia).
        cbn -[selected_items]. rewrite map_cleared_twice, selected_items_cleared,
          app_nil_r. repeat split; reflexivity.
  - replace ((0 <=? index) && (index <? Z.of_nat (List.length (@nil TabItem))))%Z
      with false.
    + cbn. rewrite Ec, app_nil_r. repeat split; reflexivity.
    + symmetry. apply andb_false_iff.
      destruct (0 <=? index)%Z eqn:E1; [right|left; reflexivity].
      apply Z.leb_le in E1. apply Z.ltb_ge. cbn. lia.
Qed.

(** The arrow keys move the selection and do nothing else: the items are
    the same but for their [keyboard-active] class, which one item at most
    carries afterwards; the tabs, the filtered tabs, the current tab and
    the search text are what they were; the default action of the key is
    prevented, the selected item, if there is one, is scrolled into view,
    and the host is asked nothing else. *)
Theorem arrow_keys_only_move_selection (updated : completion unit)
    (got : completion RawTab) (focused : completion unit)
    (s : Popup.TabSearcher) :
  let effect key :=
    let s' := snd (Popup.handleKeyNavigation key updated got focused s) in
    let selected := (0 <=? active_index (popup_items s'))%Z in
    map (set_keyboard_active false) (popup_items s')
    = map (set_keyboard_active false) (popup_items s) /\
    selected_items (popup_items s') = (if selected then 1 else 0)%nat /\
    host_calls (Popup.page s') =
      host_calls (Popup.page s) ++ PreventDefault ::
      (if selected
       then [ScrollIntoView (Z.to_nat (active_index (popup_items s')))]
       else []) /\
    Popup.tabs s' = Popup.tabs s /\
    Popup.filteredTabs s' = Popup.filteredTabs s /\
    Popup.currentTabId s' = Popup.currentTabId s /\
    searchInput_value (Popup.page s') = searchInput_value (Popup.page s) in
  effect (js "ArrowDown") /\ effect (js "ArrowUp").
Proof.
  cbn beta zeta. rewrite press_ArrowDown, press_ArrowUp.
  split.
  - destruct (highlightTab_effect
                (Z.min (active_index (popup_items s) + 1)
                       (Z.of_nat (List.length (popup_items s)) - 1))
                (snd (Popup.call PreventDefault s)))
      as (H1 & H2 & H3 & H4 & H5 & H6 & H7).
    cbn zeta in *. rewrite H1, H2, H3.
    cbn [Popup.call modify snd Popup.page Popup.on_page host_calls log_call].
    rewrite <- app_assoc. repeat split; assumption.
  - destruct (highlightTab_effect
                (Z.max (active_index (popup_items s) - 1) 0)
                (snd (Popup.call PreventDefault s)))
      as (H1 & H2 & H3 & H4 & H5 & H6 & H7).
    cbn zeta in *. rewrite H1, H2, H3.
    cbn [Popup.call modify snd Popup.page Popup.on_page host_calls log_call].
    rewrite <- app_assoc. repeat split; assumption.
Qed.

(** Enter switches to the tab of the selected item, the first item that
    carries the [keyboard-active] class, or else to the tab of the first
    item, and does nothing on an empty list; Escape closes the popup, and
    does not prevent the default action of the key; any key other than
    these two and the two arrows leaves everything as it was. *)
Theorem Enter_Escape_and_other_keys (updated : completion unit)
    (got : completion RawTab) (focused : completion unit)
    (s : Popup.TabSearcher) :
  let press key := Popup.handleKeyNavigation key updated got focused s in
  let prevented := snd (Popup.call PreventDefault s) in
  let chosen :=
    match find keyboard_active (popup_items s) with
    | Some it => Some it
    | None => hd_error (popup_items s)
    end in
  press (js "Enter") =
    match chosen with
    | Some it => Popup.switchToTab (data_tabId it) updated got focused prevented
    | None => (Normal tt, prevented)
    end /\
  press (js "Escape") = (Normal tt, Popup.on_page (log_call WindowClose) s) /\
  (forall key,
     key <> js "ArrowDown" -> key <> js "ArrowUp" ->
     key <> js "Enter" -> key <> js "Escape" ->
     press key = (Normal tt, s)).
Proof.
  cbn beta zeta. split; [|split].
  - unfold Popup.handleKeyNavigation. unfold bind at 1, get at 1.
    cbn beta iota. cbn [str_eqb N.eqb Pos.eqb andb js].
    change (str_eqb (js "Enter") (js "ArrowDown")) with false.
    change (str_eqb (js "Enter") (js "ArrowUp")) with false.
    change (str_eqb (js "Enter") (js "Enter")) with true.
    cbn beta iota. unfold bind at 1. cbn beta iota.
    change (Popup.call PreventDefault s)
      with (Normal tt, snd (Popup.call PreventDefault s)). cbn beta iota.
    rewrite item_at_active_index. unfold popup_items.
    destruct (find keyboard_active _) as [it|]; [reflexivity|].
    destruct (tab_items _) as [|first rest]; reflexivity.
  - reflexivity.
  - intros key H1 H2 H3 H4.
    unfold Popup.handleKeyNavigation, bind, get. cbn beta iota.
    destruct (str_eqb key (js "ArrowDown")) eqn:E1;
      [apply str_eqb_eq in E1; contradiction|].
    destruct (str_eqb key (js "ArrowUp")) eqn:E2;
      [apply str_eqb_eq in E2; contradiction|].
    destruct (str_eqb key (js "Enter")) eqn:E3;
      [apply str_eqb_eq in E3; contradiction|].
    destruct (str_eqb key (js "Escape")) eqn:E4;
      [apply str_eqb_eq in E4; contradiction|].
    reflexivity.
Qed.

(** ** What escaping guarantees *)

Lemma Forall_flat_map {A B : Type} (P : B -> Prop) (f : A -> list B)
    (l : list A) :
  (forall a, Forall P (f a)) -> Forall P (flat_map f l).
Proof.
  intros H. induction l as [|a l IH]; cbn [flat_map]; [constructor|].
  apply Forall_app. split; [apply H|exact IH].
Qed.

Lemma build_escapeHtml_escape_each (v : value) :
  BuildPopup.escapeHtml v = escape_each (ToString v).
Proof.
  unfold BuildPopup.escapeHtml. rewrite escapeHtml_chain.
  destruct v; reflexivity.
Qed.

(** Whatever the text, what the [build/] copy of [escapeHtml] returns
    holds no angle bracket and no quote of either kind, and what the copy
    in [popup.js] returns holds no angle bracket: the text cannot open or
    close a tag where it is interpolated. *)
Theorem escapeHtml_output_has_no_markup (v : value) :
  Forall (fun c => c <> 60 /\ c <> 62 /\ c <> 34 /\ c <> 39)%N
         (BuildPopup.escapeHtml v) /\
  Forall (fun c => c <> 60 /\ c <> 62)%N (Popup.escapeHtml v).
Proof.
  split.
  - rewrite build_escapeHtml_escape_each. unfold escape_each.
    apply Forall_flat_map. intros c. unfold html_entity.
    destruct (N.eqb c 38) eqn:E38;
      [repeat constructor; discriminate|].
    destruct (N.eqb c 60) eqn:E60;
      [repeat constructor; discriminate|].
    destruct (N.eqb c 62) eqn:E62;
      [repeat constructor; discriminate|].
    destruct (N.eqb c 34) eqn:E34;
      [repeat constructor; discriminate|].
    destruct (N.eqb c 39) eqn:E39;
      [repeat constructor; discriminate|].
    apply N.eqb_neq in E60, E62, E34, E39.
    repeat constructor; assumption.
  - unfold Popup.escapeHtml, serialize_text.
    apply Forall_flat_map. intros c.
    destruct (N.eqb c 38) eqn:E38;
      [repeat constructor; discriminate|].
    destruct (N.eqb c 160) eqn:E160;
      [repeat constructor; discriminate|].
    destruct (N.eqb c 60) eqn:E60;
      [repeat constructor; discriminate|].
    destruct (N.eqb c 62) eqn:E62;
      [repeat constructor; discriminate|].
    apply N.eqb_neq in E60, E62.
    repeat constructor; assumption.
Qed.

Lemma html_entity_cases (c : code_unit) :
  (c = 38%N /\ html_entity c = js "&amp;") \/
  (c = 60%N /\ html_entity c = js "&lt;") \/
  (c = 62%N /\ html_entity c = js "&gt;") \/
  (c = 34%N /\ html_entity c = js "&quot;") \/
  (c = 39%N /\ html_entity c = js "&#x27;") \/
  (c <> 38%N /\ html_entity c = [c]).
Proof.
  unfold html_entity.
  destruct (N.eqb c 38) eqn:E38; [apply N.eqb_eq in E38; auto|].
  destruct (N.eqb c 60) eqn:E60; [apply N.eqb_eq in E60; auto|].
  destruct (N.eqb c 62) eqn:E62; [apply N.eqb_eq in E62; auto 6|].
  destruct (N.eqb c 34) eqn:E34; [apply N.eqb_eq in E34; auto 7|].
  destruct (N.eqb c 39) eqn:E39; [apply N.eqb_eq in E39; auto 8|].
  apply N.eqb_neq in E38. auto 10.
Qed.

Lemma escape_each_injective (a b : jsstring) :
  escape_each a = escape_each b -> a = b.
Proof.
  unfold escape_each. revert b.
  induction a as [|c a IH]; intros [|d b] H; cbn [flat_map] in H.
  - reflexivity.
  - exfalso.
    destruct (html_entity_cases d) as [[_ E]|[[_ E]|[[_ E]|[[_ E]|[[_ E]|[_ E]]]]]];
      rewrite E in H; discriminate.
  - exfalso.
    destruct (html_entity_cases c) as [[_ E]|[[_ E]|[[_ E]|[[_ E]|[[_ E]|[_ E]]]]]];
      rewrite E in H; discriminate.
  - destruct (html_entity_cases c)
      as [[Hc E]|[[Hc E]|[[Hc E]|[[Hc E]|[[Hc E]|[Hc E]]]]]];
    destruct (html_entity_cases d)
      as [[Hd F]|[[Hd F]|[[Hd F]|[[Hd F]|[[Hd F]|[Hd F]]]]]];
    rewrite E, F in H; cbn [js JS.js app] in H;
    try discriminate;
    try (subst c d; f_equal; apply IH;
         cbn in H; congruence);
    try (cbn in H; injection H as H0 H; congruence).
    cbn in H. injection H as -> H. f_equal. apply IH. exact H.
Qed.

(** The [build/] copy of [escapeHtml] loses nothing: two texts that
    escape to the same string are the same text. *)
Theorem build_escapeHtml_injective (a b : jsstring) :
  BuildPopup.escapeHtml (VString a) = BuildPopup.escapeHtml (VString b) ->
  a = b.
Proof.
  rewrite !build_escapeHtml_escape_each. apply escape_each_injective.
Qed.

(** The same at a text written in two ways. *)
Lemma build_escapeHtml_injective_witness :
  BuildPopup.escapeHtml (VString (js "a<b")) =
  BuildPopup.escapeHtml (VString (js "a" ++ [60%N] ++ js "b")) /\
  js "a<b" = js "a" ++ [60%N] ++ js "b".
Proof.
  split; [reflexivity|].
  apply (@build_escapeHtml_injective (js "a<b") (js "a" ++ [60%N] ++ js "b")).
  reflexivity.
Defined.

(** ** What [escapeRegExp] guarantees *)

Lemma escapeRegExp_plain (q : jsstring) :
  plain q -> BuildPopup.escapeRegExp q = q.
Proof.
  unfold BuildPopup.escapeRegExp.
  induction 1 as [|c q Hc _ IH]; [reflexivity|].
  cbn [flat_map]. rewrite specials_are_syntax_chars, Hc, IH. reflexivity.
Qed.

(** Whatever the query, the host accepts [escapeRegExp query] as a
    pattern, and reads it as the characters of the query, one after the
    other and each standing for itself: no group, no class, no
    quantifier, no alternative.  A query without any character of the
    pattern syntax is left as it is. *)
Theorem escapeRegExp_literal_pattern (q : jsstring) :
  parse_pattern (BuildPopup.escapeRegExp q) = Parsed (mkSeq (map Char q), 0) /\
  (plain q -> BuildPopup.escapeRegExp q = q) /\
  (List.length q <= List.length (BuildPopup.escapeRegExp q)
   <= 2 * List.length q)%nat.
Proof.
  split; [|split; [apply escapeRegExp_plain|]].
  - unfold parse_pattern.
    destruct (@parse_loop_escaped q [] I
                (List.length (BuildPopup.escapeRegExp q)) init_pstate)
      as (fuel' & _ & H).
    { rewrite app_nil_r. apply le_n. }
    rewrite app_nil_r in H. rewrite H.
    rewrite fold_left_add_term, parse_loop_nil. cbn.
    unfold close_disj. cbn. rewrite app_nil_r, rev_involutive. reflexivity.
  - unfold BuildPopup.escapeRegExp.
    induction q as [|c q IH]; [cbn; lia|].
    cbn [flat_map]. rewrite length_app.
    destruct (existsb _ _); cbn [List.length] in *;
      unfold code_unit in *; lia.
Qed.

(** ** The two modes of the [build/] copy *)

Lemma tab_matches_substring (q : jsstring) (t : Tab) :
  BuildPopup.tab_matches false q t =
  Normal (includes (toLowerCase (title t)) q
          || includes (toLowerCase (url t)) q).
Proof.
  unfold BuildPopup.tab_matches. rewrite !or_default_nil. reflexivity.
Qed.

Section BuildModes.

Variable new_URL : jsstring -> option (jsstring * jsstring).

(** What [filterTabs] of the [build/] copy stores, and what it keeps. *)
Lemma build_filterTabs_fields (s : BuildPopup.TabSearcher) :
  let query := trim (toLowerCase (searchInput_value (BuildPopup.page s))) in
  let s' := snd (BuildPopup.filterTabs new_URL s) in
  BuildPopup.tabs s' = BuildPopup.tabs s /\
  BuildPopup.exactMatch s' = BuildPopup.exactMatch s /\
  searchInput_value (BuildPopup.page s')
  = searchInput_value (BuildPopup.page s) /\
  BuildPopup.filteredTabs s' =
    if is_empty query then BuildPopup.tabs s
    else filter (fun t => if BuildPopup.exactMatch s then exact_test query t
                          else includes (toLowerCase (title t)) query
                               || includes (toLowerCase (url t)) query)
                (BuildPopup.tabs s).
Proof.
  cbn zeta.
  unfold BuildPopup.filterTabs, bind, get, modify, lift. cbn beta iota.
  destruct (is_empty _) eqn:Eq.
  - match goal with
    | |- context [BuildPopup.updateUI new_URL ?s1] =>
        destruct (build_updateUI_ui_only new_URL s1) as (H1 & H2 & _ & H4 & H5 & _);
        rewrite H1, H2, H4, H5
    end. repeat split; reflexivity.
  - rewrite (@filter_c_Normal _ _
               (fun t => if BuildPopup.exactMatch s
                         then exact_test
                                (trim (toLowerCase
                                   (searchInput_value (BuildPopup.page s)))) t
                         else includes (toLowerCase (title t))
                                (trim (toLowerCase
                                   (searchInput_value (BuildPopup.page s))))
                              || includes (toLowerCase (url t))
                                (trim (toLowerCase
                                   (searchInput_value (BuildPopup.page s)))))).
    + match goal with
      | |- context [BuildPopup.updateUI new_URL ?s1] =>
          destruct (build_updateUI_ui_only new_URL s1)
            as (H1 & H2 & _ & H4 & H5 & _);
          rewrite H1, H2, H4, H5
      end. repeat split; reflexivity.
    + intros t. destruct (BuildPopup.exactMatch s);
        [apply tab_matches_exact|apply tab_matches_substring].
Qed.

(** [filterTabs] of the [build/] copy, in both modes, for a search text
    and tabs written in U+0000 to U+00FF, [q] being the text without the
    white space at its ends: in substring mode it keeps the tabs whose
    title or address holds a copy of [q], letter for letter up to case;
    in exact mode it keeps every tab for a blank text and otherwise the
    tabs that hold such a copy between two word boundaries; the order is
    that of the tabs.  The exact-match button switches the mode and
    filters again, and a second click brings back the mode and the tabs
    that the first mode gives. *)
Theorem build_filterTabs_modes (s : BuildPopup.TabSearcher) (q : jsstring) :
  let v := searchInput_value (BuildPopup.page s) in
  let s' := snd (BuildPopup.filterTabs new_URL s) in
  let once := snd (BuildPopup.exactMatchBtn_click new_URL s) in
  let twice := snd (BuildPopup.exactMatchBtn_click new_URL once) in
  latin1 v -> Forall latin1_tab (BuildPopup.tabs s) -> Trimmed v q ->
  Filtered (fun t => if BuildPopup.exactMatch s
                     then q = [] \/ TabHoldsBounded q t
                     else TabHolds q t)
           (BuildPopup.tabs s) (BuildPopup.filteredTabs s') /\
  Subsequence (BuildPopup.filteredTabs s') (BuildPopup.tabs s) /\
  BuildPopup.exactMatch once = negb (BuildPopup.exactMatch s) /\
  BuildPopup.exactMatch twice = BuildPopup.exactMatch s /\
  BuildPopup.filteredTabs twice = BuildPopup.filteredTabs s'.
Proof.
  cbn zeta. intros Hv HT Hq.
  pose proof (Trimmed_latin1 Hq Hv) as Hlq.
  apply Trimmed_trim in Hq. subst q.
  assert (HF0 : Filtered
            (fun t => if BuildPopup.exactMatch s
                      then trim (searchInput_value (BuildPopup.page s)) = []
                           \/ BoundedMatch
                                (trim (searchInput_value (BuildPopup.page s))) t
                      else TabHolds
                             (trim (searchInput_value (BuildPopup.page s))) t)
            (BuildPopup.tabs s)
            (BuildPopup.filteredTabs (snd (BuildPopup.filterTabs new_URL s)))).
  { destruct (build_filterTabs_fields s) as (_ & _ & _ & H).
    cbn zeta in H. rewrite H. clear H.
    destruct (is_empty _) eqn:Eq.
    - apply is_empty_true in Eq.
      apply (proj1 (trim_nil_toLowerCase _)) in Eq.
      apply Filtered_all. intros t _.
      destruct (BuildPopup.exactMatch s); [left; exact Eq|].
      apply SubstringMatch_TabHolds.
      left. unfold ContainsCI. rewrite Eq. apply Substring_nil.
    - assert (Hne : trim (searchInput_value (BuildPopup.page s)) <> []).
      { intros E. apply (proj2 (trim_nil_toLowerCase _)) in E.
        rewrite E in Eq. discriminate. }
      apply Filtered_filter. intros t.
      destruct (BuildPopup.exactMatch s).
      + rewrite exact_test_spec. unfold BoundedMatch.
        rewrite trim_toLowerCase, !BoundedOccurrence_toLowerCase.
        split; [auto|]. intros [E|H]; [contradiction|exact H].
      + rewrite <- SubstringMatch_TabHolds. apply substring_callback. }
  assert (HF : Filtered
            (fun t => if BuildPopup.exactMatch s
                      then trim (searchInput_value (BuildPopup.page s)) = []
                           \/ TabHoldsBounded
                                (trim (searchInput_value (BuildPopup.page s))) t
                      else TabHolds
                             (trim (searchInput_value (BuildPopup.page s))) t)
            (BuildPopup.tabs s)
            (BuildPopup.filteredTabs (snd (BuildPopup.filterTabs new_URL s)))).
  { eapply Filtered_among; [|exact HF0].
    intros t Ht. rewrite Forall_forall in HT. destruct (HT t Ht) as [H1 H2].
    destruct (BuildPopup.exactMatch s); [|tauto].
    unfold BoundedMatch, TabHoldsBounded.
    rewrite (BoundedOccurrence_HoldsBounded H1 Hlq),
            (BoundedOccurrence_HoldsBounded H2 Hlq).
    tauto. }
  split; [exact HF|]. split; [eapply Filtered_Subsequence; exact HF|].
  unfold BuildPopup.exactMatchBtn_click, bind, modify. cbn beta iota.
  set (s1 := BuildPopup.with_exactMatch (negb (BuildPopup.exactMatch s)) s).
  destruct (build_filterTabs_fields s1) as (A1 & A2 & A3 & A4).
  cbn zeta in A1, A2, A3, A4.
  set (o := snd (BuildPopup.filterTabs new_URL s1)) in *.
  set (s2 := BuildPopup.with_exactMatch (negb (BuildPopup.exactMatch o)) o).
  destruct (build_filterTabs_fields s2) as (B1 & B2 & B3 & B4).
  cbn zeta in B1, B2, B3, B4.
  destruct (build_filterTabs_fields s) as (_ & _ & _ & C4).
  cbn zeta in C4.
  split; [exact A2|].
  assert (E2 : BuildPopup.exactMatch s2 = BuildPopup.exactMatch s).
  { unfold s2. cbn. rewrite A2. unfold s1. cbn. apply negb_involutive. }
  split; [rewrite B2; exact E2|].
  rewrite B4, C4, E2.
  replace (BuildPopup.tabs s2) with (BuildPopup.tabs s)
    by (unfold s2; cbn; rewrite A1; reflexivity).
  replace (searchInput_value (BuildPopup.page s2))
    with (searchInput_value (BuildPopup.page s))
    by (unfold s2; cbn; rewrite A3; reflexivity).
  reflexivity.
Qed.

End BuildModes.

(** The same in substring mode, at the text " Rust ". *)
Lemma build_filterTabs_modes_witness :
  (latin1 (searchInput_value
             (BuildPopup.page (build_searching false rust_tabs (js " Rust ")))) /\
   Forall latin1_tab
     (BuildPopup.tabs (build_searching false rust_tabs (js " Rust "))) /\
   Trimmed (searchInput_value
              (BuildPopup.page (build_searching false rust_tabs (js " Rust "))))
           (js "Rust")) /\
  Filtered (TabHolds (js "Rust")) rust_tabs
    (BuildPopup.filteredTabs
       (snd (BuildPopup.filterTabs no_URL
               (build_searching false rust_tabs (js " Rust "))))).
Proof.
  assert (H1 : latin1 (searchInput_value
             (BuildPopup.page (build_searching false rust_tabs (js " Rust ")))))
    by (cbn; solve_latin1).
  assert (H2 : Forall latin1_tab
     (BuildPopup.tabs (build_searching false rust_tabs (js " Rust "))))
    by (cbn; repeat constructor; cbn; solve_latin1).
  assert (H3 : Trimmed (searchInput_value
              (BuildPopup.page (build_searching false rust_tabs (js " Rust "))))
           (js "Rust")).
  { exists (js " "), (js " "). repeat split; try reflexivity;
      repeat constructor. }
  split; [repeat split; assumption|].
  exact (proj1 (@build_filterTabs_modes no_URL
                  (build_searching false rust_tabs (js " Rust ")) (js "Rust")
                  H1 H2 H3)).
Defined.

(** ** Highlighting in the [build/] copy *)

Lemma plain_escape_each (q : jsstring) : plain q -> plain (escape_each q).
Proof.
  unfold plain, escape_each. intros H.
  induction H as [|c q Hc _ IH]; cbn [flat_map]; [constructor|].
  apply Forall_app. split; [|exact IH].
  destruct (html_entity_cases c)
    as [[_ E]|[[_ E]|[[_ E]|[[_ E]|[[_ E]|[_ E]]]]]]; rewrite E;
    repeat constructor. exact Hc.
Qed.

Lemma escape_each_not_nil (q : jsstring) : q <> [] -> escape_each q <> [].
Proof.
  destruct q as [|c q]; [congruence|]. intros _.
  unfold escape_each. cbn [flat_map].
  destruct (html_entity_cases c)
    as [[_ E]|[[_ E]|[[_ E]|[[_ E]|[[_ E]|[_ E]]]]]]; rewrite E; discriminate.
Qed.

(** [highlightText] of the [build/] copy.  An empty text gives the empty
    string, whatever the query, even one that is no valid pattern; an
    empty query gives the escaped text; and, for a text and a query
    written in U+0000 to U+00FF, a query without any character of the
    pattern syntax gives the escaped text with every copy of the escaped
    query, up to case, wrapped in the highlight element. *)
Theorem build_highlightText_outcomes (text query : jsstring) :
  BuildPopup.highlightText [] query = Normal [] /\
  BuildPopup.highlightText text [] = Normal (BuildPopup.escapeHtml (VString text)) /\
  (latin1 text -> latin1 query -> query <> [] -> plain query ->
   BuildPopup.highlightText text query =
   Normal (highlighted (BuildPopup.escapeHtml (VString query))
                       (BuildPopup.escapeHtml (VString text)))).
Proof.
  split; [reflexivity|]. split.
  - destruct text; reflexivity.
  - intros _ _ Hq Hp. unfold BuildPopup.highlightText.
    destruct text as [|c text]; [reflexivity|]. cbn [is_empty].
    destruct query as [|d query]; [congruence|]. cbn [is_empty].
    rewrite !build_escapeHtml_escape_each. cbn [ToString].
    unfold RegExp_new.
    rewrite parse_group_pattern
      by (try apply escape_each_not_nil; try apply plain_escape_each;
          assumption).
    rewrite replace_plain by (apply escape_each_not_nil; exact Hq).
    reflexivity.
Qed.

(** ** The counters *)

Lemma filter_all_true {A : Type} (f : A -> bool) (l : list A) :
  (forall a, In a l -> f a = true) -> filter f l = l.
Proof.
  induction l as [|a l IH]; intros H; [reflexivity|].
  cbn [filter]. rewrite (H a (or_introl eq_refl)). f_equal.
  apply IH. intros x Hx. apply H. right. exact Hx.
Qed.

Lemma filter_length_all {A : Type} (f : A -> bool) (l : list A) :
  List.length (filter f l) = List.length l <-> forall a, In a l -> f a = true.
Proof.
  induction l as [|a l IH]; cbn [filter List.length In].
  - split; [intros _ x []|reflexivity].
  - pose proof (filter_length_le f l) as Hle.
    destruct (f a) eqn:E; cbn [List.length].
    + split.
      * intros H x [<-|Hx]; [exact E|]. apply IH; [lia|exact Hx].
      * intros H. f_equal. apply IH. intros x Hx. apply H. right. exact Hx.
    + split; [lia|]. intros H. specialize (H a (or_introl eq_refl)). congruence.
Qed.

Section Counters.

Variable new_URL : jsstring -> option (jsstring * jsstring).

Lemma popup_renderTabs_counters (s : Popup.TabSearcher) :
  let s' := snd (Popup.renderTabs new_URL s) in
  tabCountEl_text (Popup.page s') = tabCountEl_text (Popup.page s) /\
  matchCountEl_text (Popup.page s') = matchCountEl_text (Popup.page s) /\
  matchCountEl_display (Popup.page s') = matchCountEl_display (Popup.page s).
Proof.
  cbn zeta. unfold Popup.renderTabs, bind, get. cbn beta iota.
  destruct (Nat.eqb _ 0 && negb _); cbn; [repeat split; reflexivity|].
  set (s1 := Popup.on_page _ s).
  pose proof (@mapM_state _ _ _ _ (popup_createTabHTML_state new_URL)
                (Popup.filteredTabs s) s1) as Hs.
  destruct (mapM _ _ s1) as [[items|e|] s2]; cbn [snd] in Hs; subst s2;
    cbn; repeat split; reflexivity.
Qed.

(** The counters after [filterTabs], [q] being the search text without
    the white space at its ends: the first shows the number of all the
    tabs; the second is visible exactly when [q] is not empty and the
    filter has left some tab out, and then shows the number of the
    filtered tabs.  Rendering, however it ends, leaves them alone. *)
Theorem filterTabs_counters (s : Popup.TabSearcher) (q : jsstring) :
  let s' := snd (Popup.filterTabs new_URL s) in
  Trimmed (searchInput_value (Popup.page s)) q ->
  tabCountEl_text (Popup.page s') =
    count_label (List.length (Popup.tabs s)) (js "tab") (js "s") /\
  (matchCountEl_display (Popup.page s') = DisplayInline \/
   matchCountEl_display (Popup.page s') = DisplayNone) /\
  (matchCountEl_display (Popup.page s') = DisplayInline <->
   q <> [] /\ Popup.filteredTabs s' <> Popup.tabs s) /\
  (matchCountEl_display (Popup.page s') = DisplayInline ->
   matchCountEl_text (Popup.page s') =
     count_label (List.length (Popup.filteredTabs s')) (js "match") (js "es")).
Proof.
  cbn zeta. intros Hq. apply Trimmed_trim in Hq. subst q.
  destruct (popup_filterTabs_fields new_URL s) as [_ HF]. cbn zeta in HF.
  rewrite HF. rewrite popup_filterTabs_unfold. cbn zeta.
  set (v := searchInput_value (Popup.page s)).
  set (f := fun tab : Tab =>
              includes (toLowerCase (title tab)) (trim (toLowerCase v))
              || includes (toLowerCase (url tab)) (trim (toLowerCase v))).
  set (F := if is_empty (trim (toLowerCase v)) then Popup.tabs s
            else filter f (Popup.tabs s)).
  assert (HFl : List.length F = List.length (Popup.tabs s) <-> F = Popup.tabs s).
  { split; [|intros ->; reflexivity].
    unfold F. destruct (is_empty _); [reflexivity|].
    intros H. apply filter_all_true. apply filter_length_all. exact H. }
  assert (Hshown :
    negb (is_empty (trim v))
    && negb (Nat.eqb (List.length F) (List.length (Popup.tabs s))) = true <->
    trim v <> [] /\ F <> Popup.tabs s).
  { rewrite andb_true_iff, !negb_true_iff, Nat.eqb_neq, HFl.
    split; intros [H1 H2]; (split; [|exact H2]).
    - intros E. rewrite E in H1. discriminate.
    - destruct (trim v); [congruence|reflexivity]. }
  unfold Popup.updateUI, bind.
  set (s1 := Popup.with_filteredTabs F s).
  assert (Hst :
    let s2 := snd (Popup.updateStats s1) in
    fst (Popup.updateStats s1) = Normal tt /\
    tabCountEl_text (Popup.page s2) =
      count_label (List.length (Popup.tabs s)) (js "tab") (js "s") /\
    (if negb (is_empty (trim v))
        && negb (Nat.eqb (List.length F) (List.length (Popup.tabs s)))
     then matchCountEl_display (Popup.page s2) = DisplayInline /\
          matchCountEl_text (Popup.page s2) =
            count_label (List.length F) (js "match") (js "es")
     else matchCountEl_display (Popup.page s2) = DisplayNone)).
  { unfold Popup.updateStats, bind, get, modify. cbn beta iota.
    cbn [Popup.tabs Popup.filteredTabs Popup.page Popup.with_filteredTabs
         Popup.on_page searchInput_value set_tabCountEl_text s1].
    fold v.
    destruct (negb (is_empty (trim v))
              && negb (Nat.eqb (List.length F) (List.length (Popup.tabs s))));
      cbn; repeat split; reflexivity. }
  cbn zeta in Hst. destruct Hst as (HN & HT & HM).
  destruct (Popup.updateStats s1) as [c s2]. cbn [fst snd] in HN, HT, HM.
  subst c.
  destruct (popup_renderTabs_counters s2) as (R1 & R2 & R3).
  cbn zeta in R1, R2, R3.
  rewrite R1, R2, R3. split; [exact HT|].
  destruct (negb (is_empty (trim v))
            && negb (Nat.eqb (List.length F) (List.length (Popup.tabs s))))
    eqn:Ec.
  - destruct HM as [HD HX]. split; [left; exact HD|]. split.
    + split; [intros _; apply Hshown; reflexivity|intros _; exact HD].
    + intros _. exact HX.
  - split; [right; exact HM|]. split.
    + split; [intros H; congruence|].
      intros H. apply Hshown in H. discriminate.
    + intros H. congruence.
Qed.

End Counters.

(** The counters at the text " Rust " over the two tabs of [rust_tabs],
    which both hold it: two tabs, and no count of matches. *)
Lemma filterTabs_counters_witness :
  Trimmed (searchInput_value (Popup.page (popup_searching rust_tabs (js " Rust "))))
          (js "Rust") /\
  tabCountEl_text
    (Popup.page
       (snd (Popup.filterTabs no_URL (popup_searching rust_tabs (js " Rust ")))))
  = count_label (List.length rust_tabs) (js "tab") (js "s").
Proof.
  assert (H3 : Trimmed (searchInput_value
                  (Popup.page (popup_searching rust_tabs (js " Rust "))))
                 (js "Rust")).
  { exists (js " "), (js " "). repeat split; try reflexivity;
      repeat constructor. }
  split; [exact H3|].
  exact (proj1 (@filterTabs_counters no_URL
                  (popup_searching rust_tabs (js " Rust ")) (js "Rust") H3)).
Defined.

(** ** Closing a tab under a filter *)

Lemma filter_filter_comm {A : Type} (f g : A -> bool) (l : list A) :
  filter f (filter g l) = filter g (filter f l).
Proof.
  induction l as [|a l IH]; [reflexivity|].
  cbn [filter]. destruct (f a) eqn:Ef; destruct (g a) eqn:Eg; cbn [filter];
    rewrite ?Ef, ?Eg, IH; reflexivity.
Qed.

Section ClosingUnderFilter.

Variable new_URL : jsstring -> option (jsstring * jsstring).

Lemma popup_closeTab_fields (tabId : Z) (s : Popup.TabSearcher) :
  let s' := snd (Popup.closeTab new_URL tabId (Normal tt) s) in
  Popup.tabs s' = filter (fun tab => negb (Z.eqb (id tab) tabId)) (Popup.tabs s) /\
  Popup.filteredTabs s' =
    filter (fun tab => negb (Z.eqb (id tab) tabId)) (Popup.filteredTabs s) /\
  searchInput_value (Popup.page s') = searchInput_value (Popup.page s) /\
  host_calls (Popup.page s') = host_calls (Popup.page s) ++ [TabsRemove tabId].
Proof.
  cbn zeta.
  unfold Popup.closeTab, try_catch, bind, Popup.await, modify. cbn beta iota.
  match goal with
  | |- context [Popup.updateUI new_URL ?s1] =>
      destruct (popup_updateUI_ui_only new_URL s1)
        as (H1 & H2 & _ & H4 & _ & _ & H7);
      destruct (Popup.updateUI new_URL s1) as [[[]|e'|] s2]
  end; cbn [snd fst] in *; unfold Popup.console_error, modify; cbn [snd];
    cbn [Popup.tabs Popup.filteredTabs Popup.page Popup.on_page
         searchInput_value host_calls log_error];
    rewrite H1, H2, H4, H7; repeat split; reflexivity.
Qed.

(** When the filtered tabs are the ones that the search text selects,
    they still are after a tab has been closed: closing and filtering can
    be done in either order.  The host is asked once, for that tab; and
    closing an id that no tab carries leaves both lists as they were. *)
Theorem closeTab_keeps_the_filter (tabId : Z) (s : Popup.TabSearcher) :
  Popup.filteredTabs s = Popup.filteredTabs (snd (Popup.filterTabs new_URL s)) ->
  let s' := snd (Popup.closeTab new_URL tabId (Normal tt) s) in
  Popup.filteredTabs s' = Popup.filteredTabs (snd (Popup.filterTabs new_URL s')) /\
  Popup.filteredTabs s' =
    Popup.filteredTabs
      (snd (Popup.closeTab new_URL tabId (Normal tt)
              (snd (Popup.filterTabs new_URL s)))) /\
  host_calls (Popup.page s') = host_calls (Popup.page s) ++ [TabsRemove tabId] /\
  ((forall t, In t (Popup.tabs s) -> id t <> tabId) ->
   Popup.tabs s' = Popup.tabs s /\ Popup.filteredTabs s' = Popup.filteredTabs s).
Proof.
  cbn zeta. intros Hv.
  destruct (popup_closeTab_fields tabId s) as (C1 & C2 & C3 & C4).
  cbn zeta in C1, C2, C3, C4.
  destruct (popup_filterTabs_fields new_URL s) as [_ F0]. cbn zeta in F0.
  destruct (popup_filterTabs_fields new_URL
              (snd (Popup.closeTab new_URL tabId (Normal tt) s))) as [_ F1].
  cbn zeta in F1.
  destruct (popup_closeTab_fields tabId (snd (Popup.filterTabs new_URL s)))
    as (_ & D2 & _). cbn zeta in D2.
  split; [|split; [|split; [exact C4|]]].
  - rewrite F1, C3, C1, C2, Hv, F0.
    destruct (is_empty _); [reflexivity|apply filter_filter_comm].
  - rewrite D2, C2, <- Hv. reflexivity.
  - intros Hno.
    assert (Hall : forall t, In t (Popup.tabs s) ->
              negb (Z.eqb (id t) tabId) = true).
    { intros t Ht. apply negb_true_iff, Z.eqb_neq, Hno, Ht. }
    rewrite C1, C2. split; [apply filter_all_true; exact Hall|].
    apply filter_all_true. intros t Ht. apply Hall.
    rewrite Hv, F0 in Ht.
    destruct (is_empty _); [exact Ht|].
    apply filter_In in Ht. apply Ht.
Qed.

End ClosingUnderFilter.

(** The same at two tabs that both match "rust", the first being closed. *)
Lemma closeTab_keeps_the_filter_witness :
  Popup.filteredTabs rust_search
  = Popup.filteredTabs (snd (Popup.filterTabs no_URL rust_search)) /\
  Popup.filteredTabs (snd (Popup.closeTab no_URL 1 (Normal tt) rust_search))
  = Popup.filteredTabs
      (snd (Popup.filterTabs no_URL
              (snd (Popup.closeTab no_URL 1 (Normal tt) rust_search)))).
Proof.
  assert (H : Popup.filteredTabs rust_search
              = Popup.filteredTabs (snd (Popup.filterTabs no_URL rust_search)))
    by reflexivity.
  split; [exact H|].
  exact (proj1 (@closeTab_keeps_the_filter no_URL 1 rust_search H)).
Defined.

(** ** A rendering that fails inside a host action *)

Section RenderingFailure.

Variable new_URL : jsstring -> option (jsstring * jsstring).

(** With a query whose pattern the host rejects and a tab to show,
    [updateUI] throws, and the list keeps its items. *)
Lemma popup_updateUI_invalid (s : Popup.TabSearcher) (msg : string) :
  let query := trim (toLowerCase (searchInput_value (Popup.page s))) in
  query <> [] ->
  RegExp_new (js "(" ++ Popup.escapeHtml (VString query) ++ js ")") gi_flags
    = Invalid msg ->
  Popup.filteredTabs s <> [] ->
  fst (Popup.updateUI new_URL s) = Throw (SyntaxError msg) /\
  tabsList_content (Popup.page (snd (Popup.updateUI new_URL s)))
  = tabsList_content (Popup.page s).
Proof.
  cbn zeta. intros Hq Hre Hf.
  unfold Popup.updateUI, bind.
  pose proof (popup_updateStats_Normal s) as HN.
  destruct (popup_updateStats_ui_only s) as (_ & U2 & _ & U4 & _).
  destruct (popup_updateStats_page s) as (P1 & _ & _). cbn zeta in P1.
  destruct (Popup.updateStats s) as [c s2].
  cbn [fst snd] in HN, U2, U4, P1. subst c.
  unfold Popup.renderTabs, bind, get. cbn beta iota. rewrite U2.
  destruct (Popup.filteredTabs s) as [|t F]; [congruence|].
  cbn [List.length Nat.eqb andb]. unfold Popup.showNoResults, modify.
  cbn beta iota.
  rewrite (@popup_mapM_invalid new_URL t F _ msg).
  - cbn. split; [reflexivity|exact P1].
  - cbn. rewrite U4. exact Hq.
  - cbn. rewrite U4. exact Hre.
Qed.

(** A rendering that throws inside [loadTabs] or [closeTab], because
    the search box holds a text of U+0000 to U+00FF whose query makes a
    pattern that the host rejects, and that the parser finds [Invalid],
    is caught there and reported as a failure of the action, after the
    lists have been updated: [loadTabs] has stored the host's tabs, and
    shows the error panel; [closeTab] has removed the tab from both
    lists, and the list on the page still shows it. *)
Theorem rendering_failure_inside_actions (l found : list RawTab) (tabId : Z)
    (msg : string) (s : Popup.TabSearcher) :
  let query := trim (toLowerCase (searchInput_value (Popup.page s))) in
  latin1 (searchInput_value (Popup.page s)) ->
  query <> [] ->
  RegExp_new (js "(" ++ Popup.escapeHtml (VString query) ++ js ")") gi_flags
    = Invalid msg ->
  (l <> [] ->
   let r := Popup.loadTabs new_URL (Normal l) (Normal found) s in
   fst r = Normal tt /\
   Popup.tabs (snd r) = map Popup.store_tab l /\
   Popup.filteredTabs (snd r) = map Popup.store_tab l /\
   tabsList_content (Popup.page (snd r)) = ErrorPanel (js "Failed to load tabs") /\
   console_errors (Popup.page (snd r)) =
     console_errors (Popup.page s) ++ [js "Error loading tabs:"]) /\
  (filter (fun tab => negb (Z.eqb (id tab) tabId)) (Popup.filteredTabs s) <> [] ->
   let r := Popup.closeTab new_URL tabId (Normal tt) s in
   fst r = Normal tt /\
   Popup.tabs (snd r) =
     filter (fun tab => negb (Z.eqb (id tab) tabId)) (Popup.tabs s) /\
   Popup.filteredTabs (snd r) =
     filter (fun tab => negb (Z.eqb (id tab) tabId)) (Popup.filteredTabs s) /\
   tabsList_content (Popup.page (snd r)) = tabsList_content (Popup.page s) /\
   console_errors (Popup.page (snd r)) =
     console_errors (Popup.page s) ++ [js "Error closing tab:"]).
Proof.
  cbn zeta. intros _ Hq Hre. split.
  - intros Hl.
    unfold Popup.loadTabs, Popup.showLoading, try_finally, try_catch,
      bind, Popup.await, modify. cbn beta iota.
    match goal with
    | |- context [Popup.updateUI new_URL ?s1] =>
        destruct (@popup_updateUI_invalid s1 msg) as [HT HC];
        [exact Hq|exact Hre
        |cbn; destruct l; [congruence|discriminate]|];
        destruct (popup_updateUI_ui_only new_URL s1)
          as (H1 & H2 & _ & _ & _ & H6 & _);
        destruct (Popup.updateUI new_URL s1) as [c s2]
    end.
    cbn [fst snd] in HT, HC, H1, H2, H6. subst c. cbn.
    rewrite H1, H2, H6. repeat split; reflexivity.
  - intros Hf.
    unfold Popup.closeTab, try_catch, bind, Popup.await, modify.
    cbn beta iota.
    match goal with
    | |- context [Popup.updateUI new_URL ?s1] =>
        destruct (@popup_updateUI_invalid s1 msg) as [HT HC];
        [exact Hq|exact Hre|exact Hf|];
        destruct (popup_updateUI_ui_only new_URL s1)
          as (H1 & H2 & _ & _ & _ & H6 & _);
        destruct (Popup.updateUI new_URL s1) as [c s2]
    end.
    cbn [fst snd] in HT, HC, H1, H2, H6. subst c. cbn.
    rewrite H1, H2, H6, HC. repeat split; reflexivity.
Qed.

End RenderingFailure.

(** The same at a refresh while an opening parenthesis is in the search
    box. *)
Lemma rendering_failure_inside_actions_witness :
  (latin1 (searchInput_value (Popup.page paren_search)) /\
   trim (toLowerCase (searchInput_value (Popup.page paren_search))) <> [] /\
   RegExp_new
     (js "(" ++ Popup.escapeHtml
                  (VString (trim (toLowerCase
                     (searchInput_value (Popup.page paren_search)))))
             ++ js ")") gi_flags
   = Invalid "Unterminated group") /\
  Popup.tabs
    (snd (Popup.loadTabs no_URL (Normal two_raw_tabs) (Normal []) paren_search))
  = map Popup.store_tab two_raw_tabs /\
  tabsList_content
    (Popup.page
       (snd (Popup.loadTabs no_URL (Normal two_raw_tabs) (Normal [])
               paren_search)))
  = ErrorPanel (js "Failed to load tabs").
Proof.
  assert (H0 : latin1 (searchInput_value (Popup.page paren_search)))
    by solve_latin1.
  assert (H1 : trim (toLowerCase (searchInput_value (Popup.page paren_search)))
               <> []) by discriminate.
  assert (H2 : RegExp_new
     (js "(" ++ Popup.escapeHtml
                  (VString (trim (toLowerCase
                     (searchInput_value (Popup.page paren_search)))))
             ++ js ")") gi_flags
   = Invalid "Unterminated group") by reflexivity.
  assert (H3 : two_raw_tabs <> []) by discriminate.
  split; [split; [exact H0|split; assumption]|].
  pose proof (proj1 (@rendering_failure_inside_actions no_URL two_raw_tabs []
                       1%Z "Unterminated group" paren_search H0 H1 H2) H3) as H.
  cbn zeta in H. split; [apply H|apply H].
Defined.

(** ** What the events ask of the host *)

Section EventRequests.

Variable new_URL : jsstring -> option (jsstring * jsstring).

Lemma popup_filterTabs_calls (s : Popup.TabSearcher) :
  host_calls (Popup.page (snd (Popup.filterTabs new_URL s)))
  = host_calls (Popup.page s).
Proof.
  rewrite popup_filterTabs_unfold. cbn zeta.
  match goal with
  | |- context [Popup.updateUI new_URL ?s1] =>
      destruct (popup_updateUI_ui_only new_URL s1) as (_ & _ & _ & _ & _ & _ & H)
  end.
  exact H.
Qed.

Lemma popup_handleKeyNavigation_calls (key : jsstring)
    (updated : completion unit) (got : completion RawTab)
    (focused : completion unit) (s : Popup.TabSearcher) :
  exists calls,
    host_calls (Popup.page
      (snd (Popup.handleKeyNavigation key updated got focused s)))
    = host_calls (Popup.page s) ++ calls /\
    close_calls calls = [].
Proof.
  assert (Hh : forall index, exists calls,
            host_calls (Popup.page
              (snd (Popup.highlightTab index (snd (Popup.call PreventDefault s)))))
            = host_calls (Popup.page s) ++ calls /\ close_calls calls = []).
  { intros index.
    destruct (highlightTab_effect index (snd (Popup.call PreventDefault s)))
      as (_ & _ & H & _). cbn zeta in H. rewrite H.
    cbn [Popup.call modify snd Popup.page Popup.on_page host_calls log_call].
    rewrite <- app_assoc. eexists. split; [reflexivity|].
    destruct (0 <=? _)%Z; reflexivity. }
  assert (Hsw : forall tabId, exists calls,
            host_calls (Popup.page
              (snd (Popup.switchToTab tabId updated got focused
                      (snd (Popup.call PreventDefault s)))))
            = host_calls (Popup.page s) ++ calls /\ close_calls calls = []).
  { intros tabId.
    destruct (popup_switchToTab_calls tabId updated got focused
                (snd (Popup.call PreventDefault s))) as (calls & H & Hc).
    rewrite H.
    cbn [Popup.call modify snd Popup.page Popup.on_page host_calls log_call].
    rewrite <- app_assoc. eexists. split; [reflexivity|].
    cbn [app close_calls filter]. exact Hc. }
  unfold Popup.handleKeyNavigation. unfold bind at 1, get at 1. cbn beta iota.
  destruct (str_eqb key (js "ArrowDown")); [apply Hh|].
  destruct (str_eqb key (js "ArrowUp")); [apply Hh|].
  destruct (str_eqb key (js "Enter")).
  { unfold bind at 1. cbn beta iota.
    change (Popup.call PreventDefault s)
      with (Normal tt, snd (Popup.call PreventDefault s)). cbn beta iota.
    destruct (item_at _ _) as [it|]; [apply Hsw|].
    destruct (tab_items _) as [|first rest]; [|apply Hsw].
    exists [PreventDefault]. split; reflexivity. }
  destruct (str_eqb key (js "Escape")).
  - exists [WindowClose]. split; reflexivity.
  - exists []. rewrite app_nil_r. split; reflexivity.
Qed.

(** The host is asked to close tabs on request only.  A click on the
    close button of an item asks for the tab of that item, and for
    nothing when there is no such item; a click on the close-others
    button asks, once the user has confirmed, for the tabs that are
    neither pinned nor the current one, when there are some; and no other
    event - typing, a key, a refresh, a click on an item - asks the host
    to close anything. *)
Theorem tabs_are_closed_on_request_only (e : PopupEvents.event)
    (a : PopupEvents.answers) (s : Popup.TabSearcher) :
  let s' := snd (PopupEvents.dispatch new_URL e a s) in
  exists calls ids,
    host_calls (Popup.page s') = host_calls (Popup.page s) ++ calls /\
    OtherTabs (Popup.currentTabId s) (Popup.tabs s) ids /\
    close_calls calls =
      match e with
      | PopupEvents.CloseButtonClick index =>
          match PopupEvents.listener_tabId s index with
          | Some tabId => [TabsRemove tabId]
          | None => []
          end
      | PopupEvents.CloseOthersClick =>
          match PopupEvents.confirmed a, ids with
          | true, _ :: _ => [TabsRemoveAll ids]
          | _, _ => []
          end
      | _ => []
      end.
Proof.
  cbn zeta.
  pose proof (popup_close_set s) as Hids.
  destruct e as [value|key| | |index|index]; cbn [PopupEvents.dispatch].
  - unfold bind at 1, modify at 1. cbn beta iota.
    rewrite popup_filterTabs_calls. cbn.
    exists [], (map id (filter (fun tab => negb (Popup.is_current s tab)
                                           && negb (pinned tab)) (Popup.tabs s))).
    rewrite app_nil_r. repeat split; [exact Hids].
  - destruct (popup_handleKeyNavigation_calls key (PopupEvents.updated a)
                (PopupEvents.got a) (PopupEvents.focused a) s)
      as (calls & H & Hc).
    exists calls. eexists. split; [exact H|]. split; [exact Hids|exact Hc].
  - destruct (popup_loadTabs_calls new_URL (PopupEvents.all_tabs a)
                (PopupEvents.active_tabs a) s) as (calls & H & Hc & _).
    exists calls. eexists. split; [exact H|]. split; [exact Hids|exact Hc].
  - destruct (popup_closeOtherTabs_calls new_URL (PopupEvents.confirmed a)
                (PopupEvents.removed a) (PopupEvents.all_tabs a)
                (PopupEvents.active_tabs a) s)
      as (ids & calls & H1 & H3 & H4).
    exists calls, ids.
    split; [exact H3|]. split; [exact H1|exact H4].
  - unfold bind, get. cbn beta iota.
    destruct (PopupEvents.listener_tabId s index) as [tabId|].
    + destruct (popup_switchToTab_calls tabId (PopupEvents.updated a)
                  (PopupEvents.got a) (PopupEvents.focused a) s)
        as (calls & H & Hc).
      exists calls. eexists. split; [exact H|]. split; [exact Hids|exact Hc].
    + exists []. eexists. cbn. rewrite app_nil_r.
      split; [reflexivity|]. split; [exact Hids|reflexivity].
  - unfold bind, get. cbn beta iota.
    destruct (PopupEvents.listener_tabId s index) as [tabId|].
    + destruct (popup_closeTab_fields new_URL tabId s) as (_ & _ & _ & H).
      cbn zeta in H.
      destruct (PopupEvents.removed a) as [[]|err|].
      * exists [TabsRemove tabId]. eexists.
        split; [exact H|]. split; [exact Hids|reflexivity].
      * exists [TabsRemove tabId]. eexists. cbn.
        split; [reflexivity|]. split; [exact Hids|reflexivity].
      * exists [TabsRemove tabId]. eexists. cbn.
        split; [reflexivity|]. split; [exact Hids|reflexivity].
    + exists []. eexists. cbn. rewrite app_nil_r.
      split; [reflexivity|]. split; [exact Hids|reflexivity].
Qed.

End EventRequests.

(** ** A refresh that fails *)

Section RefreshFailure.

Variable new_URL : jsstring -> option (jsstring * jsstring).

(** When one of the two queries is refused, [loadTabs] replaces the list
    by the error panel and logs the failure; the second query is not made
    when the first is refused; the current tab and the counters stay what
    they were.  With the panel in place of the items, Enter finds no tab
    to switch to, and the arrows find no item to select. *)
Theorem loadTabs_failure_panel (found : list RawTab) (e : error)
    (updated : completion unit) (got : completion RawTab)
    (focused : completion unit) (s : Popup.TabSearcher) :
  let outcome r calls :=
    fst r = Normal tt /\
    tabsList_content (Popup.page (snd r)) = ErrorPanel (js "Failed to load tabs") /\
    console_errors (Popup.page (snd r)) =
      console_errors (Popup.page s) ++ [js "Error loading tabs:"] /\
    host_calls (Popup.page (snd r)) = host_calls (Popup.page s) ++ calls /\
    Popup.currentTabId (snd r) = Popup.currentTabId s /\
    tabCountEl_text (Popup.page (snd r)) = tabCountEl_text (Popup.page s) /\
    matchCountEl_display (Popup.page (snd r))
    = matchCountEl_display (Popup.page s) /\
    (forall key,
       let s' := snd (Popup.handleKeyNavigation key updated got focused (snd r)) in
       popup_items s' = [] /\
       (key <> js "Escape" ->
        host_calls (Popup.page s') = host_calls (Popup.page (snd r))
        \/ host_calls (Popup.page s')
           = host_calls (Popup.page (snd r)) ++ [PreventDefault])) in
  outcome (Popup.loadTabs new_URL (Throw e) (Normal found) s) [TabsQueryAll] /\
  outcome (Popup.loadTabs new_URL (Normal found) (Throw e) s)
          [TabsQueryAll; TabsQueryActive].
Proof.
  cbn beta zeta.
  assert (Hkeys : forall s0 : Popup.TabSearcher,
            (exists m, tabsList_content (Popup.page s0) = ErrorPanel m) ->
            forall key,
              popup_items
                (snd (Popup.handleKeyNavigation key updated got focused s0))
              = [] /\
              (key <> js "Escape" ->
               host_calls (Popup.page
                 (snd (Popup.handleKeyNavigation key updated got focused s0)))
               = host_calls (Popup.page s0)
               \/ host_calls (Popup.page
                    (snd (Popup.handleKeyNavigation key updated got focused s0)))
                  = host_calls (Popup.page s0) ++ [PreventDefault])).
  { intros s0 [m Hm] key.
    destruct s0 as [T F c [v content d1 t1 t2 d2 d3 d4 errs calls]].
    cbn in Hm. subst content.
    unfold Popup.handleKeyNavigation, bind, get, Popup.highlightTab,
      Popup.call, modify, popup_items.
    cbn beta iota.
    destruct (str_eqb key (js "ArrowDown")); [cbn; auto|].
    destruct (str_eqb key (js "ArrowUp")); [cbn; auto|].
    destruct (str_eqb key (js "Enter")); [cbn; auto|].
    destruct (str_eqb key (js "Escape")) eqn:E; [|cbn; auto].
    cbn. split; [reflexivity|].
    apply str_eqb_eq in E. intros H. contradiction. }
  split.
  - set (r := Popup.loadTabs new_URL (Throw e) (Normal found) s).
    do 7 (split; [reflexivity|]).
    intros key. apply Hkeys. eexists. reflexivity.
  - set (r := Popup.loadTabs new_URL (Normal found) (Throw e) s).
    do 3 (split; [reflexivity|]).
    split; [cbn; rewrite <- app_assoc; reflexivity|].
    do 3 (split; [reflexivity|]).
    intros key. apply Hkeys. eexists. reflexivity.
Qed.

End RefreshFailure.

(** ** The counters of the [build/] copy *)

Section BuildCounters.

Variable new_URL : jsstring -> option (jsstring * jsstring).

Lemma build_renderTabs_counters (s : BuildPopup.TabSearcher) :
  let s' := snd (BuildPopup.renderTabs new_URL s) in
  tabCountEl_text (BuildPopup.page s') = tabCountEl_text (BuildPopup.page s) /\
  matchCountEl_text (BuildPopup.page s') = matchCountEl_text (BuildPopup.page s) /\
  matchCountEl_display (BuildPopup.page s')
  = matchCountEl_display (BuildPopup.page s).
Proof.
  cbn zeta. unfold BuildPopup.renderTabs, bind, get. cbn beta iota.
  destruct (Nat.eqb _ 0 && negb _); cbn; [repeat split; reflexivity|].
  set (s1 := BuildPopup.on_page _ s).
  pose proof (@mapM_state _ _ _ _ (build_createTabHTML_state new_URL)
                (BuildPopup.filteredTabs s) s1) as Hs.
  destruct (mapM _ _ s1) as [[items|e|] s2]; cbn [snd] in Hs; subst s2;
    cbn; repeat split; reflexivity.
Qed.

(** What [updateUI] of the [build/] copy leaves in the counters: the
    first shows the number of the filtered tabs, where the copy in
    [popup.js] shows the number of all the tabs; the second is visible
    exactly when a query is typed and some tab is filtered out, and then
    shows the same number. *)
Theorem build_updateUI_counters (s : BuildPopup.TabSearcher) :
  let s' := snd (BuildPopup.updateUI new_URL s) in
  let shown :=
    negb (is_empty (trim (searchInput_value (BuildPopup.page s))))
    && negb (Nat.eqb (List.length (BuildPopup.filteredTabs s))
                     (List.length (BuildPopup.tabs s))) in
  tabCountEl_text (BuildPopup.page s') =
    count_label (List.length (BuildPopup.filteredTabs s)) (js "tab") (js "s") /\
  matchCountEl_display (BuildPopup.page s') =
    (if shown then DisplayInline else DisplayNone) /\
  (shown = true ->
   matchCountEl_text (BuildPopup.page s') =
     count_label (List.length (BuildPopup.filteredTabs s)) (js "match") (js "es")) /\
  tabCountEl_text (Popup.page (snd (Popup.updateUI new_URL
     {| Popup.tabs := BuildPopup.tabs s;
        Popup.filteredTabs := BuildPopup.filteredTabs s;
        Popup.currentTabId := BuildPopup.currentTabId s;
        Popup.page := BuildPopup.page s |}))) =
    count_label (List.length (BuildPopup.tabs s)) (js "tab") (js "s").
Proof.
  cbn zeta. unfold BuildPopup.updateUI, Popup.updateUI, bind.
  assert (Hst :
    let s2 := snd (BuildPopup.updateStats s) in
    fst (BuildPopup.updateStats s) = Normal tt /\
    tabCountEl_text (BuildPopup.page s2) =
      count_label (List.length (BuildPopup.filteredTabs s)) (js "tab") (js "s") /\
    matchCountEl_display (BuildPopup.page s2) =
      (if negb (is_empty (trim (searchInput_value (BuildPopup.page s))))
          && negb (Nat.eqb (List.length (BuildPopup.filteredTabs s))
                           (List.length (BuildPopup.tabs s)))
       then DisplayInline else DisplayNone) /\
    (negb (is_empty (trim (searchInput_value (BuildPopup.page s))))
     && negb (Nat.eqb (List.length (BuildPopup.filteredTabs s))
                      (List.length (BuildPopup.tabs s))) = true ->
     matchCountEl_text (BuildPopup.page s2) =
       count_label (List.length (BuildPopup.filteredTabs s)) (js "match") (js "es"))).
  { unfold BuildPopup.updateStats, bind, get, modify. cbn beta iota.
    destruct (negb _ && negb _); cbn; repeat split; try reflexivity.
    discriminate. }
  cbn zeta in Hst. destruct Hst as (HN & HT & HD & HM).
  destruct (BuildPopup.updateStats s) as [c s2]. cbn [fst snd] in HN, HT, HD, HM.
  subst c.
  destruct (build_renderTabs_counters s2) as (R1 & R2 & R3).
  cbn zeta in R1, R2, R3. rewrite R1, R2, R3.
  split; [exact HT|]. split; [exact HD|]. split; [exact HM|].
  set (p := {| Popup.tabs := BuildPopup.tabs s;
               Popup.filteredTabs := BuildPopup.filteredTabs s;
               Popup.currentTabId := BuildPopup.currentTabId s;
               Popup.page := BuildPopup.page s |}).
  assert (HP : fst (Popup.updateStats p) = Normal tt /\
               tabCountEl_text (Popup.page (snd (Popup.updateStats p))) =
               count_label (List.length (BuildPopup.tabs s)) (js "tab") (js "s")).
  { unfold Popup.updateStats, bind, get, modify. cbn beta iota.
    destruct (negb _ && negb _); cbn; split; reflexivity. }
  destruct HP as [PN PT].
  destruct (Popup.updateStats p) as [c p2]. cbn [fst snd] in PN, PT. subst c.
  destruct (popup_renderTabs_counters new_URL p2) as (Q1 & _ & _).
  cbn zeta in Q1. rewrite Q1. exact PT.
Qed.

End BuildCounters.

(** ** The two copies side by side *)

Section TwoCopies.

Variable new_URL : jsstring -> option (jsstring * jsstring).

Lemma copies_switchToTab (tabId : Z) (updated : completion unit)
    (got : completion RawTab) (focused : completion unit)
    (s : BuildPopup.TabSearcher) :
  same_outcome s
    (BuildPopup.switchToTab tabId updated got focused s)
    (Popup.switchToTab tabId updated got focused (popup_of_build s)).
Proof.
  unfold same_outcome, BuildPopup.switchToTab, Popup.switchToTab, try_catch,
    bind, BuildPopup.await, Popup.await, BuildPopup.call, Popup.call,
    BuildPopup.console_error, Popup.console_error, modify.
  destruct updated as [[]|e|]; [destruct got as [t|e|];
    [destruct focused as [[]|e|]|..]|..]; cbn; repeat split; reflexivity.
Qed.

Lemma copies_highlightTab (index : Z) (s : BuildPopup.TabSearcher) :
  same_outcome s (BuildPopup.highlightTab index s)
    (Popup.highlightTab index (popup_of_build s)).
Proof.
  unfold same_outcome, BuildPopup.highlightTab, Popup.highlightTab, bind, get,
    BuildPopup.call, Popup.call, modify, ret.
  cbn beta iota. cbn [popup_of_build Popup.page].
  destruct (tabsList_content (BuildPopup.page s)) as [l|m];
    [|repeat split; reflexivity].
  destruct (item_at _ index); cbn; repeat split; reflexivity.
Qed.

Lemma copies_handleKeyNavigation (key : jsstring) (updated : completion unit)
    (got : completion RawTab) (focused : completion unit)
    (s : BuildPopup.TabSearcher) :
  same_outcome s
    (BuildPopup.handleKeyNavigation key updated got focused s)
    (Popup.handleKeyNavigation key updated got focused (popup_of_build s)).
Proof.
  set (items := tab_items (tabsList_content (BuildPopup.page s))).
  assert (EB : BuildPopup.handleKeyNavigation key updated got focused s =
    if str_eqb key (js "ArrowDown") then
      (BuildPopup.call PreventDefault ;;;
       BuildPopup.highlightTab
         (Z.min (active_index items + 1) (Z.of_nat (List.length items) - 1))) s
    else if str_eqb key (js "ArrowUp") then
      (BuildPopup.call PreventDefault ;;;
       BuildPopup.highlightTab (Z.max (active_index items - 1) 0)) s
    else if str_eqb key (js "Enter") then
      match item_at items (active_index items), items with
      | Some activeItem, _ =>
          (BuildPopup.call PreventDefault ;;;
           BuildPopup.switchToTab (data_tabId activeItem) updated got focused) s
      | None, first :: _ =>
          (BuildPopup.call PreventDefault ;;;
           BuildPopup.switchToTab (data_tabId first) updated got focused) s
      | None, [] => (BuildPopup.call PreventDefault ;;; ret tt) s
      end
    else if str_eqb key (js "Escape") then BuildPopup.call WindowClose s
    else (Normal tt, s)).
  { unfold BuildPopup.handleKeyNavigation. unfold bind at 1, get at 1.
    cbn beta iota. fold items.
    destruct (str_eqb key (js "ArrowDown")); [reflexivity|].
    destruct (str_eqb key (js "ArrowUp")); [reflexivity|].
    destruct (str_eqb key (js "Enter"));
      [|destruct (str_eqb key (js "Escape")); reflexivity].
    destruct (item_at items (active_index items)); [reflexivity|].
    destruct items; reflexivity. }
  assert (EP : Popup.handleKeyNavigation key updated got focused
                 (popup_of_build s) =
    if str_eqb key (js "ArrowDown") then
      (Popup.call PreventDefault ;;;
       Popup.highlightTab
         (Z.min (active_index items + 1) (Z.of_nat (List.length items) - 1)))
        (popup_of_build s)
    else if str_eqb key (js "ArrowUp") then
      (Popup.call PreventDefault ;;;
       Popup.highlightTab (Z.max (active_index items - 1) 0)) (popup_of_build s)
    else if str_eqb key (js "Enter") then
      match item_at items (active_index items), items with
      | Some activeItem, _ =>
          (Popup.call PreventDefault ;;;
           Popup.switchToTab (data_tabId activeItem) updated got focused)
            (popup_of_build s)
      | None, first :: _ =>
          (Popup.call PreventDefault ;;;
           Popup.switchToTab (data_tabId first) updated got focused)
            (popup_of_build s)
      | None, [] => (Popup.call PreventDefault ;;; ret tt) (popup_of_build s)
      end
    else if str_eqb key (js "Escape") then Popup.call WindowClose (popup_of_build s)
    else (Normal tt, popup_of_build s)).
  { unfold Popup.handleKeyNavigation. unfold bind at 1, get at 1.
    cbn beta iota. cbn [popup_of_build Popup.page]. fold items.
    destruct (str_eqb key (js "ArrowDown")); [reflexivity|].
    destruct (str_eqb key (js "ArrowUp")); [reflexivity|].
    destruct (str_eqb key (js "Enter"));
      [|destruct (str_eqb key (js "Escape")); reflexivity].
    destruct (item_at items (active_index items)); [reflexivity|].
    destruct items; reflexivity. }
  rewrite EB, EP. clear EB EP.
  assert (Hh : forall index,
            same_outcome s
              ((BuildPopup.call PreventDefault ;;; BuildPopup.highlightTab index) s)
              ((Popup.call PreventDefault ;;; Popup.highlightTab index)
                 (popup_of_build s))).
  { intros index. unfold bind, BuildPopup.call, Popup.call, modify.
    cbn beta iota.
    destruct (copies_highlightTab index
                (BuildPopup.on_page (log_call PreventDefault) s))
      as (H1 & H2 & H3).
    repeat split; assumption. }
  assert (Hsw : forall tabId,
            same_outcome s
              ((BuildPopup.call PreventDefault ;;;
                BuildPopup.switchToTab tabId updated got focused) s)
              ((Popup.call PreventDefault ;;;
                Popup.switchToTab tabId updated got focused)
                 (popup_of_build s))).
  { intros tabId. unfold bind, BuildPopup.call, Popup.call, modify.
    cbn beta iota.
    destruct (copies_switchToTab tabId updated got focused
                (BuildPopup.on_page (log_call PreventDefault) s))
      as (H1 & H2 & H3).
    repeat split; assumption. }
  destruct (str_eqb key (js "ArrowDown")); [apply Hh|].
  destruct (str_eqb key (js "ArrowUp")); [apply Hh|].
  destruct (str_eqb key (js "Enter")).
  { destruct (item_at items (active_index items)) as [it|]; [apply Hsw|].
    destruct items as [|first rest]; [|apply Hsw].
    repeat split; reflexivity. }
  destruct (str_eqb key (js "Escape")); repeat split; reflexivity.
Qed.

(** The two copies side by side.  [switchToTab], [highlightTab] and
    [handleKeyNavigation] of the [build/] copy do what those of [popup.js]
    do: the same completion, the same object, the same page and calls,
    the mode left alone.  [closeTab] and [loadTabs] leave the same tabs
    and filtered tabs and make the same host calls, whatever the host
    answers. *)
Theorem the_two_copies_agree (s : BuildPopup.TabSearcher) :
  (forall tabId updated got focused,
     same_outcome s
       (BuildPopup.switchToTab tabId updated got focused s)
       (Popup.switchToTab tabId updated got focused (popup_of_build s))) /\
  (forall index,
     same_outcome s (BuildPopup.highlightTab index s)
       (Popup.highlightTab index (popup_of_build s))) /\
  (forall key updated got focused,
     same_outcome s
       (BuildPopup.handleKeyNavigation key updated got focused s)
       (Popup.handleKeyNavigation key updated got focused (popup_of_build s))) /\
  (forall tabId removed,
     let b := snd (BuildPopup.closeTab new_URL tabId removed s) in
     let p := snd (Popup.closeTab new_URL tabId removed (popup_of_build s)) in
     BuildPopup.tabs b = Popup.tabs p /\
     BuildPopup.filteredTabs b = Popup.filteredTabs p /\
     host_calls (BuildPopup.page b) = host_calls (Popup.page p)) /\
  (forall all_tabs active_tabs,
     let b := snd (BuildPopup.loadTabs new_URL all_tabs active_tabs s) in
     let p := snd (Popup.loadTabs new_URL all_tabs active_tabs
                     (popup_of_build s)) in
     BuildPopup.tabs b = Popup.tabs p /\
     BuildPopup.filteredTabs b = Popup.filteredTabs p /\
     host_calls (BuildPopup.page b) = host_calls (Popup.page p)).
Proof.
  split; [intros; apply copies_switchToTab|].
  split; [intros; apply copies_highlightTab|].
  split; [intros; apply copies_handleKeyNavigation|].
  split.
  - intros tabId removed. cbn zeta.
    unfold BuildPopup.closeTab, Popup.closeTab, try_catch, bind,
      BuildPopup.await, Popup.await, modify. cbn beta iota.
    destruct removed as [[]|e|]; cbn beta iota;
      try (cbn; repeat split; reflexivity).
    match goal with
    | |- context [BuildPopup.updateUI new_URL ?s1] =>
        destruct (build_updateUI_ui_only new_URL s1)
          as (B1 & B2 & _ & _ & _ & _ & _ & B8);
        destruct (BuildPopup.updateUI new_URL s1) as [[[]|eb|] b2]
    end;
    match goal with
    | |- context [Popup.updateUI new_URL ?s1] =>
        destruct (popup_updateUI_ui_only new_URL s1)
          as (P1 & P2 & _ & _ & _ & _ & P7);
        destruct (Popup.updateUI new_URL s1) as [[[]|ep|] p2]
    end;
    cbn [fst snd] in *;
    unfold BuildPopup.console_error, Popup.console_error, modify; cbn [snd];
    cbn [BuildPopup.tabs BuildPopup.filteredTabs BuildPopup.page
         BuildPopup.on_page Popup.tabs Popup.filteredTabs Popup.page
         Popup.on_page host_calls log_error];
    rewrite B1, B2, B8, P1, P2, P7; repeat split; reflexivity.
  - intros all_tabs active_tabs. cbn zeta.
    unfold BuildPopup.loadTabs, Popup.loadTabs, BuildPopup.showLoading,
      Popup.showLoading, try_finally, try_catch, bind,
      BuildPopup.await, Popup.await, modify. cbn beta iota.
    destruct all_tabs as [l|e|]; cbn beta iota;
      [destruct active_tabs as [found|e|]; cbn beta iota|..];
      try (cbn; repeat split; reflexivity).
    match goal with
    | |- context [BuildPopup.updateUI new_URL ?s1] =>
        destruct (build_updateUI_ui_only new_URL s1)
          as (B1 & B2 & B3 & _ & _ & _ & _ & B8);
        destruct (BuildPopup.updateUI new_URL s1) as [[[]|eb|] b2]
    end;
    match goal with
    | |- context [Popup.updateUI new_URL ?s1] =>
        destruct (popup_updateUI_ui_only new_URL s1)
          as (P1 & P2 & P3 & _ & _ & _ & P7);
        destruct (Popup.updateUI new_URL s1) as [[[]|ep|] p2]
    end;
    cbn [fst snd] in *;
    unfold BuildPopup.console_error, Popup.console_error,
      BuildPopup.showError, Popup.showError, bind, modify; cbn [snd];
    cbn [BuildPopup.tabs BuildPopup.filteredTabs BuildPopup.page
         BuildPopup.currentTabId
         BuildPopup.on_page Popup.tabs Popup.filteredTabs Popup.page
         Popup.currentTabId
         Popup.on_page host_calls log_error set_tabsList_content
         set_tabsList_display set_loadingEl_display];
    rewrite ?B1, ?B2, ?B8, ?P1, ?P2, ?P7;
    cbn; repeat split; reflexivity.
Qed.

End TwoCopies.

(** ** The popup, step by step *)

Lemma finished_snd (m : Popup.method unit) (s : Popup.TabSearcher) :
  snd (PopupAsync.finished m s) = snd (m s).
Proof.
  unfold PopupAsync.finished, bind. destruct (m s) as [[[]|e|] s']; reflexivity.
Qed.

Lemma popup_highlightTab_lists (index : Z) (s : Popup.TabSearcher) :
  let s' := snd (Popup.highlightTab index s) in
  Popup.tabs s' = Popup.tabs s /\
  Popup.filteredTabs s' = Popup.filteredTabs s /\
  loadingEl_display (Popup.page s') = loadingEl_display (Popup.page s).
Proof.
  cbn zeta. unfold Popup.highlightTab, bind, get, modify, Popup.call.
  cbn beta iota.
  destruct (tabsList_content (Popup.page s)) as [items|msg];
    [destruct (item_at _ index)|]; cbn; repeat split; reflexivity.
Qed.

Section StepByStep.

Variable new_URL : jsstring -> option (jsstring * jsstring).

Lemma popup_updateUI_lists (s : Popup.TabSearcher) :
  let s' := snd (Popup.updateUI new_URL s) in
  Popup.tabs s' = Popup.tabs s /\
  Popup.filteredTabs s' = Popup.filteredTabs s /\
  loadingEl_display (Popup.page s') = loadingEl_display (Popup.page s).
Proof.
  destruct (popup_updateUI_ui_only new_URL s) as (H1 & H2 & _ & _ & H3 & _).
  cbn zeta. auto.
Qed.

Lemma handleKeyNavigation_lists (key : jsstring) (s : Popup.TabSearcher) :
  let s' := snd (PopupAsync.handleKeyNavigation key s) in
  Popup.tabs s' = Popup.tabs s /\
  Popup.filteredTabs s' = Popup.filteredTabs s /\
  loadingEl_display (Popup.page s') = loadingEl_display (Popup.page s).
Proof.
  cbn zeta. remember (snd (PopupAsync.handleKeyNavigation key s)) as s' eqn:E.
  unfold PopupAsync.handleKeyNavigation, get in E. unfold bind at 1 in E.
  cbn beta iota in E.
  destruct (str_eqb key (js "ArrowDown")).
  { rewrite finished_snd in E. unfold bind, Popup.call, modify in E.
    cbn beta iota in E. subst s'.
    match goal with
    | |- context [Popup.highlightTab ?i ?s1] =>
        destruct (popup_highlightTab_lists i s1) as (E1 & E2 & E3)
    end.
    cbn zeta in E1, E2, E3. rewrite E1, E2, E3. repeat split. }
  destruct (str_eqb key (js "ArrowUp")).
  { rewrite finished_snd in E. unfold bind, Popup.call, modify in E.
    cbn beta iota in E. subst s'.
    match goal with
    | |- context [Popup.highlightTab ?i ?s1] =>
        destruct (popup_highlightTab_lists i s1) as (E1 & E2 & E3)
    end.
    cbn zeta in E1, E2, E3. rewrite E1, E2, E3. repeat split. }
  destruct (str_eqb key (js "Enter")).
  { unfold bind, Popup.call, modify in E. cbn beta iota in E.
    destruct (item_at _ _); [|destruct (tab_items _)]; subst s'; cbn;
      repeat split. }
  destruct (str_eqb key (js "Escape")).
  { rewrite finished_snd in E. subst s'. cbn. repeat split. }
  subst s'. cbn. repeat split.
Qed.

Lemma closeOtherTabs_start_lists (confirmed : bool) (s : Popup.TabSearcher) :
  let r := PopupAsync.closeOtherTabs_start confirmed s in
  Popup.tabs (snd r) = Popup.tabs s /\
  Popup.filteredTabs (snd r) = Popup.filteredTabs s /\
  loadingEl_display (Popup.page (snd r)) = loadingEl_display (Popup.page s).
Proof.
  cbn zeta. unfold PopupAsync.closeOtherTabs_start, bind, Popup.call, modify, get.
  cbn beta iota. destruct confirmed; cbn [negb]; cbn beta iota;
    [|cbn; repeat split].
  match goal with
  | |- context [Nat.ltb ?a ?b] => destruct (Nat.ltb a b)
  end; cbn; repeat split.
Qed.

(** What a step does to the lists. *)
Lemma start_lists (e : PopupAsync.event) (s : Popup.TabSearcher) :
  popup_lists_invariant s ->
  popup_lists_invariant (snd (PopupAsync.start new_URL e s)).
Proof.
  intros [H1 H2]. unfold popup_lists_invariant.
  destruct e as [value|key| |confirmed|tabId|tabId]; cbn [PopupAsync.start].
  - rewrite finished_snd. unfold bind, modify. cbn beta iota.
    destruct (popup_filterTabs_fields new_URL
                (Popup.on_page (set_searchInput_value value) s)) as [E1 E2].
    cbn zeta in E1, E2. rewrite E1, E2. cbn [Popup.tabs Popup.on_page].
    split; [|exact H2].
    destruct (is_empty _); [apply Subsequence_refl|apply Subsequence_filter_self].
  - destruct (handleKeyNavigation_lists key s) as (E1 & E2 & _).
    cbn zeta in E1, E2. rewrite E1, E2. auto.
  - cbn. auto.
  - destruct (closeOtherTabs_start_lists confirmed s) as (E1 & E2 & _).
    cbn zeta in E1, E2. rewrite E1, E2. auto.
  - cbn. auto.
  - cbn. auto.
Qed.

Lemma start_loading (e : PopupAsync.event) (s : Popup.TabSearcher) :
  let r := PopupAsync.start new_URL e s in
  existsb PopupAsync.is_query (PopupAsync.tasks_of (fst r)) = true \/
  loadingEl_display (Popup.page (snd r)) = loadingEl_display (Popup.page s).
Proof.
  cbn zeta.
  destruct e as [value|key| |confirmed|tabId|tabId]; cbn [PopupAsync.start].
  - right. rewrite finished_snd. unfold bind, modify.
    cbn beta iota. rewrite popup_filterTabs_unfold. cbn zeta.
    match goal with
    | |- context [Popup.updateUI new_URL ?s1] =>
        destruct (popup_updateUI_lists s1) as (_ & _ & E); cbn zeta in E;
        rewrite E
    end.
    reflexivity.
  - right. apply handleKeyNavigation_lists.
  - left. reflexivity.
  - right. apply closeOtherTabs_start_lists.
  - right. reflexivity.
  - right. reflexivity.
Qed.

Lemma loadTabs_queried_lists (all_tabs : completion (list RawTab))
    (s : Popup.TabSearcher) :
  let r := PopupAsync.loadTabs_queried all_tabs s in
  Popup.tabs (snd r) = Popup.tabs s /\
  Popup.filteredTabs (snd r) = Popup.filteredTabs s /\
  (existsb PopupAsync.is_query (PopupAsync.tasks_of (fst r)) = true \/
   loadingEl_display (Popup.page (snd r)) = DisplayNone).
Proof.
  cbn zeta. destruct all_tabs as [l|e|]; cbn [PopupAsync.loadTabs_queried].
  - cbn. auto.
  - rewrite finished_snd. cbn. auto.
  - rewrite finished_snd. cbn. auto.
Qed.

Lemma loadTabs_answered_lists (l : list RawTab)
    (active_tabs : completion (list RawTab)) (s : Popup.TabSearcher) :
  let s' := snd (PopupAsync.loadTabs_answered new_URL l active_tabs s) in
  (popup_lists_invariant s -> popup_lists_invariant s') /\
  loadingEl_display (Popup.page s') = DisplayNone.
Proof.
  cbn zeta. unfold PopupAsync.loadTabs_answered. rewrite finished_snd.
  unfold try_finally, try_catch, PopupAsync.loadTabs_catch, Popup.showLoading,
    Popup.showError, Popup.console_error, bind, lift, modify.
  cbn beta iota.
  destruct active_tabs as [found|e|]; cbn beta iota;
    try (split; [intros H; exact H|reflexivity]).
  match goal with
  | |- context [Popup.updateUI new_URL ?s1] =>
      destruct (popup_updateUI_lists s1) as (E1 & E2 & _);
      assert (H1 : popup_lists_invariant s1);
      [|destruct (Popup.updateUI new_URL s1) as [[[]|e1|] s2]]
  end.
  - split; cbn.
    + apply Subsequence_refl.
    + apply Forall_forall. intros t Ht. apply in_map_iff in Ht.
      destruct Ht as [r [<- _]]. apply store_tab_title.
  - cbn [snd] in *. split; [|reflexivity]. intros _.
    destruct H1 as [A B]. split; cbn; rewrite ?E1, ?E2; assumption.
  - cbn [snd] in *. split; [|reflexivity]. intros _.
    destruct H1 as [A B]. split; cbn; rewrite ?E1, ?E2; assumption.
  - cbn [snd] in *. split; [|reflexivity]. intros _.
    destruct H1 as [A B]. split; cbn; rewrite ?E1, ?E2; assumption.
Qed.

Lemma closeTab_removed_lists (tabId : Z) (removed : completion unit)
    (s : Popup.TabSearcher) :
  let s' := snd (PopupAsync.closeTab_removed new_URL tabId removed s) in
  (popup_lists_invariant s -> popup_lists_invariant s') /\
  loadingEl_display (Popup.page s') = loadingEl_display (Popup.page s).
Proof.
  cbn zeta. unfold PopupAsync.closeTab_removed. rewrite finished_snd.
  unfold try_catch, Popup.console_error, bind, lift, modify.
  cbn beta iota.
  destruct removed as [[]|e|]; cbn beta iota;
    try (split; [intros H; exact H|reflexivity]).
  match goal with
  | |- context [Popup.updateUI new_URL ?s1] =>
      destruct (popup_updateUI_lists s1) as (E1 & E2 & E3);
      destruct (Popup.updateUI new_URL s1) as [[[]|e1|] s2]
  end; cbn [snd] in *.
  all: split; [|cbn; rewrite ?E3; reflexivity].
  all: intros [A B]; split; cbn; rewrite ?E1, ?E2; cbn;
    [apply Subsequence_filter; exact A|apply Forall_filter; exact B].
Qed.

Lemma switchToTab_steps_lists (t : PopupAsync.task) (a : PopupEvents.answers)
    (s : Popup.TabSearcher) :
  match t with
  | PopupAsync.Update _ | PopupAsync.Get _ | PopupAsync.Focus =>
      let s' := snd (PopupAsync.resume new_URL t a s) in
      Popup.tabs s' = Popup.tabs s /\
      Popup.filteredTabs s' = Popup.filteredTabs s /\
      loadingEl_display (Popup.page s') = loadingEl_display (Popup.page s)
  | _ => True
  end.
Proof.
  destruct t as [ |l|tabId|tabId| |tabId| ]; try exact I;
    cbn [PopupAsync.resume].
  - unfold PopupAsync.switchToTab_updated.
    destruct (PopupEvents.updated a) as [[]|e|]; try rewrite finished_snd;
      cbn; repeat split.
  - unfold PopupAsync.switchToTab_got.
    destruct (PopupEvents.got a) as [tab|e|]; try rewrite finished_snd;
      cbn; repeat split.
  - unfold PopupAsync.switchToTab_focused. rewrite finished_snd.
    destruct (PopupEvents.focused a) as [[]|e|]; cbn; repeat split.
Qed.

Lemma closeOtherTabs_removed_lists (removed : completion unit)
    (s : Popup.TabSearcher) :
  let r := PopupAsync.closeOtherTabs_removed removed s in
  Popup.tabs (snd r) = Popup.tabs s /\
  Popup.filteredTabs (snd r) = Popup.filteredTabs s /\
  (existsb PopupAsync.is_query (PopupAsync.tasks_of (fst r)) = true \/
   loadingEl_display (Popup.page (snd r)) = loadingEl_display (Popup.page s)).
Proof.
  cbn zeta. destruct removed as [[]|e|]; cbn [PopupAsync.closeOtherTabs_removed].
  - cbn. auto.
  - rewrite finished_snd. cbn. auto.
  - rewrite finished_snd. cbn. auto.
Qed.

Lemma resume_lists (t : PopupAsync.task) (a : PopupEvents.answers)
    (s : Popup.TabSearcher) :
  popup_lists_invariant s ->
  popup_lists_invariant (snd (PopupAsync.resume new_URL t a s)).
Proof.
  intros H. pose proof (switchToTab_steps_lists t a s) as HS.
  destruct t as [ |l|tabId|tabId| |tabId| ]; cbn [PopupAsync.resume] in *.
  - destruct (loadTabs_queried_lists (PopupEvents.all_tabs a) s)
      as (E1 & E2 & _).
    cbn zeta in E1, E2. destruct H as [A B]. split; rewrite ?E1, ?E2; assumption.
  - apply loadTabs_answered_lists. exact H.
  - destruct HS as (E1 & E2 & _). destruct H as [A B].
    split; rewrite ?E1, ?E2; assumption.
  - destruct HS as (E1 & E2 & _). destruct H as [A B].
    split; rewrite ?E1, ?E2; assumption.
  - destruct HS as (E1 & E2 & _). destruct H as [A B].
    split; rewrite ?E1, ?E2; assumption.
  - apply closeTab_removed_lists. exact H.
  - destruct (closeOtherTabs_removed_lists (PopupEvents.removed a) s)
      as (E1 & E2 & _).
    cbn zeta in E1, E2. destruct H as [A B]. split; rewrite ?E1, ?E2; assumption.
Qed.

Lemma resume_loading (t : PopupAsync.task) (a : PopupEvents.answers)
    (s : Popup.TabSearcher) :
  let r := PopupAsync.resume new_URL t a s in
  existsb PopupAsync.is_query (PopupAsync.tasks_of (fst r)) = true \/
  loadingEl_display (Popup.page (snd r)) =
    (if PopupAsync.is_query t then DisplayNone
     else loadingEl_display (Popup.page s)).
Proof.
  cbn zeta. pose proof (switchToTab_steps_lists t a s) as HS.
  destruct t as [ |l|tabId|tabId| |tabId| ];
    cbn [PopupAsync.resume PopupAsync.is_query] in *.
  - apply loadTabs_queried_lists.
  - right. apply loadTabs_answered_lists.
  - right. apply HS.
  - right. apply HS.
  - right. apply HS.
  - right. apply closeTab_removed_lists.
  - apply closeOtherTabs_removed_lists.
Qed.

Lemma running_invariant (sys : PopupAsync.system) :
  running new_URL sys ->
  popup_lists_invariant (PopupAsync.object sys) /\
  (existsb PopupAsync.is_query (PopupAsync.waiting sys) = true \/
   loadingEl_display (Popup.page (PopupAsync.object sys)) = DisplayNone).
Proof.
  induction 1 as [|sys e _ [IH1 IH2]|sys before t later a _ [IH1 IH2] Hw _].
  - split; [|left; reflexivity].
    split; cbn; [apply Subsequence_refl|constructor].
  - unfold PopupAsync.after.
    cbn [PopupAsync.object PopupAsync.waiting].
    split; [apply start_lists; exact IH1|].
    rewrite existsb_app.
    destruct (start_loading e (PopupAsync.object sys)) as [H|H];
      cbn zeta in H.
    + left. rewrite H. apply orb_true_r.
    + destruct IH2 as [IH2|IH2].
      * left. rewrite IH2. reflexivity.
      * right. rewrite H. exact IH2.
  - unfold PopupAsync.after.
    cbn [PopupAsync.object PopupAsync.waiting].
    split; [apply resume_lists; exact IH1|].
    rewrite !existsb_app.
    destruct (resume_loading t a (PopupAsync.object sys)) as [H|H];
      cbn zeta in H.
    + left. rewrite H. apply orb_true_r.
    + destruct (PopupAsync.is_query t) eqn:Et; [right; exact H|].
      destruct IH2 as [IH2|IH2].
      * left. rewrite Hw, existsb_app in IH2. cbn [existsb] in IH2.
        rewrite Et in IH2. cbn [orb] in IH2. rewrite IH2. reflexivity.
      * right. rewrite H. exact IH2.
Qed.

(** However the events and the host's answers follow one another,
    the popup keeps this between two steps: the filtered tabs are some of
    the stored tabs, in their order; no stored title is empty; and the
    loading indicator is hidden unless a query of [loadTabs] is waiting
    for its answer. *)
Theorem popup_invariant_running (sys : PopupAsync.system) :
  running new_URL sys ->
  let s := PopupAsync.object sys in
  Subsequence (Popup.filteredTabs s) (Popup.tabs s) /\
  Forall (fun t => title t <> []) (Popup.tabs s) /\
  (existsb PopupAsync.is_query (PopupAsync.waiting sys) = false ->
   loadingEl_display (Popup.page s) = DisplayNone).
Proof.
  intros H. cbn zeta. destruct (running_invariant H) as [[H1 H2] H3].
  split; [exact H1|]. split; [exact H2|].
  intros Hq. destruct H3 as [H3|H3]; [|exact H3].
  rewrite H3 in Hq. discriminate.
Qed.



End StepByStep.

(** A run with an event between the constructor and the host's first
    answer: [rust] is typed while the first query is waiting, then the
    host answers the two queries. *)
Lemma running_typed_then_loaded : running no_URL typed_then_loaded.
Proof.
  assert (Hi : plain_icons willing_host).
  { cbn. repeat constructor; intros u Hu; discriminate. }
  assert (H0 : running no_URL typed_while_loading).
  { apply running_event. apply running_constructed. }
  pose proof (@running_answer no_URL typed_while_loading [] PopupAsync.QueryAll
                [] willing_host H0 eq_refl Hi) as H1.
  exact (@running_answer no_URL _ [] (PopupAsync.QueryActive two_raw_tabs)
           [] willing_host H1 eq_refl Hi).
Defined.

(** The invariant at the end of that run. *)
Lemma popup_invariant_running_witness :
  running no_URL typed_then_loaded /\
  Subsequence (Popup.filteredTabs (PopupAsync.object typed_then_loaded))
              (Popup.tabs (PopupAsync.object typed_then_loaded)) /\
  Forall (fun t => title t <> [])
         (Popup.tabs (PopupAsync.object typed_then_loaded)) /\
  (existsb PopupAsync.is_query (PopupAsync.waiting typed_then_loaded) = false ->
   loadingEl_display (Popup.page (PopupAsync.object typed_then_loaded))
   = DisplayNone).
Proof.
  split; [exact running_typed_then_loaded|].
  exact (@popup_invariant_running no_URL typed_then_loaded
           running_typed_then_loaded).
Defined.
